(** * logique-permission: a model of the permission / role / guard core

    The development follows the TypeScript sources:
    - [models/Permission.ts], [models/Role.ts]   (entities, JSON round trip)
    - [guards/Guard.ts]                          (per-guard registry)
    - [traits/HasPermissions.ts]                 (subject-side mixin)
    - [PermissionManager.ts]                     (facade, custom checks)
    - [exceptions/PermissionException.ts]        (lookup failures)

    Entities are records, optional properties are [option]s, the two
    sources of non-determinism of the constructors ([Math.random] and
    [new Date()]) are an explicit [World], and the objects a manager
    shares by reference live in an explicit heap. *)

From Stdlib Require Import String ZArith List Bool Lia.
From stdpp Require Import base option list strings gmap.

Local Open Scope string_scope.
Local Open Scope list_scope.

(** ** JavaScript values *)

Module JS.

(** A [Date] object, as milliseconds since the epoch.  Every [Date]
    object is truthy. *)
Definition Date := Z.

(** Truthiness of a string: only the empty string is falsy. *)
Definition truthy (s : string) : bool := negb (String.eqb s "").

(** [x || d] where [x] is an optional string property. *)
Definition or_string (x : option string) (d : string) : string :=
  match x with
  | Some s => if truthy s then s else d
  | None => d
  end.

(** [x || undefined] where [x] is an optional string property. *)
Definition or_undefined (x : option string) : option string :=
  match x with
  | Some s => if truthy s then Some s else None
  | None => None
  end.

(** A default parameter value [(p = d)]: only [undefined] triggers it. *)
Definition default_param (p : option string) (d : string) : string :=
  match p with
  | Some s => s
  | None => d
  end.

(** [s.substr(start, length)] for non-negative arguments. *)
Definition substr (start len : nat) (s : string) : string :=
  String.substring start len s.

(** A number in [[0, 1)], kept as the digits that follow ["0."] when the
    number is written in base 36; the number zero has no such digit. *)
Definition Number01 := string.

(** [x.toString(36)] for [x] in [[0, 1)]. *)
Definition toString36 (x : Number01) : string :=
  if truthy x then "0." +:+ x else "0".

End JS.

(** ** The outside world: random numbers and the clock *)

(** [random n] is the result of the [n]-th call of [Math.random()],
    [clock n] the [n]-th [new Date()]; the counters say how many calls
    were made so far. *)
Record World := mkWorld {
  random : nat -> JS.Number01;
  random_calls : nat;
  clock : nat -> JS.Date;
  clock_calls : nat
}.

(** Computations that only consult the world. *)
Definition W (A : Type) : Type := World -> A * World.

Definition wret {A} (a : A) : W A := fun w => (a, w).

Definition wbind {A B} (m : W A) (k : A -> W B) : W B :=
  fun w => let (a, w') := m w in k a w'.

Declare Scope world_scope.
Delimit Scope world_scope with world.
Notation "x <- m ;; k" := (wbind m (fun x => k))
  (at level 100, m at next level, right associativity) : world_scope.

Local Open Scope world_scope.

Definition Math_random : W JS.Number01 :=
  fun w => (random w (random_calls w),
            mkWorld (random w) (S (random_calls w)) (clock w) (clock_calls w)).

Definition new_Date : W JS.Date :=
  fun w => (clock w (clock_calls w),
            mkWorld (random w) (random_calls w) (clock w) (S (clock_calls w))).

Fixpoint wmap {A B} (f : A -> W B) (l : list A) : W (list B) :=
  match l with
  | [] => wret []
  | x :: l' => y <- f x ;; ys <- wmap f l' ;; wret (y :: ys)
  end.

(** [l.forEach(x => f(x))] over a state [S] that [f] updates. *)
Fixpoint wfold {A S} (f : A -> S -> W S) (l : list A) (s : S) : W S :=
  match l with
  | [] => wret s
  | x :: l' => s' <- f x s ;; wfold f l' s'
  end.

(** ** types/index.ts: the plain-object interfaces *)

Module IPermission.
Record t := mk {
  id : string;
  name : string;
  guardName : option string;
  description : option string;
  createdAt : option JS.Date;
  updatedAt : option JS.Date
}.
End IPermission.

(** [Partial<IPermission>], the argument of the [Permission] constructor. *)
Module PartialPermission.
Record t := mk {
  id : option string;
  name : option string;
  guardName : option string;
  description : option string;
  createdAt : option JS.Date;
  updatedAt : option JS.Date
}.

Definition of_interface (d : IPermission.t) : t :=
  mk (Some (IPermission.id d)) (Some (IPermission.name d))
     (IPermission.guardName d) (IPermission.description d)
     (IPermission.createdAt d) (IPermission.updatedAt d).
End PartialPermission.

(** ** models/Permission.ts *)

Module Permission.
Record t := mk {
  id : string;
  name : string;
  guardName : string;
  description : option string;
  createdAt : option JS.Date;
  updatedAt : option JS.Date
}.

(** [Math.random().toString(36).substr(2, 9)] *)
Definition generateId : W string :=
  x <- Math_random ;; wret (JS.substr 2 9 (JS.toString36 x)).

(** [data.id || this.generateId()]: the generator only runs when the
    supplied id is absent or empty. *)
Definition id_or_generate (x : option string) : W string :=
  match x with
  | Some s => if JS.truthy s then wret s else generateId
  | None => generateId
  end.

(** [data.createdAt || new Date()] *)
Definition date_or_now (x : option JS.Date) : W JS.Date :=
  match x with
  | Some d => wret d
  | None => new_Date
  end.

Definition new (data : PartialPermission.t) : W t :=
  i <- id_or_generate (PartialPermission.id data) ;;
  c <- date_or_now (PartialPermission.createdAt data) ;;
  u <- date_or_now (PartialPermission.updatedAt data) ;;
  wret (mk i
           (JS.or_string (PartialPermission.name data) "")
           (JS.or_string (PartialPermission.guardName data) "web")
           (JS.or_undefined (PartialPermission.description data))
           (Some c) (Some u)).

Definition toJSON (p : t) : IPermission.t :=
  IPermission.mk (id p) (name p) (Some (guardName p))
    (JS.or_undefined (description p)) (createdAt p) (updatedAt p).

Definition fromJSON (data : IPermission.t) : W t :=
  new (PartialPermission.of_interface data).

Definition equals (p other : t) : bool :=
  String.eqb (id p) (id other) && String.eqb (name p) (name other)
  && String.eqb (guardName p) (guardName other).

(** The state every constructor call establishes, whatever its argument. *)
Definition normal (p : t) : Prop :=
  guardName p <> "" /\ description p <> Some ""
  /\ createdAt p <> None /\ updatedAt p <> None.

(** [p] is the result of some constructor call. *)
Definition constructed (p : t) : Prop :=
  exists data w, p = fst (new data w).

End Permission.

(** A value of type [Permission | IPermission]: [instanceof Permission]
    tells the two apart. *)
Inductive PermissionOrData :=
| Instance (p : Permission.t)
| Plain (d : IPermission.t).

Module IRole.
Record t := mk {
  id : string;
  name : string;
  guardName : option string;
  description : option string;
  permissions : option (list PermissionOrData);
  createdAt : option JS.Date;
  updatedAt : option JS.Date
}.
End IRole.

(** [Partial<IRole>], the argument of the [Role] constructor. *)
Module PartialRole.
Record t := mk {
  id : option string;
  name : option string;
  guardName : option string;
  description : option string;
  permissions : option (list PermissionOrData);
  createdAt : option JS.Date;
  updatedAt : option JS.Date
}.

Definition of_interface (d : IRole.t) : t :=
  mk (Some (IRole.id d)) (Some (IRole.name d)) (IRole.guardName d)
     (IRole.description d) (IRole.permissions d)
     (IRole.createdAt d) (IRole.updatedAt d).
End PartialRole.

(** ** models/Role.ts *)

Module Role.
Record t := mk {
  id : string;
  name : string;
  guardName : string;
  description : option string;
  permissions : list Permission.t;
  createdAt : option JS.Date;
  updatedAt : option JS.Date
}.

(** [p instanceof Permission ? p : new Permission(p)] *)
Definition as_instance (p : PermissionOrData) : W Permission.t :=
  match p with
  | Instance q => wret q
  | Plain d => Permission.new (PartialPermission.of_interface d)
  end.

Definition new (data : PartialRole.t) : W t :=
  i <- Permission.id_or_generate (PartialRole.id data) ;;
  ps <- wmap as_instance (default [] (PartialRole.permissions data)) ;;
  c <- Permission.date_or_now (PartialRole.createdAt data) ;;
  u <- Permission.date_or_now (PartialRole.updatedAt data) ;;
  wret (mk i
           (JS.or_string (PartialRole.name data) "")
           (JS.or_string (PartialRole.guardName data) "web")
           (JS.or_undefined (PartialRole.description data))
           ps (Some c) (Some u)).

Definition hasPermission (r : t) (permission : PermissionOrData) : W bool :=
  perm <- as_instance permission ;;
  wret (existsb (fun p => Permission.equals p perm) (permissions r)).

Definition with_permissions (r : t) (ps : list Permission.t) : t :=
  mk (id r) (name r) (guardName r) (description r) ps (createdAt r) (updatedAt r).

Definition addPermission (r : t) (permission : PermissionOrData) : W t :=
  perm <- as_instance permission ;;
  wret (if existsb (fun p => Permission.equals p perm) (permissions r)
        then r
        else with_permissions r (permissions r ++ [perm])).

Definition removePermission (r : t) (permission : PermissionOrData) : W t :=
  perm <- as_instance permission ;;
  wret (with_permissions r
          (List.filter (fun p => negb (Permission.equals p perm)) (permissions r))).

Definition syncPermissions (r : t) (ps : list PermissionOrData) : W t :=
  qs <- wmap as_instance ps ;; wret (with_permissions r qs).

Definition toJSON (r : t) : IRole.t :=
  IRole.mk (id r) (name r) (Some (guardName r))
    (JS.or_undefined (description r))
    (Some (map (fun p => Plain (Permission.toJSON p)) (permissions r)))
    (createdAt r) (updatedAt r).

Definition fromJSON (data : IRole.t) : W t :=
  new (PartialRole.of_interface data).

Definition equals (r other : t) : bool :=
  String.eqb (id r) (id other) && String.eqb (name r) (name other)
  && String.eqb (guardName r) (guardName other).

(** The [Permission] instances handed to the constructor were themselves
    built by the [Permission] constructor. *)
Definition instances_constructed (data : PartialRole.t) : Prop :=
  forall p, In (Instance p) (default [] (PartialRole.permissions data)) ->
            Permission.constructed p.

End Role.


(** A value of type [Role | IRole]. *)
Inductive RoleOrData :=
| RoleInstance (r : Role.t)
| RolePlain (d : IRole.t).

(** A [Permission] instance seen through the [IPermission] interface. *)
Definition Permission_as_interface (p : Permission.t) : IPermission.t :=
  IPermission.mk (Permission.id p) (Permission.name p)
    (Some (Permission.guardName p)) (Permission.description p)
    (Permission.createdAt p) (Permission.updatedAt p).

(** A [Role] instance seen through the [IRole] interface. *)
Definition Role_as_interface (r : Role.t) : IRole.t :=
  IRole.mk (Role.id r) (Role.name r) (Some (Role.guardName r))
    (Role.description r) (Some (map Instance (Role.permissions r)))
    (Role.createdAt r) (Role.updatedAt r).

(** [p.name] and [p.guardName] of a value typed [IPermission]. *)
Definition perm_name (p : PermissionOrData) : string :=
  match p with
  | Instance q => Permission.name q
  | Plain d => IPermission.name d
  end.

Definition perm_guardName (p : PermissionOrData) : option string :=
  match p with
  | Instance q => Some (Permission.guardName q)
  | Plain d => IPermission.guardName d
  end.

(** [x === s] where [x] may be [undefined] and [s] is a string. *)
Definition opt_is (x : option string) (s : string) : bool :=
  match x with
  | Some y => String.eqb y s
  | None => false
  end.

(** ** guards/Guard.ts *)

Module Guard.
Record t := mk {
  name : string;
  permissions : list Permission.t;
  roles : list Role.t
}.

Definition new (name : string) : t := mk name [] [].

(** [role instanceof Role ? role : new Role(role)] *)
Definition as_role (r : RoleOrData) : W Role.t :=
  match r with
  | RoleInstance q => wret q
  | RolePlain d => Role.new (PartialRole.of_interface d)
  end.

Definition hasPermission (g : t) (permission : PermissionOrData) : W bool :=
  perm <- Role.as_instance permission ;;
  wret (existsb (fun p => Permission.equals p perm) (permissions g)).

Definition addPermission (g : t) (permission : PermissionOrData) : W t :=
  perm <- Role.as_instance permission ;;
  wret (if existsb (fun p => Permission.equals p perm) (permissions g)
        then g
        else mk (name g) (permissions g ++ [perm]) (roles g)).

Definition removePermission (g : t) (permission : PermissionOrData) : W t :=
  perm <- Role.as_instance permission ;;
  wret (mk (name g)
          (List.filter (fun p => negb (Permission.equals p perm)) (permissions g))
          (roles g)).

Definition getPermission (g : t) (n : string) : option Permission.t :=
  find (fun p => String.eqb (Permission.name p) n) (permissions g).

Definition hasRole (g : t) (role : RoleOrData) : W bool :=
  roleInstance <- as_role role ;;
  wret (existsb (fun r => Role.equals r roleInstance) (roles g)).

Definition addRole (g : t) (role : RoleOrData) : W t :=
  roleInstance <- as_role role ;;
  wret (if existsb (fun r => Role.equals r roleInstance) (roles g)
        then g
        else mk (name g) (permissions g) (roles g ++ [roleInstance])).

Definition removeRole (g : t) (role : RoleOrData) : W t :=
  roleInstance <- as_role role ;;
  wret (mk (name g) (permissions g)
          (List.filter (fun r => negb (Role.equals r roleInstance)) (roles g))).

Definition getRole (g : t) (n : string) : option Role.t :=
  find (fun r => String.eqb (Role.name r) n) (roles g).

End Guard.

(** ** [Map<string, V>] where the order of the entries is observed *)

Module JSMap.
Definition t (V : Type) : Type := list (string * V).

(** [m.set(k, v)]: a present key keeps its place and takes the new
    value, an absent key is added at the end. *)
Fixpoint set {V} (k : string) (v : V) (m : t V) : t V :=
  match m with
  | [] => [(k, v)]
  | (k', v') :: m' =>
      if String.eqb k' k then (k, v) :: m' else (k', v') :: set k v m'
  end.

Fixpoint get {V} (k : string) (m : t V) : option V :=
  match m with
  | [] => None
  | (k', v') :: m' => if String.eqb k' k then Some v' else get k m'
  end.

Definition keys {V} (m : t V) : list string := map fst m.

(** [Array.from(m.values())] *)
Definition values {V} (m : t V) : list V := map snd m.
End JSMap.

(** ** traits/HasPermissions.ts *)

(** An argument of type [string | IPermission]. *)
Inductive PermissionArg :=
| ByName (n : string)
| ByEntity (p : IPermission.t).

Module HasPermissionsTrait.

(** The two fields of the mixin; [roles] is [any[]] in the source and is
    read through the [IRole] interface. *)
Record t := mk {
  permissions : list Permission.t;
  roles : list IRole.t
}.

Definition with_permissions (s : t) (ps : list Permission.t) : t :=
  mk ps (roles s).

Definition with_roles (s : t) (rs : list IRole.t) : t :=
  mk (permissions s) rs.

(** [typeof permission === 'string' ? permission : permission.name] *)
Definition permissionName (permission : PermissionArg) : string :=
  match permission with
  | ByName n => n
  | ByEntity p => IPermission.name p
  end.

(** [p.name === permissionName && p.guardName === guardName] on a direct
    permission. *)
Definition direct_match (permissionName guardName : string)
    (p : Permission.t) : bool :=
  String.eqb (Permission.name p) permissionName
  && String.eqb (Permission.guardName p) guardName.

(** The same test on a permission reached through a role. *)
Definition role_perm_match (permissionName guardName : string)
    (p : PermissionOrData) : bool :=
  String.eqb (perm_name p) permissionName
  && opt_is (perm_guardName p) guardName.

(** [role.permissions?.some(...)] used as a condition. *)
Definition role_grants (permissionName guardName : string)
    (role : IRole.t) : bool :=
  match IRole.permissions role with
  | Some ps => existsb (role_perm_match permissionName guardName) ps
  | None => false
  end.

Definition hasPermission (s : t) (permission : PermissionArg)
    (guardName : option string) : bool :=
  let guardName := JS.default_param guardName "web" in
  let permissionName := permissionName permission in
  if existsb (direct_match permissionName guardName) (permissions s)
  then true
  else existsb (role_grants permissionName guardName) (roles s).

Definition hasAnyPermission (s : t) (permissions : list PermissionArg)
    (guardName : option string) : bool :=
  let guardName := JS.default_param guardName "web" in
  existsb (fun permission => hasPermission s permission (Some guardName))
    permissions.

Definition hasAllPermissions (s : t) (permissions : list PermissionArg)
    (guardName : option string) : bool :=
  let guardName := JS.default_param guardName "web" in
  forallb (fun permission => hasPermission s permission (Some guardName))
    permissions.

(** The [Permission] built at the head of [givePermissionTo]. *)
Definition make_permission (permission : PermissionArg) (guardName : string)
    : W Permission.t :=
  match permission with
  | ByName n =>
      Permission.new
        (PartialPermission.mk None (Some n) (Some guardName) None None None)
  | ByEntity p => Permission.new (PartialPermission.of_interface p)
  end.

Definition givePermissionTo (s : t) (permission : PermissionArg)
    (guardName : option string) : W t :=
  let guardName := JS.default_param guardName "web" in
  perm <- make_permission permission guardName ;;
  wret (if negb (hasPermission s (ByEntity (Permission_as_interface perm))
                   (Some guardName))
        then with_permissions s (permissions s ++ [perm])
        else s).

Definition revokePermissionTo (s : t) (permission : PermissionArg)
    (guardName : option string) : t :=
  let guardName := JS.default_param guardName "web" in
  let permissionName := permissionName permission in
  with_permissions s
    (List.filter (fun p => negb (direct_match permissionName guardName p))
       (permissions s)).

Definition syncPermissions (s : t) (permissions : list PermissionArg)
    (guardName : option string) : W t :=
  let guardName := JS.default_param guardName "web" in
  let s' :=
    with_permissions s
      (List.filter (fun p => negb (String.eqb (Permission.guardName p) guardName))
         (HasPermissionsTrait.permissions s)) in
  wfold (fun permission cur => givePermissionTo cur permission (Some guardName))
    permissions s'.

Definition getDirectPermissions (s : t) (guardName : option string)
    : list Permission.t :=
  let guardName := JS.default_param guardName "web" in
  List.filter (fun p => String.eqb (Permission.guardName p) guardName)
    (permissions s).

(** [role.permissions?.filter(p => p.guardName === guardName) || []] *)
Definition role_permissions_for (guardName : string) (role : IRole.t)
    : list PermissionOrData :=
  match IRole.permissions role with
  | Some ps => List.filter (fun p => opt_is (perm_guardName p) guardName) ps
  | None => []
  end.

Definition getAllPermissions (s : t) (guardName : option string)
    : list PermissionOrData :=
  let guardName := JS.default_param guardName "web" in
  let directPermissions := getDirectPermissions s (Some guardName) in
  let rolePermissions := flat_map (role_permissions_for guardName) (roles s) in
  let allPermissions := map Instance directPermissions ++ rolePermissions in
  let uniquePermissions :=
    fold_left (fun m permission => JSMap.set (perm_name permission) permission m)
      allPermissions [] in
  JSMap.values uniquePermissions.

End HasPermissionsTrait.

(** ** traits/HasRoles.ts *)

(** An argument of type [string | IRole]. *)
Inductive RoleArg :=
| RoleByName (n : string)
| RoleByEntity (r : IRole.t).

Module HasRolesTrait.
Record t := mk { roles : list Role.t }.

Definition roleName (role : RoleArg) : string :=
  match role with
  | RoleByName n => n
  | RoleByEntity r => IRole.name r
  end.

Definition role_match (roleName guardName : string) (r : Role.t) : bool :=
  String.eqb (Role.name r) roleName && String.eqb (Role.guardName r) guardName.

Definition hasRole (s : t) (role : RoleArg) (guardName : option string) : bool :=
  let guardName := JS.default_param guardName "web" in
  existsb (role_match (roleName role) guardName) (roles s).

Definition make_role (role : RoleArg) (guardName : string) : W Role.t :=
  match role with
  | RoleByName n =>
      Role.new (PartialRole.mk None (Some n) (Some guardName) None None None None)
  | RoleByEntity r => Role.new (PartialRole.of_interface r)
  end.

Definition assignRole (s : t) (role : RoleArg) (guardName : option string)
    : W t :=
  let guardName := JS.default_param guardName "web" in
  roleInstance <- make_role role guardName ;;
  wret (if negb (hasRole s (RoleByEntity (Role_as_interface roleInstance))
                   (Some guardName))
        then mk (roles s ++ [roleInstance])
        else s).

Definition removeRole (s : t) (role : RoleArg) (guardName : option string) : t :=
  let guardName := JS.default_param guardName "web" in
  mk (List.filter (fun r => negb (role_match (roleName role) guardName r)) (roles s)).

Definition syncRoles (s : t) (roles : list RoleArg) (guardName : option string)
    : W t :=
  let guardName := JS.default_param guardName "web" in
  let s' :=
    mk (List.filter (fun r => negb (String.eqb (Role.guardName r) guardName))
          (HasRolesTrait.roles s)) in
  wfold (fun role cur => assignRole cur role (Some guardName)) roles s'.

Definition getRoles (s : t) (guardName : option string) : list Role.t :=
  let guardName := JS.default_param guardName "web" in
  List.filter (fun r => String.eqb (Role.guardName r) guardName) (roles s).

End HasRolesTrait.

(** ** exceptions/PermissionException.ts *)

Module PermissionException.
Inductive t :=
| RoleNotFoundException (roleName : string)
| PermissionNotFoundException (permissionName : string)
| GuardNotFoundException (guardName : string).

(** The double-quote character of the messages. *)
Definition dquote : string := String (Ascii.ascii_of_nat 34) EmptyString.

(** The [name] property set by each constructor. *)
Definition name (e : t) : string :=
  match e with
  | RoleNotFoundException _ => "RoleNotFoundException"
  | PermissionNotFoundException _ => "PermissionNotFoundException"
  | GuardNotFoundException _ => "GuardNotFoundException"
  end.

(** The [message] passed to [super]. *)
Definition message (e : t) : string :=
  match e with
  | RoleNotFoundException n => "Role " +:+ dquote +:+ n +:+ dquote +:+ " not found"
  | PermissionNotFoundException n =>
      "Permission " +:+ dquote +:+ n +:+ dquote +:+ " not found"
  | GuardNotFoundException n => "Guard " +:+ dquote +:+ n +:+ dquote +:+ " not found"
  end.

(** The identifier the exception was built from. *)
Definition missing (e : t) : string :=
  match e with
  | RoleNotFoundException n => n
  | PermissionNotFoundException n => n
  | GuardNotFoundException n => n
  end.
End PermissionException.

(** ** PermissionManager.ts *)

(** [PermissionUser]: the manager only ever calls these two methods of
    the subject it is given. *)
Record PermissionUser := mkUser {
  user_id : string;
  user_hasPermission : PermissionArg -> string -> bool;
  user_hasRole : RoleArg -> string -> bool
}.

Abbreviation PermissionCheck := (PermissionUser -> string -> string -> bool).
Abbreviation RoleCheck := (PermissionUser -> string -> string -> bool).

(** [PermissionManagerConfig]: every property is optional. *)
Module PermissionManagerConfig.
Record t := mk {
  cacheEnabled : option bool;
  cacheTtl : option Z;
  defaultGuard : option string
}.
Definition empty : t := mk None None None.
End PermissionManagerConfig.

(** The object stored in [this.config]: the defaults overridden by the
    properties the caller supplied. *)
Module Config.
Record t := mk {
  cacheEnabled : bool;
  cacheTtl : Z;
  defaultGuard : string
}.

(** [{ cacheEnabled: false, cacheTtl: 3600, defaultGuard: 'web', ...config }] *)
Definition merge (config : PermissionManagerConfig.t) : t :=
  mk (default false (PermissionManagerConfig.cacheEnabled config))
     (default 3600%Z (PermissionManagerConfig.cacheTtl config))
     (default "web" (PermissionManagerConfig.defaultGuard config)).

Definition as_argument (c : t) : PermissionManagerConfig.t :=
  PermissionManagerConfig.mk (Some (cacheEnabled c)) (Some (cacheTtl c))
    (Some (defaultGuard c)).

(** [config.defaultGuard = guardName] *)
Definition set_defaultGuard (c : t) (guardName : string) : t :=
  mk (cacheEnabled c) (cacheTtl c) guardName.
End Config.

(** References to heap objects. *)
Abbreviation loc := nat.

(** The fields of a [PermissionManager] instance; each holds a reference. *)
Record ManagerFields := mkManager {
  guards : loc;
  config : loc;
  customPermissionChecks : loc;
  customRoleChecks : loc
}.

Definition set_guards (f : ManagerFields) (l : loc) : ManagerFields :=
  mkManager l (config f) (customPermissionChecks f) (customRoleChecks f).

(** The objects a manager reaches by reference. *)
Inductive Obj :=
| GuardObj (g : Guard.t)
| GuardMapObj (m : gmap string loc)
| ConfigObj (c : Config.t)
| PermissionCheckMapObj (m : gmap string PermissionCheck)
| RoleCheckMapObj (m : gmap string RoleCheck)
| ManagerObj (f : ManagerFields).

Record Heap := mkHeap {
  objs : gmap loc Obj;
  next : loc
}.

Definition empty_heap : Heap := mkHeap ∅ 0.

(** The calls [checkPermission] and [checkRole] make on their arguments. *)
Inductive Call :=
| CustomPermissionCheckCall (key : string) (u : PermissionUser)
    (permission : string) (guardName : string)
| HasPermissionCall (u : PermissionUser) (permission : PermissionArg)
    (guardName : string)
| CustomRoleCheckCall (key : string) (u : PermissionUser)
    (role : string) (guardName : string)
| HasRoleCall (u : PermissionUser) (role : RoleArg) (guardName : string).

Record State := mkState {
  heap : Heap;
  world : World;
  calls : list Call
}.

(** A method either returns, throws one of the library's exceptions, or
    is stuck on a reference that does not hold an object of the class
    the TypeScript types promise. *)
Inductive Outcome (A : Type) :=
| Return (a : A)
| Throw (e : PermissionException.t)
| Stuck.
Arguments Return {A} a.
Arguments Throw {A} e.
Arguments Stuck {A}.

Definition M (A : Type) : Type := State -> Outcome A * State.

Definition mret {A} (a : A) : M A := fun st => (Return a, st).

Definition mbind {A B} (m : M A) (k : A -> M B) : M B :=
  fun st =>
    match m st with
    | (Return a, st') => k a st'
    | (Throw e, st') => (Throw e, st')
    | (Stuck, st') => (Stuck, st')
    end.

Definition throw {A} (e : PermissionException.t) : M A :=
  fun st => (Throw e, st).

Definition stuck {A} : M A := fun st => (Stuck, st).

Declare Scope manager_scope.
Delimit Scope manager_scope with manager.
Notation "x <~ m ;; k" := (mbind m (fun x => k))
  (at level 100, m at next level, right associativity) : manager_scope.

Local Open Scope manager_scope.

(** Run a constructor or a [Guard] method inside a manager method. *)
Definition lift_world {A} (m : W A) : M A :=
  fun st =>
    let (a, w) := m (world st) in
    (Return a, mkState (heap st) w (calls st)).

Definition log (c : Call) : M unit :=
  fun st => (Return tt, mkState (heap st) (world st) (calls st ++ [c])).

Definition alloc (o : Obj) : M loc :=
  fun st =>
    let h := heap st in
    (Return (next h),
     mkState (mkHeap (<[next h := o]> (objs h)) (S (next h)))
       (world st) (calls st)).

Definition read (l : loc) : M Obj :=
  fun st =>
    match objs (heap st) !! l with
    | Some o => (Return o, st)
    | None => (Stuck, st)
    end.

Definition write (l : loc) (o : Obj) : M unit :=
  fun st =>
    let h := heap st in
    (Return tt,
     mkState (mkHeap (<[l := o]> (objs h)) (next h)) (world st) (calls st)).

Definition read_manager (l : loc) : M ManagerFields :=
  o <~ read l ;; match o with ManagerObj f => mret f | _ => stuck end.

Definition read_guard (l : loc) : M Guard.t :=
  o <~ read l ;; match o with GuardObj g => mret g | _ => stuck end.

Definition read_guard_map (l : loc) : M (gmap string loc) :=
  o <~ read l ;; match o with GuardMapObj m => mret m | _ => stuck end.

Definition read_config (l : loc) : M Config.t :=
  o <~ read l ;; match o with ConfigObj c => mret c | _ => stuck end.

Definition read_permission_checks (l : loc) : M (gmap string PermissionCheck) :=
  o <~ read l ;; match o with PermissionCheckMapObj m => mret m | _ => stuck end.

Definition read_role_checks (l : loc) : M (gmap string RoleCheck) :=
  o <~ read l ;; match o with RoleCheckMapObj m => mret m | _ => stuck end.

Module PermissionManager.

(** [this.config] *)
Definition this_config (this : loc) : M Config.t :=
  f <~ read_manager this ;; read_config (config f).

Definition createGuard (this : loc) (name : string) : M loc :=
  f <~ read_manager this ;;
  m <~ read_guard_map (guards f) ;;
  guard <~ alloc (GuardObj (Guard.new name)) ;;
  _ <~ write (guards f) (GuardMapObj (<[name := guard]> m)) ;;
  mret guard.

(** The field initialisers, the merge of the configuration and the
    creation of the default guard. *)
Definition new (config : PermissionManagerConfig.t) : M loc :=
  g <~ alloc (GuardMapObj ∅) ;;
  pc <~ alloc (PermissionCheckMapObj ∅) ;;
  rc <~ alloc (RoleCheckMapObj ∅) ;;
  c <~ alloc (ConfigObj (Config.merge config)) ;;
  this <~ alloc (ManagerObj (mkManager g c pc rc)) ;;
  _ <~ createGuard this (Config.defaultGuard (Config.merge config)) ;;
  mret this.

Definition getGuard (this : loc) (name : string) : M loc :=
  f <~ read_manager this ;;
  m <~ read_guard_map (guards f) ;;
  match m !! name with
  | Some guard => mret guard
  | None => throw (PermissionException.GuardNotFoundException name)
  end.

Definition getDefaultGuard (this : loc) : M loc :=
  c <~ this_config this ;;
  getGuard this (Config.defaultGuard c).

(** [guardName || this.config.defaultGuard!] *)
Definition resolve_guard (this : loc) (guardName : option string) : M string :=
  c <~ this_config this ;;
  mret (JS.or_string guardName (Config.defaultGuard c)).

Definition createPermission (this : loc) (name : string)
    (guardName : option string) : M Permission.t :=
  k <~ resolve_guard this guardName ;;
  guard <~ getGuard this k ;;
  g <~ read_guard guard ;;
  permission <~ lift_world
    (Permission.new
       (PartialPermission.mk None (Some name) (Some (Guard.name g))
          None None None)) ;;
  g' <~ lift_world (Guard.addPermission g (Instance permission)) ;;
  _ <~ write guard (GuardObj g') ;;
  mret permission.

Definition createRole (this : loc) (name : string)
    (guardName : option string) : M Role.t :=
  k <~ resolve_guard this guardName ;;
  guard <~ getGuard this k ;;
  g <~ read_guard guard ;;
  role <~ lift_world
    (Role.new
       (PartialRole.mk None (Some name) (Some (Guard.name g))
          None None None None)) ;;
  g' <~ lift_world (Guard.addRole g (RoleInstance role)) ;;
  _ <~ write guard (GuardObj g') ;;
  mret role.

Definition getPermission (this : loc) (name : string)
    (guardName : option string) : M Permission.t :=
  k <~ resolve_guard this guardName ;;
  guard <~ getGuard this k ;;
  g <~ read_guard guard ;;
  match Guard.getPermission g name with
  | Some permission => mret permission
  | None => throw (PermissionException.PermissionNotFoundException name)
  end.

Definition getRole (this : loc) (name : string)
    (guardName : option string) : M Role.t :=
  k <~ resolve_guard this guardName ;;
  guard <~ getGuard this k ;;
  g <~ read_guard guard ;;
  match Guard.getRole g name with
  | Some role => mret role
  | None => throw (PermissionException.RoleNotFoundException name)
  end.

Definition getAllPermissions (this : loc) (guardName : option string)
    : M (list Permission.t) :=
  k <~ resolve_guard this guardName ;;
  guard <~ getGuard this k ;;
  g <~ read_guard guard ;;
  mret (Guard.permissions g).

Definition getAllRoles (this : loc) (guardName : option string)
    : M (list Role.t) :=
  k <~ resolve_guard this guardName ;;
  guard <~ getGuard this k ;;
  g <~ read_guard guard ;;
  mret (Guard.roles g).

Definition registerPermissionCheck (this : loc) (name : string)
    (check : PermissionCheck) : M unit :=
  f <~ read_manager this ;;
  m <~ read_permission_checks (customPermissionChecks f) ;;
  write (customPermissionChecks f) (PermissionCheckMapObj (<[name := check]> m)).

Definition registerRoleCheck (this : loc) (name : string)
    (check : RoleCheck) : M unit :=
  f <~ read_manager this ;;
  m <~ read_role_checks (customRoleChecks f) ;;
  write (customRoleChecks f) (RoleCheckMapObj (<[name := check]> m)).

Definition checkPermission (this : loc) (user : PermissionUser)
    (permission : PermissionArg) (guardName : option string) : M bool :=
  guard <~ resolve_guard this guardName ;;
  f <~ read_manager this ;;
  m <~ read_permission_checks (customPermissionChecks f) ;;
  match m !! guard with
  | Some customCheck =>
      let n := HasPermissionsTrait.permissionName permission in
      _ <~ log (CustomPermissionCheckCall guard user n guard) ;;
      mret (customCheck user n guard)
  | None =>
      _ <~ log (HasPermissionCall user permission guard) ;;
      mret (user_hasPermission user permission guard)
  end.

Definition checkRole (this : loc) (user : PermissionUser)
    (role : RoleArg) (guardName : option string) : M bool :=
  guard <~ resolve_guard this guardName ;;
  f <~ read_manager this ;;
  m <~ read_role_checks (customRoleChecks f) ;;
  match m !! guard with
  | Some customCheck =>
      let n := HasRolesTrait.roleName role in
      _ <~ log (CustomRoleCheckCall guard user n guard) ;;
      mret (customCheck user n guard)
  | None =>
      _ <~ log (HasRoleCall user role guard) ;;
      mret (user_hasRole user role guard)
  end.

Definition forUser (this : loc) (user : PermissionUser) : M PermissionUser :=
  mret user.

Definition forGuard (this : loc) (guardName : string) : M loc :=
  c <~ this_config this ;;
  manager <~ new (Config.as_argument c) ;;
  f <~ read_manager this ;;
  m <~ read_guard_map (guards f) ;;
  copy <~ alloc (GuardMapObj m) ;;
  mf <~ read_manager manager ;;
  _ <~ write manager (ManagerObj (set_guards mf copy)) ;;
  c' <~ read_config (config mf) ;;
  _ <~ write (config mf) (ConfigObj (Config.set_defaultGuard c' guardName)) ;;
  mret manager.

End PermissionManager.

(** ** Well-formed states *)

(** Every reference handed out so far is below [next]. *)
Definition heap_ok (h : Heap) : Prop :=
  forall l, next h <= l -> objs h !! l = None.

(** [this] refers to a manager whose fields hold a guards map [gm], a
    configuration [c] and the tables [pc] and [rc] of custom checks. *)
Record manager_at (st : State) (this : loc) (f : ManagerFields)
    (gm : gmap string loc) (c : Config.t)
    (pc : gmap string PermissionCheck) (rc : gmap string RoleCheck) : Prop :=
  mk_manager_at {
  at_this : objs (heap st) !! this = Some (ManagerObj f);
  at_guards : objs (heap st) !! guards f = Some (GuardMapObj gm);
  at_config : objs (heap st) !! config f = Some (ConfigObj c);
  at_permission_checks :
    objs (heap st) !! customPermissionChecks f = Some (PermissionCheckMapObj pc);
  at_role_checks :
    objs (heap st) !! customRoleChecks f = Some (RoleCheckMapObj rc);
  at_heap_ok : heap_ok (heap st)
}.

(** The state once [c] has been logged. *)
Definition logged (st : State) (c : Call) : State :=
  mkState (heap st) (world st) (calls st ++ [c]).

(** ** The add / remove / sync operations of the core *)

Inductive Mutation :=
| Role_addPermission (r : Role.t) (p : PermissionOrData)
| Role_removePermission (r : Role.t) (p : PermissionOrData)
| Role_syncPermissions (r : Role.t) (ps : list PermissionOrData)
| Guard_addPermission (g : Guard.t) (p : PermissionOrData)
| Guard_removePermission (g : Guard.t) (p : PermissionOrData)
| Guard_addRole (g : Guard.t) (r : RoleOrData)
| Guard_removeRole (g : Guard.t) (r : RoleOrData)
| Subject_givePermissionTo (s : HasPermissionsTrait.t) (x : PermissionArg)
    (guardName : option string)
| Subject_revokePermissionTo (s : HasPermissionsTrait.t) (x : PermissionArg)
    (guardName : option string)
| Subject_syncPermissions (s : HasPermissionsTrait.t) (xs : list PermissionArg)
    (guardName : option string)
| Subject_assignRole (s : HasRolesTrait.t) (x : RoleArg)
    (guardName : option string)
| Subject_removeRole (s : HasRolesTrait.t) (x : RoleArg)
    (guardName : option string)
| Subject_syncRoles (s : HasRolesTrait.t) (xs : list RoleArg)
    (guardName : option string).

(** The object a mutation leaves behind. *)
Inductive Mutated :=
| MutatedRole (r : Role.t)
| MutatedGuard (g : Guard.t)
| MutatedSubject (s : HasPermissionsTrait.t)
| MutatedRoleHolder (s : HasRolesTrait.t).

Definition run_mutation (op : Mutation) : M Mutated :=
  match op with
  | Role_addPermission r p =>
      r' <~ lift_world (Role.addPermission r p) ;; mret (MutatedRole r')
  | Role_removePermission r p =>
      r' <~ lift_world (Role.removePermission r p) ;; mret (MutatedRole r')
  | Role_syncPermissions r ps =>
      r' <~ lift_world (Role.syncPermissions r ps) ;; mret (MutatedRole r')
  | Guard_addPermission g p =>
      g' <~ lift_world (Guard.addPermission g p) ;; mret (MutatedGuard g')
  | Guard_removePermission g p =>
      g' <~ lift_world (Guard.removePermission g p) ;; mret (MutatedGuard g')
  | Guard_addRole g r =>
      g' <~ lift_world (Guard.addRole g r) ;; mret (MutatedGuard g')
  | Guard_removeRole g r =>
      g' <~ lift_world (Guard.removeRole g r) ;; mret (MutatedGuard g')
  | Subject_givePermissionTo s x guardName =>
      s' <~ lift_world (HasPermissionsTrait.givePermissionTo s x guardName) ;;
      mret (MutatedSubject s')
  | Subject_revokePermissionTo s x guardName =>
      mret (MutatedSubject (HasPermissionsTrait.revokePermissionTo s x guardName))
  | Subject_syncPermissions s xs guardName =>
      s' <~ lift_world (HasPermissionsTrait.syncPermissions s xs guardName) ;;
      mret (MutatedSubject s')
  | Subject_assignRole s x guardName =>
      s' <~ lift_world (HasRolesTrait.assignRole s x guardName) ;;
      mret (MutatedRoleHolder s')
  | Subject_removeRole s x guardName =>
      mret (MutatedRoleHolder (HasRolesTrait.removeRole s x guardName))
  | Subject_syncRoles s xs guardName =>
      s' <~ lift_world (HasRolesTrait.syncRoles s xs guardName) ;;
      mret (MutatedRoleHolder s')
  end.

(** ** Reading a list of permissions by name *)

(** The last permission of [l] that carries the name [n]. *)
Definition last_named (n : string) (l : list PermissionOrData)
    : option PermissionOrData :=
  find (fun q => String.eqb (perm_name q) n) (rev l).

(** The entries of the map built by [getAllPermissions] over [l]. *)
Definition unique_by_name (l : list PermissionOrData)
    (m : JSMap.t PermissionOrData) : JSMap.t PermissionOrData :=
  fold_left (fun m permission => JSMap.set (perm_name permission) permission m)
    l m.

(** The map built so far is keyed by the name of each of its values and
    holds no key twice. *)
Definition keyed (m : JSMap.t PermissionOrData) : Prop :=
  List.NoDup (JSMap.keys m) /\ forall k v, In (k, v) m -> perm_name v = k.

(** ** Shorthands for the statements about [givePermissionTo] *)

(** The guard name carried by the permission that [givePermissionTo]
    builds from its argument when called for the guard [k]. *)
Definition built_guard (x : PermissionArg) (k : string) : string :=
  match x with
  | ByName _ => JS.or_string (Some k) "web"
  | ByEntity e => JS.or_string (IPermission.guardName e) "web"
  end.

(** Two calls of [givePermissionTo] in a row. *)
Definition give_twice (s : HasPermissionsTrait.t) (x : PermissionArg)
    (g : option string) : W HasPermissionsTrait.t :=
  (s1 <- HasPermissionsTrait.givePermissionTo s x g ;;
   HasPermissionsTrait.givePermissionTo s1 x g)%world.

(** [p] was built by [givePermissionTo] from one of [xs], for guard [k]. *)
Definition built_from (xs : list PermissionArg) (k : string)
    (p : Permission.t) : Prop :=
  exists x w, In x xs /\ p = fst (HasPermissionsTrait.make_permission x k w).

(** ** Concrete data used by the examples *)

Module Examples.

(** A world whose first random number is zero and whose later ones are
    [0.k3j2...], with a clock that ticks once per call. *)
Definition zero_first (n : nat) : JS.Number01 :=
  match n with
  | O => ""
  | S _ => "k3j2x9q0abc"
  end.

Definition w0 : World := mkWorld zero_first 0 (fun n => Z.of_nat (1000 + n)) 0.

(** A world whose random numbers are all [0.k3j2...]. *)
Definition w1 : World :=
  mkWorld (fun _ => "k3j2x9q0abc") 0 (fun n => Z.of_nat (1000 + n)) 0.

Definition st0 : State := mkState empty_heap w1 [].

Definition named (n : string) : PartialPermission.t :=
  PartialPermission.mk None (Some n) None None None None.

(** [new Permission({ name: 'edit' })] *)
Definition edit : Permission.t := fst (Permission.new (named "edit") w1).

(** The plain object [{ id: 'p1', name: 'edit', guardName: 'api' }]. *)
Definition edit_api : IPermission.t :=
  IPermission.mk "p1" "edit" (Some "api") None None None.

Definition A : Permission.t :=
  Permission.mk "a" "A" "web" None (Some 1%Z) (Some 1%Z).

Definition B : Permission.t :=
  Permission.mk "b" "B" "api" None (Some 2%Z) (Some 2%Z).

Definition nobody : HasPermissionsTrait.t := HasPermissionsTrait.mk [] [].

(** A subject holding [A] under "web" and [B] under "api". *)
Definition holder : HasPermissionsTrait.t := HasPermissionsTrait.mk [A; B] [].

(** A role of guard "api" that holds the "web" permission [A]. *)
Definition editor : IRole.t :=
  IRole.mk "r1" "editor" (Some "api") None (Some [Instance A]) None None.

Definition member : HasPermissionsTrait.t := HasPermissionsTrait.mk [] [editor].

(** A role that holds the "api" permission "edit" as a plain object. *)
Definition api_editor : IRole.t :=
  IRole.mk "r2" "api-editor" (Some "api") None (Some [Plain edit_api])
    None None.

(** A role holding, as a plain object, a "web" permission that is also
    called "A". *)
Definition shadow : IPermission.t :=
  IPermission.mk "z" "A" (Some "web") None None None.

Definition shadowing : IRole.t :=
  IRole.mk "r3" "shadowing" None None (Some [Plain shadow]) None None.

(** A subject holding [A] and [B] directly and "edit" through a role. *)
Definition holder_with_role : HasPermissionsTrait.t :=
  HasPermissionsTrait.mk [A; B] [api_editor].

(** A user whose own methods always answer no. *)
Definition denied : PermissionUser :=
  mkUser "1" (fun _ _ => false) (fun _ _ => false).

Definition always : PermissionCheck := fun _ _ _ => true.

End Examples.

Module ManagerExamples.

(** The state after [new PermissionManager()]; the manager is object 4. *)
Definition st1 : State :=
  snd (PermissionManager.new PermissionManagerConfig.empty Examples.st0).

Definition manager : loc := 4.

Definition fields : ManagerFields := mkManager 0 3 1 2.

(** The state after [registerPermissionCheck("", always)]. *)
Definition st2 : State :=
  snd (PermissionManager.registerPermissionCheck manager "" Examples.always st1).

End ManagerExamples.

(** * Further parts of the library *)

(** ** guards/Guard.ts: serialization *)

Module IGuard.
Record t := mk {
  name : string;
  permissions : list IPermission.t;
  roles : list IRole.t
}.
End IGuard.

Definition Guard_toJSON (g : Guard.t) : IGuard.t :=
  IGuard.mk (Guard.name g)
    (map Permission.toJSON (Guard.permissions g))
    (map Role.toJSON (Guard.roles g)).

(** [new Guard(data.name)], then one [new Permission(p)] per permission
    and one [new Role(r)] per role, in this order. *)
Definition Guard_fromJSON (data : IGuard.t) : W Guard.t :=
  (ps <- wmap (fun p => Permission.new (PartialPermission.of_interface p))
          (IGuard.permissions data) ;;
   rs <- wmap (fun r => Role.new (PartialRole.of_interface r))
          (IGuard.roles data) ;;
   wret (Guard.mk (IGuard.name data) ps rs))%world.

(** ** Shorthands for the statements about entities *)

(** What [equals] compares. *)
Definition Permission_key (p : Permission.t) : string * string * string :=
  (Permission.id p, Permission.name p, Permission.guardName p).

Definition Role_key (r : Role.t) : string * string * string :=
  (Role.id r, Role.name r, Role.guardName r).

(** A permission as every constructor call leaves it, with an id. *)
Definition Permission_settled (p : Permission.t) : Prop :=
  Permission.normal p /\ Permission.id p <> "".

(** A role as every constructor call leaves it, with an id, holding
    settled permissions. *)
Definition Role_settled (r : Role.t) : Prop :=
  Role.guardName r <> "" /\ Role.description r <> Some ""
  /\ Role.createdAt r <> None /\ Role.updatedAt r <> None
  /\ Role.id r <> ""
  /\ Forall Permission_settled (Role.permissions r).

(** An argument of [addPermission] whose identity does not depend on
    the random number generator: an instance, or a plain object with a
    non-empty id. *)
Definition has_identity (x : PermissionOrData) : Prop :=
  match x with
  | Instance _ => True
  | Plain d => IPermission.id d <> ""
  end.

Definition role_has_identity (x : RoleOrData) : Prop :=
  match x with
  | RoleInstance _ => True
  | RolePlain d => IRole.id d <> ""
  end.

Module EntityExamples.

Definition empty_role : Role.t :=
  Role.mk "r0" "empty" "web" None [] (Some 0%Z) (Some 0%Z).

Definition web_guard : Guard.t :=
  Guard.mk "web" [Examples.A] [empty_role].

End EntityExamples.

(** ** Shorthands for the statements about [assignRole] *)

(** The guard name carried by the role that [assignRole] builds from
    its argument when called for the guard [k]. *)
Definition role_built_guard (x : RoleArg) (k : string) : string :=
  match x with
  | RoleByName _ => JS.or_string (Some k) "web"
  | RoleByEntity e => JS.or_string (IRole.guardName e) "web"
  end.

(** [r] was built by [assignRole] from one of [xs], for guard [k]. *)
Definition role_built_from (xs : list RoleArg) (k : string) (r : Role.t)
    : Prop :=
  exists x w, In x xs /\ r = fst (HasRolesTrait.make_role x k w).

(** ** States of the heap *)

(** The state in which the world has moved on to [w]. *)
Definition with_world (st : State) (w : World) : State :=
  mkState (heap st) w (calls st).

(** The state in which the object at [l] has been replaced by [o]. *)
Definition with_object (st : State) (l : nat) (o : Obj) : State :=
  mkState (mkHeap (<[l := o]> (objs (heap st))) (next (heap st)))
    (world st) (calls st).

(** [new Permission({ name, guardName })] as [createPermission] calls it. *)
Definition created_permission (n k : string) : PartialPermission.t :=
  PartialPermission.mk None (Some n) (Some k) None None None.

(** [new Role({ name, guardName })] as [createRole] calls it. *)
Definition created_role (n k : string) : PartialRole.t :=
  PartialRole.mk None (Some n) (Some k) None None None None.

(** ** container/Container.ts *)

Module Container.

Section Model.

(** A stored or resolved thing is a function, on which
    [typeof x === 'function'] holds, or any other value.  [V] are the
    other values, [F] the function objects, [P] the service providers. *)
Variables V F P : Type.

Inductive Concrete :=
| Value (v : V)
| Function (fn : F).

Record t := mk {
  services : gmap string Concrete;
  singletons : gmap string Concrete;
  providers : list P
}.

(** The outcome of a call that may throw; either way the container may
    have been changed by the code that ran. *)
Inductive Result :=
| Returned (instance : Concrete) (c : t)
| Threw (message : string) (c : t).

(** What calling a stored function does: it may read and change the
    container, and returns or throws. *)
Variable call : F -> t -> Result.

(** What [provider.register(container)] does to the container. *)
Variable provider_register : P -> t -> t.

Definition empty : t := mk ∅ ∅ [].

Definition bind (abstract : string) (concrete : Concrete) (c : t) : t :=
  mk (<[abstract := concrete]> (services c)) (singletons c) (providers c).

Definition singleton (abstract : string) (concrete : Concrete) (c : t) : t :=
  mk (services c) (<[abstract := concrete]> (singletons c)) (providers c).

(** [Service "${abstract}" not found] *)
Definition not_found (abstract : string) : string :=
  "Service " +:+ PermissionException.dquote +:+ abstract
  +:+ PermissionException.dquote +:+ " not found".

Definition resolve (abstract : string) (c : t) : Result :=
  match singletons c !! abstract with
  | Some concrete =>
      match concrete with
      | Function fn =>
          match call fn c with
          | Returned instance c' =>
              Returned instance (singleton abstract instance c')
          | Threw m c' => Threw m c'
          end
      | Value v => Returned concrete c
      end
  | None =>
      match services c !! abstract with
      | Some concrete =>
          match concrete with
          | Function fn => call fn c
          | Value v => Returned concrete c
          end
      | None => Threw (not_found abstract) c
      end
  end.

Definition has (abstract : string) (c : t) : bool :=
  bool_decide (is_Some (services c !! abstract))
  || bool_decide (is_Some (singletons c !! abstract)).

Definition register (provider : P) (c : t) : t :=
  provider_register provider
    (mk (services c) (singletons c) (providers c ++ [provider])).

Definition clear (c : t) : t := mk ∅ ∅ [].

End Model.

Arguments Value {V F} v.
Arguments Function {V F} fn.
Arguments mk {V F P} services singletons providers.
Arguments services {V F P} _.
Arguments singletons {V F P} _.
Arguments providers {V F P} _.
Arguments Returned {V F P} instance c.
Arguments Threw {V F P} message c.
Arguments empty {V F P}.
Arguments bind {V F P} abstract concrete c.
Arguments singleton {V F P} abstract concrete c.
Arguments resolve {V F P} call abstract c.
Arguments has {V F P} abstract c.
Arguments register {V F P} provider_register provider c.
Arguments clear {V F P} c.

End Container.

Module ContainerExamples.

(** Values are numbers; the function object [n] returns the value [n]
    and leaves the container alone. *)
Definition constant (n : nat) (c : Container.t nat nat unit)
    : Container.Result nat nat unit :=
  Container.Returned (Container.Value n) c.

(** A container with the factory [7] registered as singleton "config". *)
Definition one_singleton : Container.t nat nat unit :=
  Container.singleton "config" (Container.Function 7) Container.empty.

End ContainerExamples.

From Stdlib Require Floats.

(** ** providers/PermissionServiceProvider.ts: the in-memory services

    The methods of these classes are [async] and contain no [await]:
    their body runs to its end when they are called, and the promise
    they return is settled with the result.  They are modelled by what
    the call does to the map and by the value the promise carries. *)

(** [m.delete(k)] *)
Definition JSMap_delete {V} (k : string) (m : JSMap.t V) : JSMap.t V :=
  List.filter (fun kv => negb (String.eqb (fst kv) k)) m.

(** [`${x}`] for [x : string | undefined]. *)
Definition JS_template (x : option string) : string :=
  match x with
  | Some s => s
  | None => "undefined"
  end.

(** Whether the character [:] occurs in a string. *)
Fixpoint has_colon (s : string) : bool :=
  match s with
  | EmptyString => false
  | String c s' => String.eqb (String c EmptyString) ":" || has_colon s'
  end.

(** [InMemoryPermissionRepository] and [InMemoryRoleRepository] are the
    same code over permissions and over roles: [E] is the stored
    entity, read through its [guardName] and [name]. *)
Module InMemoryRepository.

Section Entity.

Variable E : Type.
Variable guardName_of : E -> option string.
Variable name_of : E -> string.

Definition t : Type := JSMap.t E.

Definition empty : t := [].

(** [`${guardName}:${name}`] *)
Definition key (guardName name : string) : string :=
  guardName +:+ ":" +:+ name.

Definition save (e : E) (m : t) : t :=
  let key := key (JS_template (guardName_of e)) (name_of e) in
  JSMap.set key e m.

(** [null] is [None]; a stored entity is an object, hence truthy. *)
Definition find (name : string) (guardName : option string) (m : t)
    : option E :=
  let guardName := JS.default_param guardName "web" in
  let key := key guardName name in
  JSMap.get key m.

Definition findAll (guardName : option string) (m : t) : list E :=
  let guardName := JS.default_param guardName "web" in
  List.filter (fun p => opt_is (guardName_of p) guardName) (JSMap.values m).

Definition delete (name : string) (guardName : option string) (m : t) : t :=
  let guardName := JS.default_param guardName "web" in
  let key := key guardName name in
  JSMap_delete key m.

(** The calls that change a repository, and a repository after a
    sequence of them, starting from a new one. *)
Inductive Op :=
| Save (e : E)
| Delete (name : string) (guardName : option string).

Definition apply (m : t) (op : Op) : t :=
  match op with
  | Save e => save e m
  | Delete name guardName => delete name guardName m
  end.

Definition run (ops : list Op) : t := fold_left apply ops empty.

(** Every entry is stored under the key made of its own guard and name,
    and no key occurs twice. *)
Definition stored_under_own_key (m : t) : Prop :=
  List.NoDup (JSMap.keys m)
  /\ forall k e, In (k, e) m ->
                 k = key (JS_template (guardName_of e)) (name_of e).

End Entity.

Arguments Save {E} e.
Arguments Delete {E} name guardName.
Arguments save {E} guardName_of name_of e m.
Arguments find {E} name guardName m.
Arguments findAll {E} guardName_of guardName m.
Arguments delete {E} name guardName m.
Arguments apply {E} guardName_of name_of m op.
Arguments run {E} guardName_of name_of ops.
Arguments stored_under_own_key {E} guardName_of name_of m.

End InMemoryRepository.

Module InMemoryPermissionRepository.

Definition t : Type := InMemoryRepository.t IPermission.t.

Definition savePermission (permission : IPermission.t) (m : t) : t :=
  InMemoryRepository.save IPermission.guardName IPermission.name permission m.

Definition findPermission (name : string) (guardName : option string) (m : t)
    : option IPermission.t :=
  InMemoryRepository.find name guardName m.

Definition findAllPermissions (guardName : option string) (m : t)
    : list IPermission.t :=
  InMemoryRepository.findAll IPermission.guardName guardName m.

Definition deletePermission (name : string) (guardName : option string)
    (m : t) : t :=
  InMemoryRepository.delete name guardName m.

End InMemoryPermissionRepository.

Module InMemoryRoleRepository.

Definition t : Type := InMemoryRepository.t IRole.t.

Definition saveRole (role : IRole.t) (m : t) : t :=
  InMemoryRepository.save IRole.guardName IRole.name role m.

Definition findRole (name : string) (guardName : option string) (m : t)
    : option IRole.t :=
  InMemoryRepository.find name guardName m.

Definition findAllRoles (guardName : option string) (m : t) : list IRole.t :=
  InMemoryRepository.findAll IRole.guardName guardName m.

Definition deleteRole (name : string) (guardName : option string) (m : t)
    : t :=
  InMemoryRepository.delete name guardName m.

End InMemoryRoleRepository.

(** [InMemoryCacheService].  A JavaScript number is a binary64
    floating-point number; the sum, the product and the comparison of
    the source are those of binary64 arithmetic. *)
Module InMemoryCacheService.

Import PrimFloat.

(** The number that a whole number of milliseconds is read as: the
    integer itself when binary64 holds it, which is the case for every
    time of a [Date], and the nearest binary64 number otherwise. *)
Definition Number_of_Z (z : Z) : float :=
  match z with
  | Z0 => zero
  | Zpos p =>
      FloatOps.SF2Prim
        (SpecFloat.binary_round FloatOps.prec FloatOps.emax false p 0)
  | Zneg p =>
      FloatOps.SF2Prim
        (SpecFloat.binary_round FloatOps.prec FloatOps.emax true p 0)
  end.

(** [Date.now()] reads the clock that [new Date()] reads. *)
Definition Date_now : W float :=
  now <- new_Date ;; wret (Number_of_Z now).

Section Values.

Variable V : Type.

Record Item := mkItem {
  value : V;
  ttl : float
}.

Definition t : Type := gmap string Item.

(** The value carried by the promise ([None] is [null]) and the cache
    after the call. *)
Definition get (key : string) (c : t) : W (option V * t) :=
  match c !! key with
  | None => wret (None, c)
  | Some item =>
      now <- Date_now ;;
      if (ttl item <? now)%float
      then wret (None, base.delete key c)
      else wret (Some (value item), c)
  end.

Definition set (key : string) (value : V) (ttl : option float) (c : t)
    : W t :=
  let ttl := match ttl with Some x => x | None => 3600%float end in
  now <- Date_now ;;
  wret (<[key := mkItem value (now + ttl * 1000)%float]> c).

Definition delete (key : string) (c : t) : t := base.delete key c.

Definition clear (c : t) : t := ∅.

End Values.

Arguments mkItem {V} value ttl.
Arguments value {V} _.
Arguments ttl {V} _.
Arguments get {V} key c.
Arguments set {V} key value ttl c.
Arguments delete {V} key c.
Arguments clear {V} c.

End InMemoryCacheService.

Module CacheExamples.

(** A clock that shows 995 at the first reading and 2^53 + 4
    afterwards. *)
Definition w : World :=
  mkWorld (fun _ => "0") 0
    (fun n => match n with 0 => 995%Z | _ => 9007199254740996%Z end) 0.

(** A lifetime of 9007199254740 seconds: the expiry time
    995 + 9007199254740000 is 2^53 + 3, which binary64 does not hold. *)
Definition long_life : PrimFloat.float :=
  InMemoryCacheService.Number_of_Z 9007199254740.

End CacheExamples.

(** * Properties *)

(** ** Truthiness and the [||] idiom *)

Section Truthiness.

Lemma truthy_true (s : string) : JS.truthy s = true <-> s <> "".
Proof.
  unfold JS.truthy. rewrite negb_true_iff. apply String.eqb_neq.
Qed.

Lemma truthy_false (s : string) : JS.truthy s = false <-> s = "".
Proof.
  unfold JS.truthy. rewrite negb_false_iff. apply String.eqb_eq.
Qed.

Lemma or_string_truthy (s d : string) : s <> "" -> JS.or_string (Some s) d = s.
Proof.
  intros H. apply truthy_true in H. unfold JS.or_string. now rewrite H.
Qed.

Lemma or_string_same (s : string) : JS.or_string (Some s) "" = s.
Proof.
  unfold JS.or_string. destruct (JS.truthy s) eqn:E; [reflexivity|].
  now apply truthy_false in E.
Qed.

Lemma or_string_nonempty (x : option string) (d : string) :
  d <> "" -> JS.or_string x d <> "".
Proof.
  intros Hd. destruct x as [s|]; simpl; [|exact Hd].
  destruct (JS.truthy s) eqn:E; [now apply truthy_true | exact Hd].
Qed.

Lemma or_undefined_not_empty (x : option string) : JS.or_undefined x <> Some "".
Proof.
  destruct x as [s|]; simpl; [|discriminate].
  destruct (JS.truthy s) eqn:E; [|discriminate].
  apply truthy_true in E. congruence.
Qed.

Lemma or_undefined_fixed (x : option string) :
  x <> Some "" -> JS.or_undefined x = x.
Proof.
  destruct x as [s|]; simpl; [|reflexivity].
  intros H. destruct (JS.truthy s) eqn:E; [reflexivity|].
  apply truthy_false in E. congruence.
Qed.

End Truthiness.

(** ** Round trip through [toJSON] / [fromJSON] *)

Section RoundTrip.

Arguments JS.or_string : simpl never.
Arguments JS.or_undefined : simpl never.

Lemma wbind_run {A B} (m : W A) (k : A -> W B) (w : World) :
  wbind m k w = k (fst (m w)) (snd (m w)).
Proof. unfold wbind. now destruct (m w). Qed.

Lemma id_or_generate_given (s : string) (w : World) :
  s <> "" -> Permission.id_or_generate (Some s) w = (s, w).
Proof.
  intros H. apply truthy_true in H. unfold Permission.id_or_generate.
  now rewrite H.
Qed.

Lemma Permission_new_normal (data : PartialPermission.t) (w : World) :
  Permission.normal (fst (Permission.new data w)).
Proof.
  unfold Permission.new. rewrite !wbind_run. simpl.
  repeat split; simpl; try discriminate.
  - now apply or_string_nonempty.
  - apply or_undefined_not_empty.
Qed.

Lemma Permission_constructed_normal (p : Permission.t) :
  Permission.constructed p -> Permission.normal p.
Proof. intros (data & w & ->). apply Permission_new_normal. Qed.

(** A normal permission with a non-empty id is a fixed point of the
    round trip, and the round trip consults neither the random number
    generator nor the clock. *)
Lemma Permission_roundtrip (p : Permission.t) (w : World) :
  Permission.normal p -> Permission.id p <> "" ->
  Permission.fromJSON (Permission.toJSON p) w = (p, w).
Proof.
  intros (Hg & Hd & Hc & Hu) Hi.
  destruct p as [i n g d c u]; simpl in *.
  destruct c as [c|]; [|congruence]. destruct u as [u|]; [|congruence].
  unfold Permission.fromJSON, Permission.new, Permission.toJSON.
  rewrite wbind_run. simpl PartialPermission.id.
  rewrite id_or_generate_given by assumption. simpl.
  rewrite or_string_same, (or_string_truthy g) by assumption.
  rewrite (or_undefined_fixed d) by assumption.
  rewrite (or_undefined_fixed d) by assumption.
  reflexivity.
Qed.

Lemma Permission_equals_refl (p : Permission.t) : Permission.equals p p = true.
Proof. unfold Permission.equals. now rewrite !String.eqb_refl. Qed.

Lemma Role_equals_refl (r : Role.t) : Role.equals r r = true.
Proof. unfold Role.equals. now rewrite !String.eqb_refl. Qed.

Lemma wmap_roundtrip (ps : list Permission.t) (w : World) :
  Forall Permission.normal ps ->
  Forall (fun p => Permission.id p <> "") ps ->
  wmap Role.as_instance (map (fun p => Plain (Permission.toJSON p)) ps) w
  = (ps, w).
Proof.
  induction 1 as [|p ps Hp _ IH]; intros Hid; [reflexivity|].
  inversion Hid as [|? ? Hi Hid']; subst. simpl.
  rewrite wbind_run. fold (Permission.fromJSON (Permission.toJSON p)).
  rewrite Permission_roundtrip by assumption. simpl.
  rewrite wbind_run, IH by assumption. reflexivity.
Qed.

Lemma wmap_as_instance_normal (l : list PermissionOrData) (w : World) :
  (forall p, In (Instance p) l -> Permission.constructed p) ->
  Forall Permission.normal (fst (wmap Role.as_instance l w)).
Proof.
  revert w. induction l as [|x l IH]; intros w H; simpl; [constructor|].
  rewrite !wbind_run. simpl. constructor.
  - destruct x as [q|d]; simpl.
    + apply Permission_constructed_normal, H. now left.
    + apply Permission_new_normal.
  - apply IH. intros p Hp. apply H. now right.
Qed.

Lemma Role_new_fields (data : PartialRole.t) (w : World) :
  let r := fst (Role.new data w) in
  Role.guardName r <> "" /\ Role.description r <> Some ""
  /\ Role.createdAt r <> None /\ Role.updatedAt r <> None
  /\ (Role.instances_constructed data ->
      Forall Permission.normal (Role.permissions r)).
Proof.
  unfold Role.new. rewrite !wbind_run. simpl.
  repeat split; simpl; try discriminate.
  - now apply or_string_nonempty.
  - apply or_undefined_not_empty.
  - intros H. now apply wmap_as_instance_normal.
Qed.

Lemma Role_roundtrip (r : Role.t) (w : World) :
  Role.guardName r <> "" -> Role.description r <> Some "" ->
  Role.createdAt r <> None -> Role.updatedAt r <> None ->
  Forall Permission.normal (Role.permissions r) ->
  Role.id r <> "" ->
  Forall (fun p => Permission.id p <> "") (Role.permissions r) ->
  Role.fromJSON (Role.toJSON r) w = (r, w).
Proof.
  intros Hg Hd Hc Hu Hn Hi Hp.
  destruct r as [i n g d ps c u]; simpl in *.
  destruct c as [c|]; [|congruence]. destruct u as [u|]; [|congruence].
  unfold Role.fromJSON, Role.new, Role.toJSON.
  rewrite wbind_run. simpl PartialRole.id.
  rewrite id_or_generate_given by assumption.
  rewrite wbind_run. simpl PartialRole.permissions. simpl default.
  rewrite wmap_roundtrip by assumption. simpl.
  rewrite or_string_same, (or_string_truthy g) by assumption.
  rewrite (or_undefined_fixed d) by assumption.
  rewrite (or_undefined_fixed d) by assumption.
  reflexivity.
Qed.

(** C7 (amended): an entity built by its constructor and holding a
    non-empty id is reproduced exactly by [fromJSON (toJSON _)]: the
    result is [equals]-equal to the original and is the same record, so
    description, timestamps and, for a role, the nested permissions are
    preserved.  For a role the [Permission] instances handed to its
    constructor come from the [Permission] constructor and the nested
    ids are non-empty as well. *)
Theorem roundtrip_nonempty_id :
  (forall (data : PartialPermission.t) (w w' : World),
      let p := fst (Permission.new data w) in
      Permission.id p <> "" ->
      let q := fst (Permission.fromJSON (Permission.toJSON p) w') in
      Permission.equals q p = true /\ q = p)
  /\ (forall (data : PartialRole.t) (w w' : World),
      let r := fst (Role.new data w) in
      Role.instances_constructed data ->
      Role.id r <> "" ->
      Forall (fun p => Permission.id p <> "") (Role.permissions r) ->
      let q := fst (Role.fromJSON (Role.toJSON r) w') in
      Role.equals q r = true /\ q = r).
Proof.
  split.
  - intros data w w' p Hi q. subst q.
    rewrite Permission_roundtrip; [|apply Permission_new_normal|exact Hi].
    simpl. split; [apply Permission_equals_refl | reflexivity].
  - intros data w w' r Hc Hi Hp q. subst q.
    destruct (Role_new_fields data w) as (Hg & Hd & Hca & Hua & Hn).
    rewrite Role_roundtrip; try assumption; [|now apply Hn].
    simpl. split; [apply Role_equals_refl | reflexivity].
Qed.

End RoundTrip.

(** C7, checked on [new Permission({ name: 'edit' })]. *)
Lemma roundtrip_nonempty_id_witness :
  Permission.id Examples.edit = "k3j2x9q0a"
  /\ fst (Permission.fromJSON (Permission.toJSON Examples.edit) Examples.w0)
     = Examples.edit.
Proof.
  split; [reflexivity|].
  apply (proj1 roundtrip_nonempty_id (Examples.named "edit") Examples.w1
           Examples.w0).
  vm_compute. discriminate.
Defined.

(** C7 as stated fails when [Math.random()] returns zero: ["0"] has no
    character at index 2, the generated id is empty, and [fromJSON] then
    generates a fresh id instead of keeping the empty one. *)
Lemma roundtrip_fails_on_empty_id :
  let p := fst (Permission.new (Examples.named "edit") Examples.w0) in
  let w := snd (Permission.new (Examples.named "edit") Examples.w0) in
  let q := fst (Permission.fromJSON (Permission.toJSON p) w) in
  Permission.id p = "" /\ Permission.id q = "k3j2x9q0a"
  /\ Permission.equals q p = false.
Proof. vm_compute. repeat split. Qed.

(** ** [hasPermission] *)

Section HasPermission.

Import HasPermissionsTrait.

Lemma direct_match_spec (n k : string) (p : Permission.t) :
  direct_match n k p = true <->
  Permission.name p = n /\ Permission.guardName p = k.
Proof.
  unfold direct_match. rewrite andb_true_iff, !String.eqb_eq. reflexivity.
Qed.

Lemma opt_is_spec (x : option string) (k : string) :
  opt_is x k = true <-> x = Some k.
Proof.
  destruct x as [y|]; simpl.
  - rewrite String.eqb_eq. split; congruence.
  - split; discriminate.
Qed.

Lemma role_perm_match_spec (n k : string) (p : PermissionOrData) :
  role_perm_match n k p = true <->
  perm_name p = n /\ perm_guardName p = Some k.
Proof.
  unfold role_perm_match.
  rewrite andb_true_iff, String.eqb_eq, opt_is_spec. reflexivity.
Qed.

Lemma role_grants_spec (n k : string) (role : IRole.t) :
  role_grants n k role = true <->
  exists ps p, IRole.permissions role = Some ps /\ In p ps
               /\ perm_name p = n /\ perm_guardName p = Some k.
Proof.
  unfold role_grants. destruct (IRole.permissions role) as [ps|].
  - rewrite existsb_exists. split.
    + intros (p & Hin & Hm). apply role_perm_match_spec in Hm.
      exists ps, p. tauto.
    + intros (ps' & p & E & Hin & Hm). injection E as <-.
      exists p. split; [exact Hin|]. now apply role_perm_match_spec.
  - split; [discriminate|]. intros (ps & p & E & _). discriminate.
Qed.

Lemma roles_grant_spec (n k : string) (rs : list IRole.t) :
  existsb (role_grants n k) rs = true <->
  exists role ps p, In role rs /\ IRole.permissions role = Some ps
                    /\ In p ps /\ perm_name p = n /\ perm_guardName p = Some k.
Proof.
  rewrite existsb_exists. split.
  - intros (role & Hin & Hg). apply role_grants_spec in Hg.
    destruct Hg as (ps & p & H). exists role, ps, p. tauto.
  - intros (role & ps & p & Hin & H). exists role. split; [exact Hin|].
    apply role_grants_spec. exists ps, p. exact H.
Qed.

Lemma hasPermission_orb (s : t) (x : PermissionArg) (g : option string) :
  hasPermission s x g
  = existsb (direct_match (permissionName x) (JS.default_param g "web"))
      (permissions s)
    || existsb (role_grants (permissionName x) (JS.default_param g "web"))
         (roles s).
Proof.
  unfold hasPermission.
  now destruct (existsb (direct_match _ _) (permissions s)).
Qed.

(** Only the [permissions] property of a role is read. *)
Lemma roles_grant_only_permissions (n k : string) (rs rs' : list IRole.t) :
  map IRole.permissions rs' = map IRole.permissions rs ->
  existsb (role_grants n k) rs' = existsb (role_grants n k) rs.
Proof.
  revert rs. induction rs' as [|r' rs' IH]; intros [|r rs] E;
    try discriminate; [reflexivity|].
  simpl in E. injection E as E1 E2. simpl.
  rewrite (IH rs E2). unfold role_grants. now rewrite E1.
Qed.

(** C1: [hasPermission] holds exactly when a direct permission, or a
    permission of some assigned role, carries the asked name and the
    asked guard.  The asked guard is the one given, ["web"] when it is
    omitted; the asked name is the string given, or the [name] of the
    entity given.  Of an entity only the name is read, and of a role
    only its permission list: the role's own guard name plays no
    part. *)
Theorem hasPermission_iff (s : t) (x : PermissionArg) (g : option string) :
  let k := match g with Some given => given | None => "web" end in
  let n := match x with ByName m => m | ByEntity e => IPermission.name e end in
  (hasPermission s x g = true <->
     (exists p, In p (permissions s)
                /\ Permission.name p = n /\ Permission.guardName p = k)
     \/ (exists role ps p,
            In role (roles s) /\ IRole.permissions role = Some ps
            /\ In p ps
            /\ match p with
               | Instance q =>
                   Permission.name q = n /\ Permission.guardName q = k
               | Plain d =>
                   IPermission.name d = n /\ IPermission.guardName d = Some k
               end))
  /\ hasPermission s x None = hasPermission s x (Some "web")
  /\ (forall e : IPermission.t,
        hasPermission s (ByEntity e) g
        = hasPermission s (ByName (IPermission.name e)) g)
  /\ (forall rs' : list IRole.t,
        map IRole.permissions rs' = map IRole.permissions (roles s) ->
        hasPermission (with_roles s rs') x g = hasPermission s x g).
Proof.
  intros k n. split; [|split; [reflexivity|split]].
  - rewrite hasPermission_orb, orb_true_iff, roles_grant_spec.
    rewrite existsb_exists.
    change (JS.default_param g "web") with k.
    change (permissionName x) with n. split.
    + intros [(p & Hin & Hm)|(role & ps & p & Hr & E & Hin & Hn & Hg)].
      * left. apply direct_match_spec in Hm. exists p. tauto.
      * right. exists role, ps, p. repeat (split; [assumption|]).
        destruct p as [q|d]; simpl in Hn, Hg; [|tauto].
        split; [exact Hn|congruence].
    + intros [(p & Hin & Hm)|(role & ps & p & Hr & E & Hin & Hp)].
      * left. exists p. split; [exact Hin|]. now apply direct_match_spec.
      * right. exists role, ps, p. repeat (split; [assumption|]).
        destruct p as [q|d]; simpl; [|exact Hp].
        destruct Hp as [Hn Hg]. split; [exact Hn|now rewrite Hg].
  - intros e. reflexivity.
  - intros rs' E. rewrite !hasPermission_orb. simpl.
    now rewrite (roles_grant_only_permissions _ _ (roles s) rs' E).
Qed.

(** A permission held through a role counts for its own guard only,
    whatever the guard of the role. *)
Example inherited_for_its_guard_only :
  hasPermission Examples.member (ByName "A") None = true
  /\ hasPermission Examples.member (ByName "A") (Some "api") = false.
Proof. split; reflexivity. Qed.

End HasPermission.

(** ** The insertion-ordered map *)

Section JSMapFacts.

Context {V : Type}.

Lemma find_app_first (f : V -> bool) (l1 l2 : list V) :
  find f (l1 ++ l2)
  = match find f l1 with
    | Some x => Some x
    | None => find f l2
    end.
Proof.
  induction l1 as [|x l1 IH]; simpl; [reflexivity|].
  now destruct (f x).
Qed.

Lemma JSMap_get_set_same (k : string) (v : V) (m : JSMap.t V) :
  JSMap.get k (JSMap.set k v m) = Some v.
Proof.
  induction m as [|[k' v'] m IH]; simpl.
  - now rewrite String.eqb_refl.
  - destruct (String.eqb k' k) eqn:E; simpl.
    + now rewrite String.eqb_refl.
    + now rewrite E.
Qed.

Lemma JSMap_get_set_other (k k' : string) (v : V) (m : JSMap.t V) :
  k <> k' -> JSMap.get k' (JSMap.set k v m) = JSMap.get k' m.
Proof.
  intros Hne. induction m as [|[k0 v0] m IH]; simpl.
  - apply String.eqb_neq in Hne. now rewrite Hne.
  - destruct (String.eqb k0 k) eqn:E; simpl.
    + apply String.eqb_eq in E. subst k0.
      apply String.eqb_neq in Hne. now rewrite Hne.
    + now rewrite IH.
Qed.

Lemma JSMap_keys_set (k : string) (v : V) (m : JSMap.t V) :
  forall k', In k' (JSMap.keys (JSMap.set k v m)) <->
             k' = k \/ In k' (JSMap.keys m).
Proof.
  intros k'. induction m as [|[k0 v0] m IH]; simpl.
  - intuition.
  - destruct (String.eqb k0 k) eqn:E; simpl.
    + apply String.eqb_eq in E. subst k0. intuition.
    + rewrite IH. intuition.
Qed.

Lemma JSMap_set_NoDup (k : string) (v : V) (m : JSMap.t V) :
  List.NoDup (JSMap.keys m) -> List.NoDup (JSMap.keys (JSMap.set k v m)).
Proof.
  induction m as [|[k0 v0] m IH]; simpl; intros H.
  - constructor; [intros []|constructor].
  - inversion H as [|? ? Hnot Hnd]; subst.
    destruct (String.eqb k0 k) eqn:E; simpl.
    + apply String.eqb_eq in E. subst k0. now constructor.
    + constructor; [|now apply IH].
      rewrite JSMap_keys_set. intros [->|Hin]; [|contradiction].
      now rewrite String.eqb_refl in E.
Qed.

Lemma JSMap_get_In (k : string) (v : V) (m : JSMap.t V) :
  List.NoDup (JSMap.keys m) -> (JSMap.get k m = Some v <-> In (k, v) m).
Proof.
  induction m as [|[k0 v0] m IH]; simpl; intros H.
  - split; [discriminate|intros []].
  - inversion H as [|? ? Hnot Hnd]; subst.
    destruct (String.eqb k0 k) eqn:E.
    + apply String.eqb_eq in E. subst k0. split.
      * intros [= ->]. now left.
      * intros [[= ->]|Hin]; [reflexivity|].
        exfalso. apply Hnot. change k with (fst (k, v)). now apply in_map.
    + rewrite IH by assumption. split; [now right|].
      intros [[= -> ->]|Hin]; [|exact Hin].
      now rewrite String.eqb_refl in E.
Qed.

End JSMapFacts.

(** ** [getAllPermissions] *)

Section GetAllPermissions.

Import HasPermissionsTrait.

Lemma keyed_set (p : PermissionOrData) (m : JSMap.t PermissionOrData) :
  keyed m -> keyed (JSMap.set (perm_name p) p m).
Proof.
  intros [Hnd Hk]. split; [now apply JSMap_set_NoDup|].
  intros k v Hin.
  apply JSMap_get_In in Hin; [|now apply JSMap_set_NoDup].
  destruct (String.eqb (perm_name p) k) eqn:E.
  - apply String.eqb_eq in E. subst k.
    rewrite JSMap_get_set_same in Hin. congruence.
  - apply String.eqb_neq in E. rewrite JSMap_get_set_other in Hin by exact E.
    apply Hk. now apply JSMap_get_In.
Qed.

Lemma unique_by_name_keyed (l : list PermissionOrData)
    (m : JSMap.t PermissionOrData) :
  keyed m -> keyed (unique_by_name l m).
Proof.
  revert m. induction l as [|p l IH]; intros m H; simpl; [exact H|].
  apply IH. now apply keyed_set.
Qed.

(** The last writer of a name wins. *)
Lemma unique_by_name_get (l : list PermissionOrData)
    (m : JSMap.t PermissionOrData) (n : string) :
  JSMap.get n (unique_by_name l m)
  = match last_named n l with
    | Some p => Some p
    | None => JSMap.get n m
    end.
Proof.
  revert m. induction l as [|p l IH]; intros m; [reflexivity|].
  simpl unique_by_name. rewrite IH. unfold last_named. simpl rev.
  rewrite find_app_first.
  destruct (find _ (rev l)) as [q|]; [reflexivity|]. simpl.
  destruct (String.eqb (perm_name p) n) eqn:E.
  - apply String.eqb_eq in E. subst n. apply JSMap_get_set_same.
  - apply String.eqb_neq in E. now apply JSMap_get_set_other.
Qed.

Lemma last_named_In (n : string) (l : list PermissionOrData)
    (p : PermissionOrData) :
  last_named n l = Some p -> In p l /\ perm_name p = n.
Proof.
  unfold last_named. intros H. apply find_some in H. destruct H as [Hin E].
  apply in_rev in Hin. apply String.eqb_eq in E. tauto.
Qed.

Lemma last_named_exists (l : list PermissionOrData) (q : PermissionOrData) :
  In q l -> exists p, last_named (perm_name q) l = Some p.
Proof.
  intros Hin. unfold last_named.
  destruct (find _ (rev l)) as [p|] eqn:E; [now exists p|].
  apply in_rev in Hin. apply (find_none _ _ E q) in Hin.
  now rewrite String.eqb_refl in Hin.
Qed.

Lemma last_named_app (n : string) (l1 l2 : list PermissionOrData) :
  last_named n (l1 ++ l2)
  = match last_named n l2 with
    | Some p => Some p
    | None => last_named n l1
    end.
Proof. unfold last_named. rewrite rev_app_distr. apply find_app_first. Qed.

Lemma values_unique_by_name (l : list PermissionOrData) (p : PermissionOrData) :
  In p (JSMap.values (unique_by_name l [])) <->
  last_named (perm_name p) l = Some p.
Proof.
  assert (Hk : keyed (unique_by_name l [])).
  { apply unique_by_name_keyed. split; [constructor|intros ? ? []]. }
  destruct Hk as [Hnd Hk]. unfold JSMap.values. rewrite in_map_iff. split.
  - intros ([k v] & <- & Hin). simpl.
    rewrite (Hk _ _ Hin). apply JSMap_get_In in Hin; [|exact Hnd].
    rewrite unique_by_name_get in Hin.
    now destruct (last_named k l).
  - intros H. exists (perm_name p, p). split; [reflexivity|].
    apply JSMap_get_In; [exact Hnd|].
    now rewrite unique_by_name_get, H.
Qed.

Lemma values_unique_by_name_NoDup (l : list PermissionOrData) :
  List.NoDup (map perm_name (JSMap.values (unique_by_name l []))).
Proof.
  assert (Hk : keyed (unique_by_name l [])).
  { apply unique_by_name_keyed. split; [constructor|intros ? ? []]. }
  destruct Hk as [Hnd Hk]. unfold JSMap.values. rewrite map_map.
  erewrite map_ext_in; [exact Hnd|].
  intros [k v] Hin. simpl. now apply Hk.
Qed.

Lemma role_permissions_for_spec (k : string) (rs : list IRole.t)
    (p : PermissionOrData) :
  In p (flat_map (role_permissions_for k) rs) <->
  exists role ps, In role rs /\ IRole.permissions role = Some ps
                  /\ In p ps /\ perm_guardName p = Some k.
Proof.
  rewrite in_flat_map. unfold role_permissions_for. split.
  - intros (role & Hin & Hp).
    destruct (IRole.permissions role) as [ps|] eqn:E; [|destruct Hp].
    apply filter_In in Hp. destruct Hp as [Hp Hg].
    apply opt_is_spec in Hg. exists role, ps. tauto.
  - intros (role & ps & Hin & E & Hp & Hg). exists role.
    split; [exact Hin|]. rewrite E. apply filter_In.
    split; [exact Hp|]. now apply opt_is_spec.
Qed.

Lemma last_named_one (n : string) (x : PermissionOrData) :
  last_named n [x] = if String.eqb (perm_name x) n then Some x else None.
Proof. unfold last_named. simpl. now destruct (String.eqb (perm_name x) n). Qed.

(** [last_named n l] is the occurrence of the name [n] in [l] after
    which the name does not occur again. *)
Lemma last_named_split (n : string) (l : list PermissionOrData)
    (p : PermissionOrData) :
  last_named n l = Some p <->
  perm_name p = n
  /\ exists before after,
       l = before ++ p :: after
       /\ forall q, In q after -> perm_name q <> n.
Proof.
  induction l as [|x l IH] using rev_ind.
  - split; [discriminate|].
    intros (_ & before & after & E & _). now destruct before.
  - rewrite last_named_app, last_named_one.
    destruct (String.eqb (perm_name x) n) eqn:Ex.
    + apply String.eqb_eq in Ex. split.
      * intros [= <-]. split; [exact Ex|].
        exists l, []. split; [reflexivity|intros q []].
      * intros (_ & before & after & E & Hafter).
        destruct after as [|y after _] using rev_ind.
        -- apply app_inj_tail in E. destruct E as [_ ->]. reflexivity.
        -- exfalso. apply (Hafter x); [|exact Ex].
           change (before ++ p :: after ++ [y])
             with (before ++ (p :: after) ++ [y]) in E.
           rewrite app_assoc in E. apply app_inj_tail in E.
           destruct E as [_ ->]. apply in_or_app. right. now left.
    + apply String.eqb_neq in Ex. rewrite IH. split.
      * intros (Hn & before & after & -> & Hafter). split; [exact Hn|].
        exists before, (after ++ [x]). split.
        -- now rewrite <- app_assoc.
        -- intros q Hq. apply in_app_or in Hq.
           destruct Hq as [Hq|[<-|[]]]; [now apply Hafter|exact Ex].
      * intros (Hn & before & after & E & Hafter). split; [exact Hn|].
        destruct after as [|y after _] using rev_ind.
        -- apply app_inj_tail in E. destruct E as [_ ->]. contradiction.
        -- change (before ++ p :: after ++ [y])
             with (before ++ (p :: after) ++ [y]) in E.
           rewrite app_assoc in E. apply app_inj_tail in E.
           destruct E as [-> ->]. exists before, after.
           split; [reflexivity|].
           intros q Hq. apply Hafter. apply in_or_app. now left.
Qed.

(** The permissions of the guard [k] read from the roles, written with
    the test on each kind of permission spelled out. *)
Lemma role_permissions_for_flat (k : string) (rs : list IRole.t) :
  flat_map (role_permissions_for k) rs
  = flat_map
      (fun role =>
         match IRole.permissions role with
         | Some ps =>
             List.filter
               (fun p =>
                  match p with
                  | Instance q => String.eqb (Permission.guardName q) k
                  | Plain d =>
                      match IPermission.guardName d with
                      | Some y => String.eqb y k
                      | None => false
                      end
                  end) ps
         | None => []
         end) rs.
Proof.
  induction rs as [|role rs IH]; [reflexivity|]. simpl. rewrite IH. f_equal.
  unfold role_permissions_for. destruct (IRole.permissions role) as [ps|];
    [|reflexivity].
  apply List.filter_ext. now intros [q|d].
Qed.

(** C3: [getAllPermissions] reads the direct permissions of the asked
    guard (["web"] when omitted), then, role after role, the
    permissions of that guard in each role, and returns, for every name
    that occurs in this sequence, exactly one permission: the last one
    of that name in the sequence.  Since the roles come after the
    direct permissions, a name that a role also carries is represented
    by a role's permission. *)
Theorem getAllPermissions_union (s : t) (g : option string) :
  let k := match g with Some given => given | None => "web" end in
  let name_of := fun p : PermissionOrData =>
    match p with
    | Instance q => Permission.name q
    | Plain d => IPermission.name d
    end in
  let of_guard := fun p : PermissionOrData =>
    match p with
    | Instance q => String.eqb (Permission.guardName q) k
    | Plain d =>
        match IPermission.guardName d with
        | Some y => String.eqb y k
        | None => false
        end
    end in
  let direct :=
    map Instance
      (List.filter (fun d => String.eqb (Permission.guardName d) k)
         (permissions s)) in
  let inherited :=
    flat_map
      (fun role =>
         match IRole.permissions role with
         | Some ps => List.filter of_guard ps
         | None => []
         end) (roles s) in
  let result := getAllPermissions s g in
  List.NoDup (map name_of result)
  /\ (forall p, In p result <->
                exists before after,
                  direct ++ inherited = before ++ p :: after
                  /\ forall q, In q after -> name_of q <> name_of p)
  /\ (forall p, In p result -> In p (direct ++ inherited))
  /\ (forall q, In q (direct ++ inherited) ->
                exists p, In p result /\ name_of p = name_of q)
  /\ (forall p q, In p result -> In q inherited ->
                  name_of q = name_of p ->
                  exists before after,
                    inherited = before ++ p :: after
                    /\ forall q', In q' after -> name_of q' <> name_of p)
  /\ (forall p, In p direct <->
                exists d, p = Instance d /\ In d (permissions s)
                          /\ Permission.guardName d = k)
  /\ (forall p, In p inherited <->
                exists role ps,
                  In role (roles s) /\ IRole.permissions role = Some ps
                  /\ In p ps
                  /\ match p with
                     | Instance q => Permission.guardName q = k
                     | Plain d => IPermission.guardName d = Some k
                     end).
Proof.
  intros k name_of of_guard direct inherited result.
  assert (Eall : result = JSMap.values (unique_by_name (direct ++ inherited) [])).
  { subst result direct inherited of_guard.
    unfold getAllPermissions, unique_by_name, getDirectPermissions. cbv zeta.
    now rewrite role_permissions_for_flat. }
  change name_of with perm_name in *.
  assert (R : forall p, In p result <->
                        last_named (perm_name p) (direct ++ inherited) = Some p).
  { intros p. rewrite Eall. apply values_unique_by_name. }
  split; [rewrite Eall; apply values_unique_by_name_NoDup|].
  split.
  { intros p. rewrite R, last_named_split. split; [tauto|].
    intros H. split; [reflexivity|exact H]. }
  split; [intros p Hp; apply R in Hp; now apply last_named_In in Hp|].
  split.
  { intros q Hq. destruct (last_named_exists _ _ Hq) as [p Hp].
    exists p. destruct (last_named_In _ _ _ Hp) as [_ Hn].
    split; [|exact Hn]. apply R. now rewrite Hn. }
  split.
  { intros p q Hp Hq Hn. apply R in Hp. rewrite last_named_app in Hp.
    destruct (last_named_exists _ _ Hq) as [p' Hp'].
    rewrite Hn in Hp'. rewrite Hp' in Hp. injection Hp as ->.
    apply last_named_split in Hp'. tauto. }
  split.
  - intros p. subst direct. rewrite in_map_iff. split.
    + intros (d & <- & Hd). apply filter_In in Hd. destruct Hd as [Hd Hg].
      apply String.eqb_eq in Hg. exists d. tauto.
    + intros (d & -> & Hd & Hg). exists d. split; [reflexivity|].
      apply filter_In. split; [exact Hd|]. now apply String.eqb_eq.
  - intros p. subst inherited of_guard.
    rewrite <- role_permissions_for_flat, role_permissions_for_spec.
    split; intros (role & ps & Hr & E & Hin & Hg); exists role, ps;
      repeat (split; [assumption|]); destruct p as [q|d]; simpl in *;
      congruence.
Qed.

Example role_permission_shadows_direct :
  getAllPermissions
    (HasPermissionsTrait.mk [Examples.A; Examples.B] [Examples.shadowing])
    None
  = [Plain Examples.shadow].
Proof. reflexivity. Qed.

End GetAllPermissions.

(** ** [givePermissionTo] and [syncPermissions] *)

Section Grants.

Import HasPermissionsTrait.

Lemma make_permission_name (x : PermissionArg) (k : string) (w : World) :
  Permission.name (fst (make_permission x k w)) = permissionName x.
Proof.
  destruct x as [n|e]; unfold make_permission, Permission.new;
    rewrite !wbind_run; simpl; apply or_string_same.
Qed.

Lemma make_permission_guard (x : PermissionArg) (k : string) (w : World) :
  Permission.guardName (fst (make_permission x k w)) = built_guard x k.
Proof.
  destruct x as [n|e]; unfold make_permission, Permission.new;
    rewrite !wbind_run; reflexivity.
Qed.

(** One call, spelled out: the permission is built first, and appended
    unless [hasPermission] already answers yes for its name. *)
Lemma givePermissionTo_run (s : t) (x : PermissionArg) (g : option string)
    (w : World) :
  givePermissionTo s x g w
  = (if hasPermission s x (Some (JS.default_param g "web"))
     then s
     else with_permissions s
            (permissions s
             ++ [fst (make_permission x (JS.default_param g "web") w)]),
     snd (make_permission x (JS.default_param g "web") w)).
Proof.
  unfold givePermissionTo. rewrite wbind_run. unfold wret. f_equal.
  rewrite !hasPermission_orb. simpl permissionName.
  rewrite make_permission_name.
  now destruct (existsb _ (permissions s) || existsb _ (roles s)).
Qed.

Lemma givePermissionTo_held (s : t) (x : PermissionArg) (g : option string)
    (w : World) :
  hasPermission s x (Some (JS.default_param g "web")) = true ->
  fst (givePermissionTo s x g w) = s.
Proof. intros H. now rewrite givePermissionTo_run, H. Qed.

Lemma givePermissionTo_new (s : t) (x : PermissionArg) (g : option string)
    (w : World) :
  hasPermission s x (Some (JS.default_param g "web")) = false ->
  fst (givePermissionTo s x g w)
  = with_permissions s
      (permissions s ++ [fst (make_permission x (JS.default_param g "web") w)]).
Proof. intros H. now rewrite givePermissionTo_run, H. Qed.

(** What a run of [givePermissionTo] over [xs] can do: the roles stay,
    the direct permissions only grow, by permissions built from [xs]. *)
Lemma give_all_grows (k : string) (xs : list PermissionArg) (s : t)
    (w : World) :
  let s' :=
    fst (wfold (fun permission cur => givePermissionTo cur permission (Some k))
           xs s w) in
  roles s' = roles s
  /\ exists added, permissions s' = permissions s ++ added
                   /\ Forall (built_from xs k) added.
Proof.
  revert s w. induction xs as [|x xs IH]; intros s w; simpl.
  - split; [reflexivity|]. exists []. now rewrite app_nil_r.
  - rewrite wbind_run, givePermissionTo_run. simpl JS.default_param.
    cbn [fst snd].
    assert (Hb' : forall added, Forall (built_from xs k) added ->
                                Forall (built_from (x :: xs) k) added).
    { intros added Hb. eapply List.Forall_impl; [|exact Hb].
      intros p (y & w0 & Hy & ->). exists y, w0.
      split; [now right|reflexivity]. }
    destruct (hasPermission s x (Some k)).
    + destruct (IH s (snd (make_permission x k w))) as (Hr & added & Hp & Hb).
      split; [exact Hr|]. exists added. split; [exact Hp|now apply Hb'].
    + destruct (IH (with_permissions s
                      (permissions s ++ [fst (make_permission x k w)]))
                   (snd (make_permission x k w)))
        as (Hr & added & Hp & Hb).
      split; [exact Hr|].
      exists (fst (make_permission x k w) :: added).
      split; [simpl in Hp; now rewrite Hp, <- app_assoc|].
      constructor; [|now apply Hb'].
      exists x, w. split; [now left|reflexivity].
Qed.

(** Appending direct permissions never takes a permission away. *)
Lemma hasPermission_grows (s s' : t) (added : list Permission.t)
    (x : PermissionArg) (g : option string) :
  roles s' = roles s -> permissions s' = permissions s ++ added ->
  hasPermission s x g = true -> hasPermission s' x g = true.
Proof.
  intros Hr Hp. rewrite !hasPermission_orb, Hr, Hp, existsb_app.
  rewrite !orb_true_iff. tauto.
Qed.

(** After one call the permission is held for the guard of the call,
    provided the permission built from the argument carries that guard. *)
Lemma givePermissionTo_holds (s : t) (x : PermissionArg) (k : string)
    (w : World) :
  built_guard x k = k ->
  hasPermission (fst (givePermissionTo s x (Some k) w)) x (Some k) = true.
Proof.
  intros Hb. rewrite givePermissionTo_run. simpl JS.default_param.
  cbn [fst]. destruct (hasPermission s x (Some k)) eqn:E; [exact E|].
  rewrite hasPermission_orb. simpl. rewrite existsb_app. simpl.
  unfold direct_match at 2.
  rewrite make_permission_name, make_permission_guard, Hb, !String.eqb_refl.
  simpl. rewrite orb_true_r. reflexivity.
Qed.

Lemma give_all_holds (k : string) (xs : list PermissionArg) (s : t)
    (w : World) (x : PermissionArg) :
  In x xs -> built_guard x k = k ->
  hasPermission
    (fst (wfold (fun permission cur => givePermissionTo cur permission (Some k))
            xs s w)) x (Some k) = true.
Proof.
  revert s w. induction xs as [|y xs IH]; intros s w Hin Hb; [destruct Hin|].
  simpl. rewrite wbind_run.
  destruct Hin as [->|Hin]; [|now apply IH].
  destruct (give_all_grows k xs (fst (givePermissionTo s x (Some k) w))
              (snd (givePermissionTo s x (Some k) w)))
    as (Hr & added & Hp & _).
  eapply hasPermission_grows; [exact Hr|exact Hp|].
  now apply givePermissionTo_holds.
Qed.

Lemma filter_app_in (f : Permission.t -> bool) (l1 l2 : list Permission.t)
    (p : Permission.t) :
  In p (List.filter f l1) -> In p (List.filter f (l1 ++ l2)).
Proof. rewrite List.filter_app, in_app_iff. now left. Qed.

(** C4 (amended): [syncPermissions] for the guard [k] keeps, in place,
    every direct permission of another guard, drops every direct
    permission of [k], and appends only permissions built from the
    supplied list by [givePermissionTo], which skips an item already
    held for [k] directly or through a role; the roles are untouched.  When
    each supplied item yields a permission of guard [k], the direct
    permissions of every other guard are exactly what they were and
    every supplied item is held for [k] afterwards, directly or through
    a role.  With an empty list nothing is appended: a subject holding
    A under "web" and B under "api" is left with A alone by
    [syncPermissions([], "api")]. *)
Theorem syncPermissions_frame (s : t) (ps : list PermissionArg)
    (g : option string) (w : World) :
  let k := JS.default_param g "web" in
  let s' := fst (syncPermissions s ps g w) in
  let kept :=
    List.filter (fun p => negb (String.eqb (Permission.guardName p) k))
      (permissions s) in
  (exists added, permissions s' = kept ++ added
                 /\ Forall (built_from ps k) added)
  /\ roles s' = roles s
  /\ (forall g1 p, g1 <> k ->
        In p (getDirectPermissions s (Some g1)) ->
        In p (getDirectPermissions s' (Some g1)))
  /\ (forall p, In p (permissions s') -> In p kept \/ built_from ps k p)
  /\ (forall g1, g1 <> k ->
        Forall (fun x => built_guard x k = k) ps ->
        getDirectPermissions s' (Some g1) = getDirectPermissions s (Some g1))
  /\ (forall x, In x ps -> built_guard x k = k ->
        hasPermission s' x (Some k) = true)
  /\ (ps = [] -> permissions s' = kept)
  /\ (forall x, ps = [x] ->
        permissions s'
        = if hasPermission (with_permissions s kept) x (Some k)
          then kept
          else kept ++ [fst (make_permission x k w)])
  /\ fst (syncPermissions Examples.holder [] (Some "api") w)
     = HasPermissionsTrait.mk [Examples.A] [].
Proof.
  intros k s' kept.
  destruct (give_all_grows k ps (with_permissions s kept) w)
    as (Hr & added & Hp & Hb).
  change (roles s' = roles s) in Hr.
  change (permissions s' = kept ++ added) in Hp.
  split; [exists added; now split|].
  split; [exact Hr|].
  split.
  { intros g1 p Hne Hin. unfold getDirectPermissions in *. simpl in *.
    rewrite Hp. apply filter_app_in.
    apply filter_In in Hin. destruct Hin as [Hin Hg].
    apply filter_In. split; [|exact Hg].
    apply filter_In. split; [exact Hin|].
    apply String.eqb_eq in Hg. apply negb_true_iff, String.eqb_neq.
    congruence. }
  split.
  { intros p Hin. rewrite Hp in Hin. apply in_app_iff in Hin.
    destruct Hin as [Hin|Hin]; [now left|right].
    rewrite List.Forall_forall in Hb. now apply Hb. }
  split.
  { intros g1 Hne Hall. unfold getDirectPermissions. simpl.
    rewrite Hp, List.filter_app.
    assert (E : List.filter
                  (fun p => String.eqb (Permission.guardName p) g1) added = []).
    { clear Hp. induction Hb as [|p added (x & w0 & Hx & ->) _ IH];
        [reflexivity|].
      simpl. rewrite make_permission_guard.
      rewrite List.Forall_forall in Hall. rewrite (Hall x Hx).
      apply not_eq_sym, String.eqb_neq in Hne. now rewrite Hne. }
    rewrite E, app_nil_r. subst kept.
    clear - Hne. induction (permissions s) as [|p l IH]; [reflexivity|]. simpl.
    destruct (String.eqb (Permission.guardName p) k) eqn:Ek; simpl.
    - apply String.eqb_eq in Ek.
      destruct (String.eqb (Permission.guardName p) g1) eqn:E1; [|exact IH].
      apply String.eqb_eq in E1. congruence.
    - now rewrite IH. }
  split; [intros x Hx Hbx; now apply give_all_holds|].
  split; [intros ->; reflexivity|].
  split; [|reflexivity].
  intros x ->. subst s'. unfold syncPermissions. fold k. fold kept.
  simpl wfold. rewrite wbind_run. unfold wret. cbn [fst].
  rewrite givePermissionTo_run. simpl JS.default_param. cbn [fst].
  now destruct (hasPermission (with_permissions s kept) x (Some k)).
Qed.

(** C4 as stated fails when a role already grants a supplied name: B
    is removed and "edit" is not added, so the subject is left without
    any direct permission for "api" although one was supplied. *)
Lemma syncPermissions_skips_inherited :
  let s' :=
    fst (syncPermissions Examples.holder_with_role [ByName "edit"]
           (Some "api") Examples.w1) in
  getDirectPermissions Examples.holder_with_role (Some "api") = [Examples.B]
  /\ hasPermission Examples.holder_with_role (ByName "edit") (Some "api") = true
  /\ permissions s' = [Examples.A]
  /\ getDirectPermissions s' (Some "api") = [].
Proof. vm_compute. repeat split. Qed.

Lemma hasPermission_by_name (s : t) (x : PermissionArg) (g : option string) :
  hasPermission s x g = hasPermission s (ByName (permissionName x)) g.
Proof. reflexivity. Qed.

Lemma hasPermission_after_append (s : t) (x : PermissionArg) (k : string)
    (p : Permission.t) :
  Permission.name p = permissionName x ->
  hasPermission (with_permissions s (permissions s ++ [p])) x (Some k)
  = hasPermission s x (Some k) || String.eqb (Permission.guardName p) k.
Proof.
  intros Hn. rewrite !hasPermission_orb. simpl.
  rewrite existsb_app. simpl. unfold direct_match at 2.
  rewrite Hn, String.eqb_refl. simpl.
  destruct (existsb _ (permissions s)); simpl; [reflexivity|].
  destruct (existsb _ (roles s)); simpl;
    destruct (String.eqb (Permission.guardName p) k); reflexivity.
Qed.

(** Where the built permission carries the guard it is given for, or
    the subject already holds the permission, the second call changes
    nothing. *)
Lemma give_twice_same (s : t) (x : PermissionArg) (g : option string)
    (w : World) :
  built_guard x (JS.default_param g "web") = JS.default_param g "web"
  \/ hasPermission s x (Some (JS.default_param g "web")) = true ->
  fst (give_twice s x g w) = fst (givePermissionTo s x g w).
Proof.
  intros H. unfold give_twice. rewrite wbind_run.
  set (k := JS.default_param g "web") in *.
  rewrite (givePermissionTo_run s x g w). fold k. cbn [fst snd].
  destruct (hasPermission s x (Some k)) eqn:E.
  - now apply givePermissionTo_held.
  - destruct H as [H|H]; [|discriminate].
    apply givePermissionTo_held. fold k.
    rewrite hasPermission_after_append by apply make_permission_name.
    rewrite make_permission_guard, H, String.eqb_refl. apply orb_true_r.
Qed.

(** Otherwise every call appends one more permission. *)
Lemma give_twice_grows (s : t) (x : PermissionArg) (g : option string)
    (w : World) :
  built_guard x (JS.default_param g "web") <> JS.default_param g "web" ->
  hasPermission s x (Some (JS.default_param g "web")) = false ->
  length (permissions (fst (givePermissionTo s x g w)))
  = S (length (permissions s))
  /\ length (permissions (fst (give_twice s x g w)))
     = S (S (length (permissions s))).
Proof.
  intros Hb Hh. unfold give_twice. rewrite wbind_run.
  set (k := JS.default_param g "web") in *.
  rewrite (givePermissionTo_run s x g w). fold k. rewrite Hh. cbn [fst snd].
  split; [simpl; rewrite length_app; simpl; lia|].
  rewrite givePermissionTo_new.
  - simpl. rewrite !length_app. simpl. lia.
  - fold k. rewrite hasPermission_after_append by apply make_permission_name.
    rewrite Hh, make_permission_guard. simpl.
    now apply String.eqb_neq.
Qed.

(** C5, on the code: [givePermissionTo] repeated with the same
    arguments leaves the state of a single call when the permission it
    builds carries the guard of the call, and also when the subject
    holds the permission already.  It is not idempotent otherwise: an
    entity whose own guard name differs from the guard of the call is
    appended again by every call, as for the plain object
    [{ id: 'p1', name: 'edit', guardName: 'api' }] given for "web" to a
    subject without permissions. *)
Theorem givePermissionTo_twice (s : t) (x : PermissionArg)
    (g : option string) (w : World) :
  let k := JS.default_param g "web" in
  (built_guard x k = k \/ hasPermission s x (Some k) = true ->
     fst (give_twice s x g w) = fst (givePermissionTo s x g w))
  /\ (built_guard x k <> k -> hasPermission s x (Some k) = false ->
        length (permissions (fst (givePermissionTo s x g w)))
        = S (length (permissions s))
        /\ length (permissions (fst (give_twice s x g w)))
           = S (S (length (permissions s))))
  /\ (let once :=
         fst (givePermissionTo Examples.nobody (ByEntity Examples.edit_api)
                (Some "web") Examples.w1) in
       let twice :=
         fst (give_twice Examples.nobody (ByEntity Examples.edit_api)
                (Some "web") Examples.w1) in
       map Permission.id (permissions once) = ["p1"]
       /\ map Permission.id (permissions twice) = ["p1"; "p1"]
       /\ map Permission.guardName (permissions twice) = ["api"; "api"]).
Proof.
  intros k. split; [apply give_twice_same|].
  split; [apply give_twice_grows|].
  vm_compute. repeat split.
Qed.

Lemma kept_none_of_guard (k n : string) (l : list Permission.t) :
  existsb (direct_match n k)
    (List.filter (fun p => negb (String.eqb (Permission.guardName p) k)) l)
  = false.
Proof.
  induction l as [|p l IH]; [reflexivity|]. simpl.
  destruct (String.eqb (Permission.guardName p) k) eqn:E; simpl; [exact IH|].
  unfold direct_match at 1. now rewrite E, andb_false_r.
Qed.

Lemma kept_filter_nil (k : string) (l : list Permission.t) :
  List.filter (fun p => String.eqb (Permission.guardName p) k)
    (List.filter (fun p => negb (String.eqb (Permission.guardName p) k)) l)
  = [].
Proof.
  induction l as [|p l IH]; [reflexivity|]. simpl.
  destruct (String.eqb (Permission.guardName p) k) eqn:E; simpl; [exact IH|].
  now rewrite E.
Qed.

Lemma filter_none (n k : string) (rs : list IRole.t) :
  existsb (role_grants n k)
    (List.filter (fun r => negb (role_grants n k r)) rs) = false.
Proof.
  induction rs as [|r rs IH]; [reflexivity|]. simpl.
  destruct (role_grants n k r) eqn:E; simpl; [exact IH|].
  now rewrite E.
Qed.

(** C10: when an assigned role already holds a permission named [n] for
    the guard, [givePermissionTo(n, g)] changes nothing, so the direct
    permissions of the guard gain no permission named [n];
    [syncPermissions([n], g)] then leaves the subject without any
    direct permission of that guard, the permission being held through
    the role alone, and once no assigned role grants it any more
    [hasPermission(n, g)] is false. *)
Theorem give_skips_inherited (s : t) (n : string) (g : option string)
    (w : World) :
  let k := JS.default_param g "web" in
  (exists role ps p,
      In role (roles s) /\ IRole.permissions role = Some ps
      /\ In p ps /\ perm_name p = n /\ perm_guardName p = Some k) ->
  let s1 := fst (givePermissionTo s (ByName n) g w) in
  let s2 := fst (syncPermissions s [ByName n] g w) in
  s1 = s
  /\ ((forall p, In p (getDirectPermissions s g) -> Permission.name p <> n) ->
      forall p, In p (getDirectPermissions s1 g) -> Permission.name p <> n)
  /\ getDirectPermissions s2 g = []
  /\ roles s2 = roles s
  /\ hasPermission s2 (ByName n) g = true
  /\ (forall rs', existsb (role_grants n k) rs' = false ->
        hasPermission (with_roles s2 rs') (ByName n) g = false)
  /\ hasPermission
       (with_roles s2
          (List.filter (fun r => negb (role_grants n k r)) (roles s)))
       (ByName n) g = false.
Proof.
  intros k H s1 s2.
  apply (roles_grant_spec n k) in H.
  assert (H1 : s1 = s).
  { apply givePermissionTo_held. rewrite hasPermission_orb. simpl.
    fold k. rewrite H. apply orb_true_r. }
  set (kept := List.filter
                 (fun p => negb (String.eqb (Permission.guardName p) k))
                 (permissions s)).
  assert (H2 : s2 = with_permissions s kept).
  { subst s2. unfold syncPermissions. fold k. fold kept. simpl wfold.
    rewrite wbind_run. unfold wret. cbn [fst].
    apply givePermissionTo_held. rewrite hasPermission_orb. simpl.
    rewrite H. apply orb_true_r. }
  split; [exact H1|].
  split; [now rewrite H1|].
  rewrite H2.
  split; [apply kept_filter_nil|].
  split; [reflexivity|].
  split.
  { rewrite hasPermission_orb. simpl. fold k. rewrite H. apply orb_true_r. }
  assert (R : forall rs', existsb (role_grants n k) rs' = false ->
                hasPermission (with_roles (with_permissions s kept) rs')
                  (ByName n) g = false).
  { intros rs' Hrs. rewrite hasPermission_orb. simpl. fold k.
    subst kept. now rewrite kept_none_of_guard, Hrs. }
  split; [exact R|]. apply R, filter_none.
Qed.

(** C10, checked on a subject whose only role, of guard "api", holds
    the "web" permission [A]. *)
Lemma give_skips_inherited_witness :
  fst (givePermissionTo Examples.member (ByName "A") None Examples.w1)
  = Examples.member
  /\ getDirectPermissions
       (fst (syncPermissions Examples.member [ByName "A"] None Examples.w1))
       None = [].
Proof.
  assert (H : exists role ps p,
             In role (roles Examples.member)
             /\ IRole.permissions role = Some ps /\ In p ps
             /\ perm_name p = "A"
             /\ perm_guardName p = Some (JS.default_param None "web")).
  { exists Examples.editor, [Instance Examples.A], (Instance Examples.A).
    simpl. repeat split; now left. }
  destruct (give_skips_inherited Examples.member "A" None Examples.w1 H)
    as (H1 & _ & H3 & _).
  split; [exact H1|exact H3].
Defined.

End Grants.

(** ** Running manager methods on a well-formed state *)

Section ManagerRuns.

Import PermissionManager.

Lemma run_bind {A B} (m : M A) (k : A -> M B) (st st' : State) (a : A)
    (r : Outcome B * State) :
  m st = (Return a, st') -> k a st' = r -> mbind m k st = r.
Proof. intros H <-. unfold mbind. now rewrite H. Qed.

Lemma run_bind_throw {A B} (m : M A) (k : A -> M B) (st st' : State)
    (e : PermissionException.t) :
  m st = (Throw e, st') -> mbind m k st = (Throw e, st').
Proof. intros H. unfold mbind. now rewrite H. Qed.

Lemma read_manager_run (st : State) (l : loc) (f : ManagerFields) :
  objs (heap st) !! l = Some (ManagerObj f) ->
  read_manager l st = (Return f, st).
Proof. intros H. unfold read_manager, mbind, read. now rewrite H. Qed.

Lemma read_guard_run (st : State) (l : loc) (g : Guard.t) :
  objs (heap st) !! l = Some (GuardObj g) -> read_guard l st = (Return g, st).
Proof. intros H. unfold read_guard, mbind, read. now rewrite H. Qed.

Lemma read_guard_map_run (st : State) (l : loc) (m : gmap string loc) :
  objs (heap st) !! l = Some (GuardMapObj m) ->
  read_guard_map l st = (Return m, st).
Proof. intros H. unfold read_guard_map, mbind, read. now rewrite H. Qed.

Lemma read_config_run (st : State) (l : loc) (c : Config.t) :
  objs (heap st) !! l = Some (ConfigObj c) -> read_config l st = (Return c, st).
Proof. intros H. unfold read_config, mbind, read. now rewrite H. Qed.

Lemma read_permission_checks_run (st : State) (l : loc)
    (m : gmap string PermissionCheck) :
  objs (heap st) !! l = Some (PermissionCheckMapObj m) ->
  read_permission_checks l st = (Return m, st).
Proof. intros H. unfold read_permission_checks, mbind, read. now rewrite H. Qed.

Lemma read_role_checks_run (st : State) (l : loc) (m : gmap string RoleCheck) :
  objs (heap st) !! l = Some (RoleCheckMapObj m) ->
  read_role_checks l st = (Return m, st).
Proof. intros H. unfold read_role_checks, mbind, read. now rewrite H. Qed.

Lemma allocated_below (h : Heap) (l : loc) (o : Obj) :
  heap_ok h -> objs h !! l = Some o -> l < next h.
Proof.
  intros Hok Hl. destruct (Nat.lt_ge_cases l (next h)) as [H|H]; [exact H|].
  rewrite (Hok l H) in Hl. discriminate.
Qed.

(** The five objects of a manager are of five different classes, hence
    at five different places. *)
Lemma manager_at_distinct (st : State) (this : loc) (f : ManagerFields)
    (gm : gmap string loc) (c : Config.t) (pc : gmap string PermissionCheck)
    (rc : gmap string RoleCheck) :
  manager_at st this f gm c pc rc ->
  guards f <> this /\ config f <> this /\ customPermissionChecks f <> this
  /\ customRoleChecks f <> this /\ guards f <> config f
  /\ guards f <> customPermissionChecks f /\ guards f <> customRoleChecks f
  /\ config f <> customPermissionChecks f /\ config f <> customRoleChecks f
  /\ customPermissionChecks f <> customRoleChecks f.
Proof.
  intros [H1 H2 H3 H4 H5 _].
  repeat split; intros E; rewrite E in *; congruence.
Qed.

Lemma manager_at_below (st : State) (this : loc) (f : ManagerFields)
    (gm : gmap string loc) (c : Config.t) (pc : gmap string PermissionCheck)
    (rc : gmap string RoleCheck) :
  manager_at st this f gm c pc rc ->
  this < next (heap st) /\ guards f < next (heap st)
  /\ config f < next (heap st) /\ customPermissionChecks f < next (heap st)
  /\ customRoleChecks f < next (heap st).
Proof.
  intros [H1 H2 H3 H4 H5 H6].
  repeat split; eapply allocated_below; eassumption.
Qed.

Ltac heap_lookup :=
  cbn [heap objs next world calls guards config customPermissionChecks
       customRoleChecks set_guards];
  repeat first
    [ rewrite lookup_insert_eq
    | rewrite lookup_insert_ne by (first [lia | congruence | assumption]) ];
  first [reflexivity | eassumption].

Ltac run_one :=
  first
    [ apply read_manager_run; heap_lookup
    | apply read_guard_map_run; heap_lookup
    | apply read_guard_run; heap_lookup
    | apply read_config_run; heap_lookup
    | apply read_permission_checks_run; heap_lookup
    | apply read_role_checks_run; heap_lookup
    | reflexivity ].

Ltac mstep :=
  eapply run_bind; [run_one|];
  cbn [heap objs next world calls guards config customPermissionChecks
       customRoleChecks set_guards].

Lemma this_config_run (st : State) (this : loc) (f : ManagerFields)
    (gm : gmap string loc) (c : Config.t) (pc : gmap string PermissionCheck)
    (rc : gmap string RoleCheck) :
  manager_at st this f gm c pc rc -> this_config this st = (Return c, st).
Proof.
  intros [H1 H2 H3 H4 H5 H6]. unfold this_config. mstep.
  now apply read_config_run.
Qed.

Lemma resolve_guard_run (st : State) (this : loc) (f : ManagerFields)
    (gm : gmap string loc) (c : Config.t) (pc : gmap string PermissionCheck)
    (rc : gmap string RoleCheck) (g : option string) :
  manager_at st this f gm c pc rc ->
  resolve_guard this g st
  = (Return (JS.or_string g (Config.defaultGuard c)), st).
Proof.
  intros H. unfold resolve_guard. eapply run_bind.
  - eapply this_config_run, H.
  - reflexivity.
Qed.

Lemma getGuard_run (st : State) (this : loc) (f : ManagerFields)
    (gm : gmap string loc) (c : Config.t) (pc : gmap string PermissionCheck)
    (rc : gmap string RoleCheck) (name : string) :
  manager_at st this f gm c pc rc ->
  getGuard this name st
  = (match gm !! name with
     | Some guard => Return guard
     | None => Throw (PermissionException.GuardNotFoundException name)
     end, st).
Proof.
  intros [H1 H2 H3 H4 H5 H6]. unfold getGuard. mstep. mstep.
  now destruct (gm !! name).
Qed.

(** An unknown guard makes every method that resolves it throw. *)
Lemma resolved_guard_missing {A} (st : State) (this : loc) (f : ManagerFields)
    (gm : gmap string loc) (c : Config.t) (pc : gmap string PermissionCheck)
    (rc : gmap string RoleCheck) (g : option string) (k : loc -> M A) :
  manager_at st this f gm c pc rc ->
  gm !! JS.or_string g (Config.defaultGuard c) = None ->
  mbind (resolve_guard this g)
    (fun n => mbind (getGuard this n) k) st
  = (Throw (PermissionException.GuardNotFoundException
              (JS.or_string g (Config.defaultGuard c))), st).
Proof.
  intros H Hg. eapply run_bind; [eapply resolve_guard_run, H|].
  apply run_bind_throw. rewrite (getGuard_run _ _ _ _ _ _ _ _ H).
  now rewrite Hg.
Qed.

(** A known guard is read and handed to the rest of the method. *)
Lemma resolved_guard_found {A} (st : State) (this : loc) (f : ManagerFields)
    (gm : gmap string loc) (c : Config.t) (pc : gmap string PermissionCheck)
    (rc : gmap string RoleCheck) (g : option string) (l : loc) (gd : Guard.t)
    (k : Guard.t -> M A) :
  manager_at st this f gm c pc rc ->
  gm !! JS.or_string g (Config.defaultGuard c) = Some l ->
  objs (heap st) !! l = Some (GuardObj gd) ->
  mbind (resolve_guard this g)
    (fun n => mbind (getGuard this n)
                (fun guard => mbind (read_guard guard) k)) st
  = k gd st.
Proof.
  intros H Hg Hl. eapply run_bind; [eapply resolve_guard_run, H|].
  eapply run_bind.
  - rewrite (getGuard_run _ _ _ _ _ _ _ _ H), Hg. reflexivity.
  - eapply run_bind; [apply read_guard_run; exact Hl|reflexivity].
Qed.

Ltac heap_ok_after Hok :=
  let l := fresh "l" in
  let Hl := fresh "Hl" in
  intros l Hl;
  cbn [heap objs next world calls] in *;
  repeat rewrite lookup_insert_ne by lia;
  apply Hok; lia.

(** The constructor allocates six objects and touches nothing else. *)
Lemma new_run (cfg : PermissionManagerConfig.t) (st : State) :
  heap_ok (heap st) ->
  let n := next (heap st) in
  let d := Config.defaultGuard (Config.merge cfg) in
  exists st',
    new cfg st = (Return (4 + n), st')
    /\ manager_at st' (4 + n) (mkManager n (3 + n) (1 + n) (2 + n))
         (<[d := 5 + n]> ∅) (Config.merge cfg) ∅ ∅
    /\ next (heap st') = 6 + n
    /\ (forall l, l < n -> objs (heap st') !! l = objs (heap st) !! l)
    /\ world st' = world st /\ calls st' = calls st.
Proof.
  intros Hok n d. eexists. split.
  - unfold new. do 5 mstep.
    eapply run_bind; [|reflexivity].
    unfold createGuard. do 4 mstep. reflexivity.
  - cbn [heap objs next world calls]. fold n d.
    split; [|split; [reflexivity|split; [|split; reflexivity]]].
    + constructor; try heap_lookup. heap_ok_after Hok.
    + intros l Hl. now repeat rewrite lookup_insert_ne by lia.
Qed.

Lemma createGuard_run (st : State) (this : loc) (f : ManagerFields)
    (gm : gmap string loc) (c : Config.t) (pc : gmap string PermissionCheck)
    (rc : gmap string RoleCheck) (name : string) :
  manager_at st this f gm c pc rc ->
  let l := next (heap st) in
  exists st',
    createGuard this name st = (Return l, st')
    /\ manager_at st' this f (<[name := l]> gm) c pc rc
    /\ objs (heap st') !! l = Some (GuardObj (Guard.new name))
    /\ (forall l', l' <> guards f -> l' < l ->
          objs (heap st') !! l' = objs (heap st) !! l').
Proof.
  intros H l.
  destruct (manager_at_distinct _ _ _ _ _ _ _ H) as (D1 & D2 & D3 & D4 & D5 & D6 & D7 & _).
  destruct (manager_at_below _ _ _ _ _ _ _ H) as (B1 & B2 & B3 & B4 & B5).
  destruct H as [H1 H2 H3 H4 H5 H6].
  eexists. split.
  - unfold createGuard. do 4 mstep. reflexivity.
  - cbn [heap objs next world calls]. fold l.
    split; [|split].
    + constructor; try heap_lookup. heap_ok_after H6.
    + heap_lookup.
    + intros l' Hne Hlt. now repeat rewrite lookup_insert_ne by lia.
Qed.

Lemma merge_as_argument (c : Config.t) : Config.merge (Config.as_argument c) = c.
Proof. now destruct c. Qed.

(** [forGuard]: the new manager has a guards map of its own with the
    entries of the old one, a configuration of its own whose default
    guard is the given name, and empty tables of custom checks; every
    object that existed before the call is as it was. *)
Lemma forGuard_run (st : State) (this : loc) (f : ManagerFields)
    (gm : gmap string loc) (c : Config.t) (pc : gmap string PermissionCheck)
    (rc : gmap string RoleCheck) (g : string) :
  manager_at st this f gm c pc rc ->
  let n := next (heap st) in
  let f' := mkManager (6 + n) (3 + n) (1 + n) (2 + n) in
  exists st',
    forGuard this g st = (Return (4 + n), st')
    /\ manager_at st' (4 + n) f' gm (Config.set_defaultGuard c g) ∅ ∅
    /\ manager_at st' this f gm c pc rc
    /\ (forall l, l < n -> objs (heap st') !! l = objs (heap st) !! l)
    /\ world st' = world st /\ calls st' = calls st.
Proof.
  intros H n f'.
  destruct (manager_at_below _ _ _ _ _ _ _ H) as (B1 & B2 & B3 & B4 & B5).
  pose proof (this_config_run _ _ _ _ _ _ _ H) as Hc.
  destruct H as [H1 H2 H3 H4 H5 H6].
  destruct (new_run (Config.as_argument c) st H6)
    as (st1 & Hnew & [N1 N2 N3 N4 N5 N6] & Hnext & Hframe & Hw & Hcalls).
  rewrite merge_as_argument in *.
  fold n in Hnew, N1, N2, N3, N4, N5, Hnext, Hframe, B1, B2, B3, B4, B5.
  cbn [guards config customPermissionChecks customRoleChecks] in *.
  eexists. split.
  - unfold forGuard.
    eapply run_bind; [exact Hc|].
    eapply run_bind; [exact Hnew|].
    eapply run_bind; [apply read_manager_run; rewrite Hframe by lia; exact H1|].
    eapply run_bind;
      [apply read_guard_map_run; rewrite Hframe by lia; exact H2|].
    eapply run_bind; [reflexivity|].
    cbn [heap objs next world calls]. rewrite Hnext.
    do 4 mstep. reflexivity.
  - cbn [heap objs next world calls]. subst f'.
    split; [|split; [|split; [|split]]].
    + constructor; try heap_lookup.
      intros l Hl. cbn [heap objs next] in *.
      repeat rewrite lookup_insert_ne by lia. apply N6. lia.
    + constructor;
        try (cbn [heap objs next]; repeat rewrite lookup_insert_ne by lia;
             rewrite Hframe by lia; assumption).
      intros l Hl. cbn [heap objs next] in *.
      repeat rewrite lookup_insert_ne by lia. apply N6. lia.
    + intros l Hl. repeat rewrite lookup_insert_ne by lia. now apply Hframe.
    + exact Hw.
    + exact Hcalls.
Qed.

Lemma registerPermissionCheck_run (st : State) (this : loc)
    (f : ManagerFields) (gm : gmap string loc) (c : Config.t)
    (pc : gmap string PermissionCheck) (rc : gmap string RoleCheck)
    (key : string) (fn : PermissionCheck) :
  manager_at st this f gm c pc rc ->
  exists st',
    registerPermissionCheck this key fn st = (Return tt, st')
    /\ manager_at st' this f gm c (<[key := fn]> pc) rc
    /\ calls st' = calls st.
Proof.
  intros H.
  destruct (manager_at_distinct _ _ _ _ _ _ _ H)
    as (D1 & D2 & D3 & D4 & D5 & D6 & D7 & D8 & D9 & D10).
  destruct (manager_at_below _ _ _ _ _ _ _ H) as (B1 & B2 & B3 & B4 & B5).
  destruct H as [H1 H2 H3 H4 H5 H6].
  eexists. split.
  - unfold registerPermissionCheck. do 2 mstep. reflexivity.
  - cbn [heap objs next world calls]. split; [|reflexivity].
    constructor; try heap_lookup. heap_ok_after H6.
Qed.

Lemma registerRoleCheck_run (st : State) (this : loc)
    (f : ManagerFields) (gm : gmap string loc) (c : Config.t)
    (pc : gmap string PermissionCheck) (rc : gmap string RoleCheck)
    (key : string) (fn : RoleCheck) :
  manager_at st this f gm c pc rc ->
  exists st',
    registerRoleCheck this key fn st = (Return tt, st')
    /\ manager_at st' this f gm c pc (<[key := fn]> rc)
    /\ calls st' = calls st.
Proof.
  intros H.
  destruct (manager_at_distinct _ _ _ _ _ _ _ H)
    as (D1 & D2 & D3 & D4 & D5 & D6 & D7 & D8 & D9 & D10).
  destruct (manager_at_below _ _ _ _ _ _ _ H) as (B1 & B2 & B3 & B4 & B5).
  destruct H as [H1 H2 H3 H4 H5 H6].
  eexists. split.
  - unfold registerRoleCheck. do 2 mstep. reflexivity.
  - cbn [heap objs next world calls]. split; [|reflexivity].
    constructor; try heap_lookup. heap_ok_after H6.
Qed.

Lemma checkPermission_run (st : State) (this : loc)
    (f : ManagerFields) (gm : gmap string loc) (c : Config.t)
    (pc : gmap string PermissionCheck) (rc : gmap string RoleCheck)
    (u : PermissionUser) (x : PermissionArg) (g : option string) :
  manager_at st this f gm c pc rc ->
  let k := JS.or_string g (Config.defaultGuard c) in
  let n := HasPermissionsTrait.permissionName x in
  checkPermission this u x g st
  = match pc !! k with
    | Some fn =>
        (Return (fn u n k), logged st (CustomPermissionCheckCall k u n k))
    | None =>
        (Return (user_hasPermission u x k), logged st (HasPermissionCall u x k))
    end.
Proof.
  intros H k n. unfold checkPermission.
  eapply run_bind; [eapply resolve_guard_run, H|]. fold k.
  destruct H as [H1 H2 H3 H4 H5 H6]. do 2 mstep.
  destruct (pc !! k); reflexivity.
Qed.

Lemma checkRole_run (st : State) (this : loc)
    (f : ManagerFields) (gm : gmap string loc) (c : Config.t)
    (pc : gmap string PermissionCheck) (rc : gmap string RoleCheck)
    (u : PermissionUser) (x : RoleArg) (g : option string) :
  manager_at st this f gm c pc rc ->
  let k := JS.or_string g (Config.defaultGuard c) in
  let n := HasRolesTrait.roleName x in
  checkRole this u x g st
  = match rc !! k with
    | Some fn => (Return (fn u n k), logged st (CustomRoleCheckCall k u n k))
    | None => (Return (user_hasRole u x k), logged st (HasRoleCall u x k))
    end.
Proof.
  intros H k n. unfold checkRole.
  eapply run_bind; [eapply resolve_guard_run, H|]. fold k.
  destruct H as [H1 H2 H3 H4 H5 H6]. do 2 mstep.
  destruct (rc !! k); reflexivity.
Qed.

Lemma heap_ok_empty : heap_ok empty_heap.
Proof. intros l _. apply lookup_empty. Qed.

(** The state built by [new PermissionManager()] is well formed. *)
Lemma fresh_manager_at :
  manager_at ManagerExamples.st1 ManagerExamples.manager ManagerExamples.fields
    (<["web" := 5]> ∅) (Config.mk false 3600 "web") ∅ ∅.
Proof.
  destruct (new_run PermissionManagerConfig.empty Examples.st0 heap_ok_empty)
    as (st' & Hnew & Hat & _).
  unfold ManagerExamples.st1. rewrite Hnew. exact Hat.
Qed.

(** C2 (amended): the key [k] under which a custom check is looked up
    is the given guard when one is given and is not the empty string,
    and the configured default guard otherwise.  A check [fn]
    registered under [k] decides alone: [checkPermission] returns
    [fn(u, name, k)] and calls nothing else, in particular not
    [u.hasPermission]; without a check under [k] it returns
    [u.hasPermission(x, k)].  [checkRole] does the same with the role
    checks and [u.hasRole]. *)
Theorem checkPermission_custom_or_own (st : State) (this : loc)
    (f : ManagerFields) (gm : gmap string loc) (c : Config.t)
    (pc : gmap string PermissionCheck) (rc : gmap string RoleCheck)
    (u : PermissionUser) (x : PermissionArg) (r : RoleArg)
    (g : option string) :
  manager_at st this f gm c pc rc ->
  let k := JS.or_string g (Config.defaultGuard c) in
  let n := HasPermissionsTrait.permissionName x in
  let rn := HasRolesTrait.roleName r in
  (forall s, g = Some s -> s <> "" -> k = s)
  /\ (g = None \/ g = Some "" -> k = Config.defaultGuard c)
  /\ (forall fn, pc !! k = Some fn ->
        checkPermission this u x g st
        = (Return (fn u n k), logged st (CustomPermissionCheckCall k u n k)))
  /\ (pc !! k = None ->
        checkPermission this u x g st
        = (Return (user_hasPermission u x k),
           logged st (HasPermissionCall u x k)))
  /\ (forall fn, rc !! k = Some fn ->
        checkRole this u r g st
        = (Return (fn u rn k), logged st (CustomRoleCheckCall k u rn k)))
  /\ (rc !! k = None ->
        checkRole this u r g st
        = (Return (user_hasRole u r k), logged st (HasRoleCall u r k)))
  /\ (forall fn, exists st',
        registerPermissionCheck this k fn st = (Return tt, st')
        /\ checkPermission this u x g st'
           = (Return (fn u n k),
              logged st' (CustomPermissionCheckCall k u n k)))
  /\ (forall fn, exists st',
        registerRoleCheck this k fn st = (Return tt, st')
        /\ checkRole this u r g st'
           = (Return (fn u rn k), logged st' (CustomRoleCheckCall k u rn k))).
Proof.
  intros H k n rn. subst k n rn.
  split; [intros s -> Hs; now apply or_string_truthy|].
  split; [intros [->| ->]; reflexivity|].
  split.
  { intros fn Hfn. rewrite (checkPermission_run _ _ _ _ _ _ _ u x g H). cbv zeta. now rewrite Hfn. }
  split.
  { intros Hno. rewrite (checkPermission_run _ _ _ _ _ _ _ u x g H). cbv zeta. now rewrite Hno. }
  split.
  { intros fn Hfn. rewrite (checkRole_run _ _ _ _ _ _ _ u r g H). cbv zeta. now rewrite Hfn. }
  split.
  { intros Hno. rewrite (checkRole_run _ _ _ _ _ _ _ u r g H). cbv zeta. now rewrite Hno. }
  split.
  - intros fn.
    destruct (registerPermissionCheck_run _ _ _ _ _ _ _
                (JS.or_string g (Config.defaultGuard c)) fn H)
      as (st' & Hreg & Hat & _).
    exists st'. split; [exact Hreg|].
    rewrite (checkPermission_run _ _ _ _ _ _ _ u x g Hat). cbv zeta.
    now rewrite lookup_insert_eq.
  - intros fn.
    destruct (registerRoleCheck_run _ _ _ _ _ _ _
                (JS.or_string g (Config.defaultGuard c)) fn H)
      as (st' & Hreg & Hat & _).
    exists st'. split; [exact Hreg|].
    rewrite (checkRole_run _ _ _ _ _ _ _ u r g Hat). cbv zeta.
    now rewrite lookup_insert_eq.
Qed.

(** C2, checked on a fresh manager asked for the guard "custom". *)
Lemma checkPermission_custom_or_own_witness :
  PermissionManager.checkPermission ManagerExamples.manager Examples.denied
    (ByName "x") (Some "custom") ManagerExamples.st1
  = (Return false,
     logged ManagerExamples.st1
       (HasPermissionCall Examples.denied (ByName "x") "custom")).
Proof.
  destruct (checkPermission_custom_or_own _ _ _ _ _ _ _ Examples.denied
              (ByName "x") (RoleByName "y") (Some "custom") fresh_manager_at)
    as (_ & _ & _ & H & _).
  apply H. reflexivity.
Defined.

(** C2 as stated fails for an empty guard argument: the check
    registered under the empty string is not consulted by
    [checkPermission(u, "x", "")], which falls back to the default guard
    "web" and asks the user. *)
Lemma checkPermission_empty_guard_uses_default :
  let r :=
    PermissionManager.checkPermission ManagerExamples.manager Examples.denied
      (ByName "x") (Some "") ManagerExamples.st2 in
  (exists pc, objs (heap ManagerExamples.st2) !! 1
              = Some (PermissionCheckMapObj pc)
              /\ pc !! "" = Some Examples.always)
  /\ Examples.always Examples.denied "x" "" = true
  /\ fst r = Return false
  /\ calls (snd r) = [HasPermissionCall Examples.denied (ByName "x") "web"].
Proof.
  split; [|vm_compute; repeat split].
  exists (<["" := Examples.always]> ∅). split; [|apply lookup_insert_eq].
  vm_compute. reflexivity.
Qed.

Lemma getPermission_run (st : State) (this : loc) (f : ManagerFields)
    (gm : gmap string loc) (c : Config.t) (pc : gmap string PermissionCheck)
    (rc : gmap string RoleCheck) (n : string) (g : option string)
    (l : loc) (gd : Guard.t) :
  manager_at st this f gm c pc rc ->
  gm !! JS.or_string g (Config.defaultGuard c) = Some l ->
  objs (heap st) !! l = Some (GuardObj gd) ->
  getPermission this n g st
  = (match Guard.getPermission gd n with
     | Some p => Return p
     | None => Throw (PermissionException.PermissionNotFoundException n)
     end, st).
Proof.
  intros H Hg Hl. unfold getPermission.
  rewrite (resolved_guard_found _ _ _ _ _ _ _ g l gd _ H Hg Hl).
  now destruct (Guard.getPermission gd n).
Qed.

Lemma getRole_run (st : State) (this : loc) (f : ManagerFields)
    (gm : gmap string loc) (c : Config.t) (pc : gmap string PermissionCheck)
    (rc : gmap string RoleCheck) (n : string) (g : option string)
    (l : loc) (gd : Guard.t) :
  manager_at st this f gm c pc rc ->
  gm !! JS.or_string g (Config.defaultGuard c) = Some l ->
  objs (heap st) !! l = Some (GuardObj gd) ->
  getRole this n g st
  = (match Guard.getRole gd n with
     | Some r => Return r
     | None => Throw (PermissionException.RoleNotFoundException n)
     end, st).
Proof.
  intros H Hg Hl. unfold getRole.
  rewrite (resolved_guard_found _ _ _ _ _ _ _ g l gd _ H Hg Hl).
  now destruct (Guard.getRole gd n).
Qed.

Lemma find_none_iff {A} (f : A -> bool) (l : list A) :
  find f l = None <-> forall x, In x l -> f x = false.
Proof.
  split; [apply find_none|].
  intros H. destruct (find f l) as [x|] eqn:E; [|reflexivity].
  apply find_some in E. destruct E as [Hin Hf].
  rewrite (H x Hin) in Hf. discriminate.
Qed.

Lemma Guard_getPermission_miss (gd : Guard.t) (n : string) :
  Guard.getPermission gd n = None <->
  forall p, In p (Guard.permissions gd) -> Permission.name p <> n.
Proof.
  unfold Guard.getPermission. rewrite find_none_iff.
  split; intros H p Hp; apply String.eqb_neq; now apply H.
Qed.

Lemma Guard_getRole_miss (gd : Guard.t) (n : string) :
  Guard.getRole gd n = None <->
  forall r, In r (Guard.roles gd) -> Role.name r <> n.
Proof.
  unfold Guard.getRole. rewrite find_none_iff.
  split; intros H r Hr; apply String.eqb_neq; now apply H.
Qed.

Lemma lift_world_returns {A} (m : W A) (st : State) :
  exists a st', lift_world m st = (Return a, st').
Proof. unfold lift_world. destruct (m (world st)) as [a w]. eauto. Qed.

Lemma run_mutation_returns (op : Mutation) (st : State) :
  exists v st', run_mutation op st = (Return v, st').
Proof.
  destruct op; simpl;
    try (eexists _, _; reflexivity);
    match goal with
    | |- context [mbind (lift_world ?m) _ _] =>
        destruct (lift_world_returns m st) as (a & st' & E);
        unfold mbind; rewrite E; eexists _, _; reflexivity
    end.
Qed.

(** C6: [getGuard(n)] throws [GuardNotFoundException] built from [n]
    exactly when no guard is registered under [n], and returns the
    guard otherwise.  With the resolved guard present, [getPermission]
    throws [PermissionNotFoundException] built from [n] exactly when
    the guard holds no permission named [n], and [getRole] throws
    [RoleNotFoundException] likewise; with the resolved guard absent
    both throw [GuardNotFoundException].  Each exception carries the
    missing name in its message.  No add, remove or sync operation of
    roles, guards and subjects throws. *)
Theorem lookups_fail_on_miss (st : State) (this : loc) (f : ManagerFields)
    (gm : gmap string loc) (c : Config.t) (pc : gmap string PermissionCheck)
    (rc : gmap string RoleCheck) (n : string) (g : option string) :
  manager_at st this f gm c pc rc ->
  let k := JS.or_string g (Config.defaultGuard c) in
  (getGuard this n st
   = (Throw (PermissionException.GuardNotFoundException n), st)
   <-> gm !! n = None)
  /\ (forall l, gm !! n = Some l -> getGuard this n st = (Return l, st))
  /\ (forall l gd, gm !! k = Some l -> objs (heap st) !! l = Some (GuardObj gd) ->
        (getPermission this n g st
         = (Throw (PermissionException.PermissionNotFoundException n), st)
         <-> forall p, In p (Guard.permissions gd) -> Permission.name p <> n)
        /\ (forall p, Guard.getPermission gd n = Some p ->
              getPermission this n g st = (Return p, st))
        /\ (getRole this n g st
            = (Throw (PermissionException.RoleNotFoundException n), st)
            <-> forall r, In r (Guard.roles gd) -> Role.name r <> n)
        /\ (forall r, Guard.getRole gd n = Some r ->
              getRole this n g st = (Return r, st)))
  /\ (gm !! k = None ->
        getPermission this n g st
        = (Throw (PermissionException.GuardNotFoundException k), st)
        /\ getRole this n g st
           = (Throw (PermissionException.GuardNotFoundException k), st))
  /\ (forall e, PermissionException.message e
                = match e with
                  | PermissionException.RoleNotFoundException _ => "Role "
                  | PermissionException.PermissionNotFoundException _ =>
                      "Permission "
                  | PermissionException.GuardNotFoundException _ => "Guard "
                  end
                  +:+ PermissionException.dquote
                  +:+ PermissionException.missing e
                  +:+ PermissionException.dquote +:+ " not found")
  /\ (forall op st0, exists v st1, run_mutation op st0 = (Return v, st1)).
Proof.
  intros H k.
  split.
  { rewrite (getGuard_run _ _ _ _ _ _ _ n H).
    destruct (gm !! n); split; congruence. }
  split.
  { intros l Hl. now rewrite (getGuard_run _ _ _ _ _ _ _ n H), Hl. }
  split.
  { intros l gd Hg Hl.
    rewrite (getPermission_run _ _ _ _ _ _ _ n g l gd H Hg Hl).
    rewrite (getRole_run _ _ _ _ _ _ _ n g l gd H Hg Hl).
    rewrite <- Guard_getPermission_miss, <- Guard_getRole_miss.
    repeat split.
    - destruct (Guard.getPermission gd n); congruence.
    - intros ->. reflexivity.
    - intros p ->. reflexivity.
    - destruct (Guard.getRole gd n); congruence.
    - intros ->. reflexivity.
    - intros r ->. reflexivity. }
  split.
  { intros Hg. split.
    - unfold getPermission.
      apply (resolved_guard_missing _ _ _ _ _ _ _ g _ H Hg).
    - unfold getRole.
      apply (resolved_guard_missing _ _ _ _ _ _ _ g _ H Hg). }
  split; [intros []; reflexivity|].
  apply run_mutation_returns.
Qed.

(** C6, checked on a fresh manager: no guard, permission or role is
    called "nonexistent". *)
Lemma lookups_fail_on_miss_witness :
  PermissionManager.getGuard ManagerExamples.manager "nonexistent"
    ManagerExamples.st1
  = (Throw (PermissionException.GuardNotFoundException "nonexistent"),
     ManagerExamples.st1)
  /\ PermissionManager.getPermission ManagerExamples.manager "nonexistent"
       None ManagerExamples.st1
     = (Throw (PermissionException.PermissionNotFoundException "nonexistent"),
        ManagerExamples.st1)
  /\ PermissionManager.getRole ManagerExamples.manager "nonexistent"
       None ManagerExamples.st1
     = (Throw (PermissionException.RoleNotFoundException "nonexistent"),
        ManagerExamples.st1).
Proof.
  destruct (lookups_fail_on_miss _ _ _ _ _ _ _ "nonexistent" None
              fresh_manager_at) as (H1 & _ & H3 & _).
  split; [apply H1; reflexivity|].
  destruct (H3 5 (Guard.new "web")) as (Hp & _ & Hr & _);
    [reflexivity|reflexivity|].
  split; [apply Hp|apply Hr]; intros ? [].
Defined.

(** A manager is untouched by writes that spare its five objects. *)
Lemma manager_at_frame (st st' : State) (this : loc) (f : ManagerFields)
    (gm : gmap string loc) (c : Config.t) (pc : gmap string PermissionCheck)
    (rc : gmap string RoleCheck) :
  manager_at st this f gm c pc rc ->
  heap_ok (heap st') ->
  (forall l, In l [this; guards f; config f; customPermissionChecks f;
                   customRoleChecks f] ->
             objs (heap st') !! l = objs (heap st) !! l) ->
  manager_at st' this f gm c pc rc.
Proof.
  intros [H1 H2 H3 H4 H5 H6] Hok Hsame.
  constructor; try exact Hok; rewrite Hsame; try assumption; simpl; tauto.
Qed.

(** C8: [forGuard(g)] returns a new manager whose guards map is a map
    object of its own holding the entries of the original map, so the
    same guard objects, and whose configuration is an object of its
    own with default guard [g].  Every object that existed before the
    call is unchanged, hence the guards map, the configuration and the
    custom checks of the original manager.  Creating a guard on the
    returned manager, or overwriting its guards map, leaves the
    original manager as it was. *)
Theorem forGuard_leaves_original (st : State) (this : loc)
    (f : ManagerFields) (gm : gmap string loc) (c : Config.t)
    (pc : gmap string PermissionCheck) (rc : gmap string RoleCheck)
    (g name : string) (gm2 : gmap string loc) :
  manager_at st this f gm c pc rc ->
  exists m' f' st',
    forGuard this g st = (Return m', st')
    /\ manager_at st' m' f' gm (Config.set_defaultGuard c g) ∅ ∅
    /\ Config.defaultGuard (Config.set_defaultGuard c g) = g
    /\ m' <> this /\ guards f' <> guards f /\ config f' <> config f
    /\ manager_at st' this f gm c pc rc
    /\ (forall l o, objs (heap st) !! l = Some o ->
                    objs (heap st') !! l = Some o)
    /\ (exists l st'',
          createGuard m' name st' = (Return l, st'')
          /\ manager_at st'' m' f' (<[name := l]> gm)
               (Config.set_defaultGuard c g) ∅ ∅
          /\ manager_at st'' this f gm c pc rc)
    /\ (exists st'',
          write (guards f') (GuardMapObj gm2) st' = (Return tt, st'')
          /\ manager_at st'' m' f' gm2 (Config.set_defaultGuard c g) ∅ ∅
          /\ manager_at st'' this f gm c pc rc).
Proof.
  intros H.
  destruct (manager_at_below _ _ _ _ _ _ _ H) as (B1 & B2 & B3 & B4 & B5).
  destruct (forGuard_run _ _ _ _ _ _ _ g H)
    as (st' & Hrun & Hnew & Hold & Hframe & _).
  set (n := next (heap st)) in *.
  assert (Hb : forall l o, objs (heap st) !! l = Some o -> l < n).
  { intros l o Hl. eapply allocated_below; [apply H|exact Hl]. }
  clearbody n.
  exists (4 + n), (mkManager (6 + n) (3 + n) (1 + n) (2 + n)), st'.
  cbn [guards config].
  split; [exact Hrun|]. split; [exact Hnew|]. split; [reflexivity|].
  split; [lia|]. split; [lia|]. split; [lia|]. split; [exact Hold|].
  split.
  { intros l o Hl. rewrite Hframe; [exact Hl|]. now apply (Hb l o). }
  assert (Hin : forall l, In l [this; guards f; config f;
                                customPermissionChecks f; customRoleChecks f] ->
                          l < n).
  { intros l [<-|[<-|[<-|[<-|[<-|[]]]]]]; assumption. }
  split.
  - destruct (createGuard_run _ _ _ _ _ _ _ name Hnew)
      as (st'' & Hcg & Hnew' & _ & Hframe').
    exists (next (heap st')), st''.
    split; [exact Hcg|]. split; [exact Hnew'|].
    apply (manager_at_frame st'); [exact Hold|apply Hnew'|].
    intros l Hl. cbn [guards] in Hframe'. apply Hin in Hl.
    destruct (manager_at_below _ _ _ _ _ _ _ Hnew) as (B1' & _).
    apply Hframe'; lia.
  - eexists. split; [reflexivity|].
    destruct (manager_at_below _ _ _ _ _ _ _ Hnew) as (C1 & C2 & C3 & C4 & C5).
    cbn [guards config customPermissionChecks customRoleChecks] in *.
    assert (Hok : heap_ok
                    (mkHeap (<[6 + n := GuardMapObj gm2]> (objs (heap st')))
                       (next (heap st')))).
    { intros l Hl. cbn [objs next] in *.
      rewrite lookup_insert_ne by lia. now apply Hnew. }
    split.
    + destruct Hnew as [N1 N2 N3 N4 N5 N6].
      cbn [guards config customPermissionChecks customRoleChecks] in *.
      constructor; cbn [heap objs next guards config customPermissionChecks
                        customRoleChecks].
      * rewrite lookup_insert_ne by lia. exact N1.
      * apply lookup_insert_eq.
      * rewrite lookup_insert_ne by lia. exact N3.
      * rewrite lookup_insert_ne by lia. exact N4.
      * rewrite lookup_insert_ne by lia. exact N5.
      * exact Hok.
    + apply (manager_at_frame st'); [exact Hold|exact Hok|].
      intros l Hl. apply Hin in Hl. cbn [heap objs].
      apply lookup_insert_ne. lia.
Qed.

(** C8, checked on a fresh manager: [forGuard("api")] returns object 10
    and leaves the original manager with its map and its default guard. *)
Lemma forGuard_leaves_original_witness :
  fst (PermissionManager.forGuard ManagerExamples.manager "api"
         ManagerExamples.st1) = Return 10
  /\ manager_at
       (snd (PermissionManager.forGuard ManagerExamples.manager "api"
               ManagerExamples.st1))
       ManagerExamples.manager ManagerExamples.fields
       (<["web" := 5]> ∅) (Config.mk false 3600 "web") ∅ ∅.
Proof.
  destruct (forGuard_leaves_original _ _ _ _ _ _ _ "api" "other" ∅
              fresh_manager_at)
    as (m' & f' & st' & Hrun & _ & _ & _ & _ & _ & Hold & _).
  rewrite Hrun. split; [|exact Hold].
  assert (E : fst (PermissionManager.forGuard ManagerExamples.manager "api"
                     ManagerExamples.st1) = Return 10)
    by (vm_compute; reflexivity).
  rewrite Hrun in E. exact E.
Defined.

(** C9: when [g] is not a key of the guards map, the manager returned
    by [forGuard(g)] holds the entries of the original map and nothing
    else, so no guard named [g], while [g] is its default guard: every
    method that resolves the default guard throws
    [GuardNotFoundException] built from [g]. *)
Theorem forGuard_unknown_guard_throws (st : State) (this : loc)
    (f : ManagerFields) (gm : gmap string loc) (c : Config.t)
    (pc : gmap string PermissionCheck) (rc : gmap string RoleCheck)
    (g n : string) :
  manager_at st this f gm c pc rc ->
  gm !! g = None ->
  exists m' f' st',
    forGuard this g st = (Return m', st')
    /\ manager_at st' m' f' gm (Config.set_defaultGuard c g) ∅ ∅
    /\ getGuard m' g st'
       = (Throw (PermissionException.GuardNotFoundException g), st')
    /\ getDefaultGuard m' st'
       = (Throw (PermissionException.GuardNotFoundException g), st')
    /\ createPermission m' n None st'
       = (Throw (PermissionException.GuardNotFoundException g), st')
    /\ createRole m' n None st'
       = (Throw (PermissionException.GuardNotFoundException g), st')
    /\ getPermission m' n None st'
       = (Throw (PermissionException.GuardNotFoundException g), st')
    /\ getRole m' n None st'
       = (Throw (PermissionException.GuardNotFoundException g), st')
    /\ PermissionManager.getAllPermissions m' None st'
       = (Throw (PermissionException.GuardNotFoundException g), st')
    /\ getAllRoles m' None st'
       = (Throw (PermissionException.GuardNotFoundException g), st').
Proof.
  intros H Hg.
  destruct (forGuard_run _ _ _ _ _ _ _ g H) as (st' & Hrun & Hnew & _).
  eexists _, _, st'. split; [exact Hrun|]. split; [exact Hnew|].
  assert (Hget : getGuard (4 + next (heap st)) g st'
                 = (Throw (PermissionException.GuardNotFoundException g), st')).
  { now rewrite (getGuard_run _ _ _ _ _ _ _ g Hnew), Hg. }
  split; [exact Hget|].
  split.
  { unfold getDefaultGuard.
    eapply run_bind; [eapply this_config_run, Hnew|]. exact Hget. }
  repeat split;
    apply (resolved_guard_missing _ _ _ _ _ _ _ None _ Hnew Hg).
Qed.

(** C9, checked on a fresh manager, which has no guard "api". *)
Lemma forGuard_unknown_guard_throws_witness :
  exists m' st',
    PermissionManager.forGuard ManagerExamples.manager "api"
      ManagerExamples.st1 = (Return m', st')
    /\ PermissionManager.getDefaultGuard m' st'
       = (Throw (PermissionException.GuardNotFoundException "api"), st')
    /\ PermissionManager.createPermission m' "edit" None st'
       = (Throw (PermissionException.GuardNotFoundException "api"), st').
Proof.
  destruct (forGuard_unknown_guard_throws _ _ _ _ _ _ _ "api" "edit"
              fresh_manager_at)
    as (m' & f' & st' & Hrun & _ & _ & Hd & Hc & _).
  - reflexivity.
  - exists m', st'. auto.
Defined.

End ManagerRuns.

(** * Further properties *)

(** ** Entities: constructor, [equals], role and guard collections *)

Section Entities.

Arguments JS.or_string : simpl never.
Arguments JS.or_undefined : simpl never.

Lemma Permission_equals_key (p q : Permission.t) :
  Permission.equals p q = true <-> Permission_key p = Permission_key q.
Proof.
  unfold Permission.equals, Permission_key.
  rewrite !andb_true_iff, !String.eqb_eq. split.
  - intros [[-> ->] ->]. reflexivity.
  - intros [= -> -> ->]. auto.
Qed.

Lemma Role_equals_key (r q : Role.t) :
  Role.equals r q = true <-> Role_key r = Role_key q.
Proof.
  unfold Role.equals, Role_key.
  rewrite !andb_true_iff, !String.eqb_eq. split.
  - intros [[-> ->] ->]. reflexivity.
  - intros [= -> -> ->]. auto.
Qed.

Lemma Permission_equals_same_key (p q q' : Permission.t) :
  Permission_key q = Permission_key q' ->
  Permission.equals p q = Permission.equals p q'.
Proof.
  unfold Permission.equals, Permission_key. intros [= -> -> ->]. reflexivity.
Qed.

Lemma Role_equals_same_key (p q q' : Role.t) :
  Role_key q = Role_key q' -> Role.equals p q = Role.equals p q'.
Proof.
  unfold Role.equals, Role_key. intros [= -> -> ->]. reflexivity.
Qed.

(** X1: whatever its argument, the [Permission] constructor yields a
    non-empty guard name (["web"] when none or an empty one is given),
    never an empty description, and both timestamps; a non-empty id is
    kept without a call of [Math.random], an absent or empty one is
    generated by exactly one call; given timestamps are kept. *)
Theorem Permission_new_defaults (data : PartialPermission.t) (w : World) :
  let p := fst (Permission.new data w) in
  let w' := snd (Permission.new data w) in
  Permission.guardName p <> ""
  /\ (JS.or_undefined (PartialPermission.guardName data) = None ->
      Permission.guardName p = "web")
  /\ (forall s, PartialPermission.guardName data = Some s -> s <> "" ->
                Permission.guardName p = s)
  /\ Permission.name p = default "" (PartialPermission.name data)
  /\ Permission.description p <> Some ""
  /\ (forall s, PartialPermission.id data = Some s -> s <> "" ->
                Permission.id p = s /\ random_calls w' = random_calls w)
  /\ (JS.or_undefined (PartialPermission.id data) = None ->
      Permission.id p
      = JS.substr 2 9 (JS.toString36 (random w (random_calls w)))
      /\ random_calls w' = S (random_calls w))
  /\ (forall d, PartialPermission.createdAt data = Some d ->
                Permission.createdAt p = Some d)
  /\ (forall d, PartialPermission.updatedAt data = Some d ->
                Permission.updatedAt p = Some d)
  /\ (exists c u, Permission.createdAt p = Some c
                  /\ Permission.updatedAt p = Some u)
  /\ clock_calls w'
     = clock_calls w
       + match PartialPermission.createdAt data with Some _ => 0 | None => 1 end
       + match PartialPermission.updatedAt data with Some _ => 0 | None => 1 end.
Proof.
  destruct data as [i n g d c u]. unfold Permission.new.
  rewrite !wbind_run. cbn [PartialPermission.id PartialPermission.name
    PartialPermission.guardName PartialPermission.description
    PartialPermission.createdAt PartialPermission.updatedAt
    Permission.id Permission.name Permission.guardName
    Permission.description Permission.createdAt Permission.updatedAt
    wret fst snd].
  split; [now apply or_string_nonempty|].
  split.
  { destruct g as [s|]; [|reflexivity]. unfold JS.or_undefined, JS.or_string.
    now destruct (JS.truthy s). }
  split; [intros s -> Hs; now apply or_string_truthy|].
  split.
  { destruct n as [s|]; [apply or_string_same|reflexivity]. }
  split; [apply or_undefined_not_empty|].
  assert (Hrand : forall x : option JS.Date,
             random_calls (snd (Permission.date_or_now x w)) = random_calls w
             /\ forall w0, random_calls (snd (Permission.date_or_now x w0))
                           = random_calls w0).
  { intros x. split; [|intros w0]; now destruct x. }
  split.
  { intros s -> Hs. rewrite id_or_generate_given by exact Hs.
    split; [reflexivity|]. cbn [snd].
    destruct c, u; reflexivity. }
  split.
  { intros Hi.
    assert (E : Permission.id_or_generate i w = Permission.generateId w).
    { destruct i as [s|]; [|reflexivity]. unfold JS.or_undefined in Hi.
      unfold Permission.id_or_generate. now destruct (JS.truthy s). }
    rewrite E. split; [reflexivity|]. destruct c, u; reflexivity. }
  split; [intros d0 ->; reflexivity|].
  split; [intros d0 ->; reflexivity|].
  split; [eauto|].
  assert (Hclock : clock_calls (snd (Permission.id_or_generate i w))
                   = clock_calls w).
  { destruct i as [s|]; [|reflexivity]. unfold Permission.id_or_generate.
    now destruct (JS.truthy s). }
  destruct c, u; cbn [Permission.date_or_now wret new_Date snd clock_calls];
    rewrite Hclock; lia.
Qed.

Lemma as_instance_key (x : PermissionOrData) (w w' : World) :
  has_identity x ->
  Permission_key (fst (Role.as_instance x w))
  = Permission_key (fst (Role.as_instance x w')).
Proof.
  destruct x as [p|d]; [reflexivity|]. intros Hi. simpl in Hi.
  unfold Role.as_instance, Permission.new.
  rewrite !wbind_run. cbn [PartialPermission.of_interface PartialPermission.id].
  now rewrite !id_or_generate_given by exact Hi.
Qed.

Lemma Role_addPermission_run (r : Role.t) (x : PermissionOrData) (w : World) :
  Role.addPermission r x w
  = (if existsb (fun p => Permission.equals p (fst (Role.as_instance x w)))
          (Role.permissions r)
     then r
     else Role.with_permissions r
            (Role.permissions r ++ [fst (Role.as_instance x w)]),
     snd (Role.as_instance x w)).
Proof. unfold Role.addPermission. now rewrite wbind_run. Qed.

Lemma existsb_equals_same_key (l : list Permission.t) (q q' : Permission.t) :
  Permission_key q = Permission_key q' ->
  existsb (fun p => Permission.equals p q) l
  = existsb (fun p => Permission.equals p q') l.
Proof.
  intros H. induction l as [|p l IH]; [reflexivity|]. simpl.
  now rewrite IH, (Permission_equals_same_key p q q' H).
Qed.

Lemma existsb_equals_last (l : list Permission.t) (p : Permission.t) :
  existsb (fun q => Permission.equals q p) (l ++ [p]) = true.
Proof.
  rewrite existsb_app. simpl. rewrite Permission_equals_refl.
  now rewrite orb_true_r.
Qed.

(** X2: [Role.addPermission] is idempotent for an instance and for a
    plain object with a non-empty id: the second call changes nothing,
    whatever the random numbers and the clock do in between.  After the
    first call [hasPermission] answers yes, and the list is the old one
    with at most one permission appended. *)
Theorem Role_addPermission_idempotent (r : Role.t) (x : PermissionOrData)
    (w w' : World) :
  has_identity x ->
  let r1 := fst (Role.addPermission r x w) in
  let r2 := fst (Role.addPermission r1 x w') in
  r2 = r1
  /\ fst (Role.hasPermission r1 x w') = true
  /\ (exists added, Role.permissions r1 = Role.permissions r ++ added
                    /\ length added <= 1).
Proof.
  intros Hx r1 r2.
  pose proof (as_instance_key x w' w Hx) as Hk.
  assert (Hhas : existsb
                   (fun p => Permission.equals p (fst (Role.as_instance x w')))
                   (Role.permissions r1) = true).
  { rewrite (existsb_equals_same_key _ _ _ Hk). subst r1.
    rewrite Role_addPermission_run. cbn [fst].
    destruct (existsb _ (Role.permissions r)) eqn:E; [exact E|].
    apply existsb_equals_last. }
  split; [|split].
  - subst r2. rewrite Role_addPermission_run. cbn [fst]. now rewrite Hhas.
  - unfold Role.hasPermission. rewrite wbind_run. exact Hhas.
  - subst r1. rewrite Role_addPermission_run. cbn [fst].
    destruct (existsb _ (Role.permissions r)).
    + exists []. rewrite app_nil_r. split; [reflexivity|simpl; lia].
    + exists [fst (Role.as_instance x w)]. split; [reflexivity|simpl; lia].
Qed.

(** X2, checked on the plain object [{ id: 'p1', name: 'edit',
    guardName: 'api' }] added twice to a role without permissions. *)
Lemma Role_addPermission_idempotent_witness :
  fst (Role.addPermission
         (fst (Role.addPermission EntityExamples.empty_role
                 (Plain Examples.edit_api) Examples.w1))
         (Plain Examples.edit_api) Examples.w0)
  = fst (Role.addPermission EntityExamples.empty_role
           (Plain Examples.edit_api) Examples.w1).
Proof.
  apply (Role_addPermission_idempotent EntityExamples.empty_role
           (Plain Examples.edit_api) Examples.w1 Examples.w0).
  simpl. discriminate.
Defined.

Lemma Role_with_permissions_same (r : Role.t) :
  Role.with_permissions r (Role.permissions r) = r.
Proof. now destruct r. Qed.

Lemma filter_not_equals_none (l : list Permission.t) (p : Permission.t) :
  existsb (fun q => Permission.equals q p) l = false ->
  List.filter (fun q => negb (Permission.equals q p)) l = l.
Proof.
  induction l as [|q l IH]; [reflexivity|]. simpl.
  destruct (Permission.equals q p); simpl; [discriminate|].
  intros H. now rewrite IH.
Qed.

Lemma existsb_filter_not_equals (l : list Permission.t) (p : Permission.t) :
  existsb (fun q => Permission.equals q p)
    (List.filter (fun q => negb (Permission.equals q p)) l) = false.
Proof.
  induction l as [|q l IH]; [reflexivity|]. simpl.
  destruct (Permission.equals q p) eqn:Eq; simpl; [exact IH|].
  now rewrite Eq.
Qed.

(** X3: [Role.removePermission] drops exactly the permissions that are
    [equals]-equal to its argument, also those that differ from it in
    description or timestamps, and keeps the others in order;
    [hasPermission] answers no afterwards.  Removing what was just
    added to a role that did not hold it gives the role back. *)
Theorem Role_removePermission_spec (r : Role.t) (x : PermissionOrData)
    (w : World) :
  let p := fst (Role.as_instance x w) in
  let r' := fst (Role.removePermission r x w) in
  Role.permissions r'
  = List.filter (fun q => negb (Permission.equals q p)) (Role.permissions r)
  /\ (forall q, In q (Role.permissions r') <->
                In q (Role.permissions r)
                /\ Permission_key q <> Permission_key p)
  /\ fst (Role.hasPermission r' (Instance p) w) = false
  /\ (fst (Role.hasPermission r (Instance p) w) = false -> r' = r)
  /\ (fst (Role.hasPermission r (Instance p) w) = false ->
      fst (Role.removePermission (fst (Role.addPermission r (Instance p) w))
             (Instance p) w) = r).
Proof.
  intros p r'.
  assert (E : Role.permissions r'
              = List.filter (fun q => negb (Permission.equals q p))
                  (Role.permissions r)).
  { subst r'. unfold Role.removePermission. now rewrite wbind_run. }
  split; [exact E|].
  split.
  { intros q. rewrite E, filter_In, negb_true_iff.
    rewrite <- Permission_equals_key.
    destruct (Permission.equals q p); split; intros [H1 H2];
      split; congruence. }
  split.
  { unfold Role.hasPermission. rewrite wbind_run. cbn [Role.as_instance wret fst].
    rewrite E. apply existsb_filter_not_equals. }
  unfold Role.hasPermission. rewrite wbind_run. cbn [Role.as_instance wret fst].
  split.
  - intros H. subst r'. unfold Role.removePermission. rewrite wbind_run.
    fold p. cbn [wret fst]. rewrite filter_not_equals_none by exact H.
    apply Role_with_permissions_same.
  - intros H. rewrite Role_addPermission_run. cbn [Role.as_instance wret fst].
    rewrite H. unfold Role.removePermission. rewrite wbind_run.
    cbn [Role.as_instance wret fst Role.with_permissions Role.permissions].
    rewrite List.filter_app. simpl. rewrite Permission_equals_refl. simpl.
    rewrite app_nil_r, filter_not_equals_none by exact H.
    now destruct r.
Qed.

Lemma wmap_instances (ps : list Permission.t) (w : World) :
  wmap Role.as_instance (map Instance ps) w = (ps, w).
Proof.
  induction ps as [|p ps IH]; [reflexivity|]. simpl.
  rewrite wbind_run. cbn [wret fst snd]. now rewrite wbind_run, IH.
Qed.

Lemma wmap_length {A B} (f : A -> W B) (l : list A) (w : World) :
  length (fst (wmap f l w)) = length l.
Proof.
  revert w. induction l as [|x l IH]; intros w; [reflexivity|]. simpl.
  rewrite !wbind_run. simpl. now rewrite IH.
Qed.

(** X4: [Role.syncPermissions] replaces the whole list and keeps none
    of the old permissions: the new list has one permission per
    supplied item, instances are stored as they are, and nothing is
    deduplicated, so a list of instances is installed unchanged, also
    when it repeats a permission that [addPermission] would add only
    once; the other properties of the role stay. *)
Theorem Role_syncPermissions_replaces (r r0 : Role.t)
    (xs : list PermissionOrData) (ps : list Permission.t) (w : World) :
  length (Role.permissions (fst (Role.syncPermissions r xs w))) = length xs
  /\ Role.syncPermissions r (map Instance ps) w
     = (Role.with_permissions r ps, w)
  /\ Role.permissions (fst (Role.syncPermissions r xs w))
     = Role.permissions (fst (Role.syncPermissions r0 xs w))
  /\ Role_key (fst (Role.syncPermissions r xs w)) = Role_key r
  /\ (forall p, Role.permissions
                  (fst (Role.syncPermissions r [Instance p; Instance p] w))
                = [p; p]
                /\ Role.permissions
                     (fst (Role.addPermission
                             (fst (Role.addPermission
                                     (Role.with_permissions r [])
                                     (Instance p) w))
                             (Instance p) w))
                   = [p]).
Proof.
  unfold Role.syncPermissions. rewrite !wbind_run. cbn [wret fst].
  split; [apply wmap_length|].
  split; [now rewrite wmap_instances|].
  split; [reflexivity|]. split; [reflexivity|].
  intros p. split; [reflexivity|].
  rewrite !Role_addPermission_run.
  cbn [Role.as_instance wret fst Role.with_permissions Role.permissions
       existsb app].
  now rewrite Permission_equals_refl.
Qed.

Lemma find_app_last {A} (f : A -> bool) (l : list A) (x : A) :
  find f (l ++ [x])
  = match find f l with
    | Some y => Some y
    | None => if f x then Some x else None
    end.
Proof.
  induction l as [|y l IH]; simpl; [reflexivity|].
  now destruct (f y).
Qed.

Lemma existsb_find_name (l : list Permission.t) (p : Permission.t) :
  existsb (fun q => Permission.equals q p) l = true ->
  exists q, find (fun q => String.eqb (Permission.name q) (Permission.name p)) l
            = Some q.
Proof.
  intros H. apply existsb_exists in H. destruct H as (q & Hin & Hq).
  destruct (find _ l) as [q'|] eqn:E; [eauto|].
  apply (find_none _ _ E) in Hin.
  apply Permission_equals_key in Hq. injection Hq as _ Hn _.
  rewrite Hn, String.eqb_refl in Hin. discriminate.
Qed.

Lemma existsb_find_role_name (l : list Role.t) (r : Role.t) :
  existsb (fun q => Role.equals q r) l = true ->
  exists q, find (fun q => String.eqb (Role.name q) (Role.name r)) l = Some q.
Proof.
  intros H. apply existsb_exists in H. destruct H as (q & Hin & Hq).
  destruct (find _ l) as [q'|] eqn:E; [eauto|].
  apply (find_none _ _ E) in Hin.
  apply Role_equals_key in Hq. injection Hq as _ Hn _.
  rewrite Hn, String.eqb_refl in Hin. discriminate.
Qed.

(** X5: after [Guard.addPermission(p)] a lookup by the name of [p]
    always finds a permission of that name: [p] itself when the guard
    held none of that name, the first one it held otherwise.  Every
    lookup that succeeded before gives the same permission, since the
    new one is appended at the end, and lookups of other names are as
    before.  Adding [p] once more changes nothing, and the roles of the
    guard are untouched. *)
Theorem Guard_addPermission_getPermission (g : Guard.t) (p : Permission.t)
    (w w' : World) :
  let g' := fst (Guard.addPermission g (Instance p) w) in
  (exists q, Guard.getPermission g' (Permission.name p) = Some q
             /\ Permission.name q = Permission.name p)
  /\ (Guard.getPermission g (Permission.name p) = None ->
      Guard.getPermission g' (Permission.name p) = Some p)
  /\ (forall n q, Guard.getPermission g n = Some q ->
                  Guard.getPermission g' n = Some q)
  /\ (forall n, n <> Permission.name p ->
                Guard.getPermission g' n = Guard.getPermission g n)
  /\ fst (Guard.addPermission g' (Instance p) w') = g'
  /\ Guard.roles g' = Guard.roles g /\ Guard.name g' = Guard.name g.
Proof.
  intros g'.
  assert (E : g' = if existsb (fun q => Permission.equals q p)
                        (Guard.permissions g)
                   then g
                   else Guard.mk (Guard.name g) (Guard.permissions g ++ [p])
                          (Guard.roles g)).
  { subst g'. unfold Guard.addPermission. now rewrite wbind_run. }
  destruct (existsb _ (Guard.permissions g)) eqn:Hex; rewrite E.
  - destruct (existsb_find_name _ _ Hex) as [q Hq].
    split.
    { exists q. split; [exact Hq|]. apply find_some in Hq.
      now apply String.eqb_eq. }
    split; [unfold Guard.getPermission; congruence|].
    split; [auto|]. split; [auto|].
    split; [|split; reflexivity].
    unfold Guard.addPermission. rewrite wbind_run.
    cbn [Role.as_instance wret fst]. now rewrite Hex.
  - unfold Guard.getPermission. cbn [Guard.permissions Guard.roles Guard.name].
    split.
    { rewrite find_app_last, String.eqb_refl.
      destruct (find _ (Guard.permissions g)) as [q|] eqn:Hq.
      - exists q. split; [reflexivity|]. apply find_some in Hq.
        now apply String.eqb_eq.
      - now exists p. }
    split; [intros H; now rewrite find_app_last, H, String.eqb_refl|].
    split; [intros n q H; now rewrite find_app_last, H|].
    split.
    { intros n Hn. rewrite find_app_last.
      destruct (find _ (Guard.permissions g)); [reflexivity|].
      apply not_eq_sym, String.eqb_neq in Hn. now rewrite Hn. }
    split; [|split; reflexivity].
    unfold Guard.addPermission. rewrite wbind_run.
    cbn [Role.as_instance wret fst Guard.permissions].
    now rewrite existsb_equals_last.
Qed.

Lemma existsb_role_equals_last (l : list Role.t) (r : Role.t) :
  existsb (fun q => Role.equals q r) (l ++ [r]) = true.
Proof.
  rewrite existsb_app. simpl. rewrite Role_equals_refl. now rewrite orb_true_r.
Qed.

(** X6: the same for roles: after [Guard.addRole(r)] a lookup by the
    name of [r] finds a role of that name, [r] itself when the guard
    held none of that name; earlier lookups are unchanged, a second
    [addRole(r)] changes nothing, and the permissions of the guard are
    untouched. *)
Theorem Guard_addRole_getRole (g : Guard.t) (r : Role.t) (w w' : World) :
  let g' := fst (Guard.addRole g (RoleInstance r) w) in
  (exists q, Guard.getRole g' (Role.name r) = Some q
             /\ Role.name q = Role.name r)
  /\ (Guard.getRole g (Role.name r) = None ->
      Guard.getRole g' (Role.name r) = Some r)
  /\ (forall n q, Guard.getRole g n = Some q -> Guard.getRole g' n = Some q)
  /\ (forall n, n <> Role.name r -> Guard.getRole g' n = Guard.getRole g n)
  /\ fst (Guard.addRole g' (RoleInstance r) w') = g'
  /\ Guard.permissions g' = Guard.permissions g
  /\ Guard.name g' = Guard.name g.
Proof.
  intros g'.
  assert (E : g' = if existsb (fun q => Role.equals q r) (Guard.roles g)
                   then g
                   else Guard.mk (Guard.name g) (Guard.permissions g)
                          (Guard.roles g ++ [r])).
  { subst g'. unfold Guard.addRole. now rewrite wbind_run. }
  destruct (existsb _ (Guard.roles g)) eqn:Hex; rewrite E.
  - destruct (existsb_find_role_name _ _ Hex) as [q Hq].
    split.
    { exists q. split; [exact Hq|]. apply find_some in Hq.
      now apply String.eqb_eq. }
    split; [unfold Guard.getRole; congruence|].
    split; [auto|]. split; [auto|].
    split; [|split; reflexivity].
    unfold Guard.addRole. rewrite wbind_run.
    cbn [Guard.as_role wret fst]. now rewrite Hex.
  - unfold Guard.getRole. cbn [Guard.permissions Guard.roles Guard.name].
    split.
    { rewrite find_app_last, String.eqb_refl.
      destruct (find _ (Guard.roles g)) as [q|] eqn:Hq.
      - exists q. split; [reflexivity|]. apply find_some in Hq.
        now apply String.eqb_eq.
      - now exists r. }
    split; [intros H; now rewrite find_app_last, H, String.eqb_refl|].
    split; [intros n q H; now rewrite find_app_last, H|].
    split.
    { intros n Hn. rewrite find_app_last.
      destruct (find _ (Guard.roles g)); [reflexivity|].
      apply not_eq_sym, String.eqb_neq in Hn. now rewrite Hn. }
    split; [|split; reflexivity].
    unfold Guard.addRole. rewrite wbind_run.
    cbn [Guard.as_role wret fst Guard.roles].
    now rewrite existsb_role_equals_last.
Qed.

Lemma wmap_permissions_back (ps : list Permission.t) (w : World) :
  Forall Permission_settled ps ->
  wmap (fun p => Permission.new (PartialPermission.of_interface p))
    (map Permission.toJSON ps) w = (ps, w).
Proof.
  induction 1 as [|p ps [Hn Hi] _ IH]; [reflexivity|]. simpl.
  rewrite wbind_run. fold (Permission.fromJSON (Permission.toJSON p)).
  rewrite Permission_roundtrip by assumption. cbn [fst snd].
  now rewrite wbind_run, IH.
Qed.

Lemma Role_settled_roundtrip (r : Role.t) (w : World) :
  Role_settled r -> Role.fromJSON (Role.toJSON r) w = (r, w).
Proof.
  intros (Hg & Hd & Hc & Hu & Hi & Hp).
  apply Role_roundtrip; try assumption.
  - eapply List.Forall_impl; [|exact Hp]. now intros p [H _].
  - eapply List.Forall_impl; [|exact Hp]. now intros p [_ H].
Qed.

Lemma wmap_roles_back (rs : list Role.t) (w : World) :
  Forall Role_settled rs ->
  wmap (fun r => Role.new (PartialRole.of_interface r))
    (map Role.toJSON rs) w = (rs, w).
Proof.
  induction 1 as [|r rs Hr _ IH]; [reflexivity|]. simpl.
  rewrite wbind_run. fold (Role.fromJSON (Role.toJSON r)).
  rewrite Role_settled_roundtrip by assumption. cbn [fst snd].
  now rewrite wbind_run, IH.
Qed.

(** X7: [Guard.fromJSON(g.toJSON())] rebuilds the guard exactly, name,
    permissions and roles with their nested permissions, and consults
    neither [Math.random] nor the clock, provided every entity in the
    guard is as a constructor leaves it and has a non-empty id. *)
Theorem Guard_roundtrip (g : Guard.t) (w : World) :
  Forall Permission_settled (Guard.permissions g) ->
  Forall Role_settled (Guard.roles g) ->
  Guard_fromJSON (Guard_toJSON g) w = (g, w).
Proof.
  intros Hp Hr. unfold Guard_fromJSON, Guard_toJSON.
  rewrite wbind_run. cbn [IGuard.permissions IGuard.roles IGuard.name].
  rewrite wmap_permissions_back by exact Hp. cbn [fst snd].
  rewrite wbind_run, wmap_roles_back by exact Hr. cbn [fst snd].
  now destruct g.
Qed.

(** X7, checked on a guard with one permission and one role. *)
Lemma Guard_roundtrip_witness :
  Guard_fromJSON (Guard_toJSON EntityExamples.web_guard) Examples.w0
  = (EntityExamples.web_guard, Examples.w0).
Proof.
  apply Guard_roundtrip.
  - repeat constructor; simpl; discriminate.
  - repeat constructor; simpl; discriminate.
Defined.

End Entities.

(** ** [HasPermissionsTrait]: queries, grants and revocations *)

Section SubjectPermissions.

Import HasPermissionsTrait.

Lemma with_permissions_same (s : t) : with_permissions s (permissions s) = s.
Proof. now destruct s. Qed.

Lemma filter_no_direct_match (n k : string) (l : list Permission.t) :
  existsb (direct_match n k) l = false ->
  List.filter (fun p => negb (direct_match n k p)) l = l.
Proof.
  induction l as [|p l IH]; [reflexivity|]. simpl.
  destruct (direct_match n k p); simpl; [discriminate|].
  intros H. now rewrite IH.
Qed.

Lemma existsb_filter_direct_match (n k : string) (l : list Permission.t) :
  existsb (direct_match n k)
    (List.filter (fun p => negb (direct_match n k p)) l) = false.
Proof.
  induction l as [|p l IH]; [reflexivity|]. simpl.
  destruct (direct_match n k p) eqn:E; simpl; [exact IH|]. now rewrite E.
Qed.

Lemma existsb_filter_other_match (n k n' k' : string) (l : list Permission.t) :
  n' <> n \/ k' <> k ->
  existsb (direct_match n' k')
    (List.filter (fun p => negb (direct_match n k p)) l)
  = existsb (direct_match n' k') l.
Proof.
  intros Hne. induction l as [|p l IH]; [reflexivity|]. simpl.
  destruct (direct_match n k p) eqn:E; simpl; [|now rewrite IH].
  rewrite IH. apply direct_match_spec in E. destruct E as [En Ek].
  destruct (direct_match n' k' p) eqn:E'; [|reflexivity].
  apply direct_match_spec in E'. destruct E' as [En' Ek'].
  destruct Hne; congruence.
Qed.

(** X8: [revokePermissionTo] removes exactly the direct permissions
    with the given name and guard and keeps the others in order; roles
    are untouched, so [hasPermission] afterwards is true exactly when a
    role still grants the permission, and every query for another name
    or guard answers as before.  Revoking twice is revoking once, and
    revoking a permission just given to a subject that did not hold it
    gives the subject back. *)
Theorem revokePermissionTo_spec (s : t) (x : PermissionArg)
    (g : option string) (w : World) :
  let k := JS.default_param g "web" in
  let n := permissionName x in
  let s' := revokePermissionTo s x g in
  (forall p, In p (permissions s') <->
             In p (permissions s)
             /\ ~ (Permission.name p = n /\ Permission.guardName p = k))
  /\ roles s' = roles s
  /\ hasPermission s' x g = existsb (role_grants n k) (roles s)
  /\ (forall y g', permissionName y <> n \/ JS.default_param g' "web" <> k ->
                   hasPermission s' y g' = hasPermission s y g')
  /\ revokePermissionTo s' x g = s'
  /\ (hasPermission s x g = false -> s' = s)
  /\ (hasPermission s x g = false -> built_guard x k = k ->
      revokePermissionTo (fst (givePermissionTo s x g w)) x g = s).
Proof.
  intros k n s'.
  split.
  { intros p. unfold s', revokePermissionTo. cbn [permissions with_permissions].
    rewrite filter_In, negb_true_iff. fold k n.
    rewrite <- direct_match_spec.
    destruct (direct_match n k p); split; intros [H1 H2]; split;
      try congruence; exact H1. }
  split; [reflexivity|].
  split.
  { rewrite hasPermission_orb. unfold s', revokePermissionTo.
    cbn [permissions roles with_permissions]. fold k n.
    now rewrite existsb_filter_direct_match. }
  split.
  { intros y g' Hne. rewrite !hasPermission_orb. unfold s', revokePermissionTo.
    cbn [permissions roles with_permissions]. fold k n.
    now rewrite existsb_filter_other_match. }
  split.
  { unfold s', revokePermissionTo. cbn [permissions roles with_permissions].
    fold k n. f_equal. apply filter_no_direct_match.
    apply existsb_filter_direct_match. }
  assert (Hkeep : hasPermission s x g = false ->
                  List.filter (fun p => negb (direct_match n k p))
                    (permissions s) = permissions s).
  { rewrite hasPermission_orb. fold k n. intros H.
    apply orb_false_iff in H. now apply filter_no_direct_match. }
  split.
  { intros H. unfold s', revokePermissionTo. fold k n.
    rewrite (Hkeep H). apply with_permissions_same. }
  intros H Hb. rewrite givePermissionTo_new by exact H.
  unfold revokePermissionTo. fold k n.
  cbn [permissions roles with_permissions].
  rewrite List.filter_app, (Hkeep H). simpl.
  unfold direct_match at 1.
  rewrite make_permission_name, make_permission_guard. fold k n.
  rewrite Hb, !String.eqb_refl. simpl. rewrite app_nil_r.
  now destruct s.
Qed.

(** X9: [hasAnyPermission] is true exactly when some listed permission
    is held and [hasAllPermissions] exactly when every listed one is;
    for the empty list the first answers no and the second yes.  Both
    pass on the resolved guard, so an omitted guard means "web" for
    every item. *)
Theorem hasAny_hasAll_spec (s : t) (xs ys : list PermissionArg)
    (g : option string) :
  (hasAnyPermission s xs g = true <->
     exists x, In x xs /\ hasPermission s x g = true)
  /\ (hasAllPermissions s xs g = true <->
        forall x, In x xs -> hasPermission s x g = true)
  /\ hasAnyPermission s [] g = false
  /\ hasAllPermissions s [] g = true
  /\ (xs <> [] -> hasAllPermissions s xs g = true ->
      hasAnyPermission s xs g = true)
  /\ hasAnyPermission s (xs ++ ys) g
     = hasAnyPermission s xs g || hasAnyPermission s ys g
  /\ hasAllPermissions s (xs ++ ys) g
     = hasAllPermissions s xs g && hasAllPermissions s ys g.
Proof.
  assert (E : forall x, hasPermission s x (Some (JS.default_param g "web"))
                        = hasPermission s x g) by reflexivity.
  unfold hasAnyPermission, hasAllPermissions.
  split; [rewrite existsb_exists; reflexivity|].
  split; [rewrite forallb_forall; reflexivity|].
  split; [reflexivity|]. split; [reflexivity|].
  split.
  { destruct xs as [|x xs']; [congruence|]. intros _. simpl.
    rewrite andb_true_iff. intros [H _]. now rewrite H. }
  split; [apply existsb_app|apply forallb_app].
Qed.

(** X10: [hasPermission(x, g)] is true exactly when
    [getAllPermissions(g)] lists a permission with the name of [x]. *)
Theorem hasPermission_iff_listed (s : t) (x : PermissionArg)
    (g : option string) :
  hasPermission s x g = true <->
  exists p, In p (getAllPermissions s g)
            /\ perm_name p = permissionName x.
Proof.
  set (k := JS.default_param g "web").
  set (n := permissionName x).
  set (direct := map Instance (getDirectPermissions s (Some k))).
  set (inherited := flat_map (role_permissions_for k) (roles s)).
  assert (Hall : hasPermission s x g = true <->
                 exists q, In q (direct ++ inherited) /\ perm_name q = n).
  { rewrite hasPermission_orb, orb_true_iff, roles_grant_spec. fold k n.
    rewrite existsb_exists. split.
    - intros [(p & Hin & Hm)|(role & ps & p & Hr & E & Hp & Hn & Hg)].
      + apply direct_match_spec in Hm. destruct Hm as [Hn Hg].
        exists (Instance p). split; [|exact Hn].
        apply in_app_iff. left. apply in_map.
        apply filter_In. split; [exact Hin|]. now apply String.eqb_eq.
      + exists p. split; [|exact Hn]. apply in_app_iff. right.
        apply role_permissions_for_spec. exists role, ps. tauto.
    - intros (q & Hin & Hn). apply in_app_iff in Hin.
      destruct Hin as [Hin|Hin].
      + left. apply in_map_iff in Hin. destruct Hin as (p & <- & Hp).
        apply filter_In in Hp. destruct Hp as [Hp Hg].
        apply String.eqb_eq in Hg. exists p. split; [exact Hp|].
        now apply direct_match_spec.
      + right. apply role_permissions_for_spec in Hin.
        destruct Hin as (role & ps & Hr & E & Hp & Hg).
        exists role, ps, q. tauto. }
  rewrite Hall. unfold getAllPermissions. fold k direct inherited.
  fold (unique_by_name (direct ++ inherited) []). split.
  - intros (q & Hin & Hn).
    destruct (last_named_exists _ _ Hin) as [p Hp].
    destruct (last_named_In _ _ _ Hp) as [_ Hpn].
    exists p. split; [|congruence].
    apply values_unique_by_name. now rewrite Hpn.
  - intros (p & Hin & Hn). exists p. split; [|exact Hn].
    apply values_unique_by_name in Hin. now apply last_named_In in Hin.
Qed.

(** X11: [givePermissionTo] never removes a direct permission, never
    touches the roles and appends at most one permission, so whatever
    was held is still held.  The permission is held for the guard of
    the call afterwards when the permission built from the argument
    carries that guard: always for a name with a non-empty guard, and
    for an entity tagged with that guard.  Otherwise the call leaves
    the answer of [hasPermission] for that guard as it was: a name
    given for the empty guard is stored under "web". *)
Theorem givePermissionTo_grants (s : t) (x : PermissionArg)
    (g : option string) (w : World) :
  let k := JS.default_param g "web" in
  let s' := fst (givePermissionTo s x g w) in
  roles s' = roles s
  /\ (exists added, permissions s' = permissions s ++ added
                    /\ length added <= 1)
  /\ (forall y g', hasPermission s y g' = true ->
                   hasPermission s' y g' = true)
  /\ (built_guard x k = k -> hasPermission s' x g = true)
  /\ (built_guard x k <> k -> hasPermission s' x g = hasPermission s x g)
  /\ (forall n, x = ByName n -> k <> "" -> hasPermission s' x g = true)
  /\ (forall n, x = ByName n -> k = "" ->
                hasPermission s' x g = hasPermission s x g
                /\ (hasPermission s x g = false ->
                    hasPermission s' x (Some "web") = true)).
Proof.
  intros k s'.
  assert (E : s' = if hasPermission s x (Some k) then s
                   else with_permissions s
                          (permissions s ++ [fst (make_permission x k w)])).
  { subst s'. now rewrite givePermissionTo_run. }
  assert (Hr : roles s' = roles s).
  { rewrite E. now destruct (hasPermission s x (Some k)). }
  assert (Hp : exists added, permissions s' = permissions s ++ added
                             /\ length added <= 1).
  { rewrite E. destruct (hasPermission s x (Some k)).
    - exists []. rewrite app_nil_r. split; [reflexivity|simpl; lia].
    - eexists [_]. split; [reflexivity|simpl; lia]. }
  assert (Hyes : built_guard x k = k -> hasPermission s' x g = true).
  { intros Hb. unfold s'. now apply (givePermissionTo_holds s x k w) in Hb. }
  assert (Hno : built_guard x k <> k ->
                hasPermission s' x g = hasPermission s x g).
  { intros Hb. rewrite E. change (hasPermission s x g)
      with (hasPermission s x (Some k)).
    destruct (hasPermission s x (Some k)) eqn:Hh; [exact Hh|].
    change (hasPermission ?a x g) with (hasPermission a x (Some k)).
    rewrite hasPermission_after_append by apply make_permission_name.
    rewrite Hh, make_permission_guard. simpl. now apply String.eqb_neq. }
  split; [exact Hr|]. split; [exact Hp|].
  split.
  { intros y g' Hy. destruct Hp as (added & Hp & _).
    now apply (hasPermission_grows s s' added). }
  split; [exact Hyes|]. split; [exact Hno|].
  split.
  { intros n -> Hk. apply Hyes. simpl. now apply or_string_truthy. }
  intros n -> Hk.
  assert (Hb : built_guard (ByName n) k = "web").
  { simpl. rewrite Hk. reflexivity. }
  split.
  { apply Hno. rewrite Hb, Hk. discriminate. }
  intros Hh. rewrite E. change (hasPermission s (ByName n) g)
    with (hasPermission s (ByName n) (Some k)) in Hh. rewrite Hh.
  rewrite hasPermission_after_append by apply make_permission_name.
  rewrite make_permission_guard, Hb. apply orb_true_r.
Qed.

End SubjectPermissions.

(** ** [HasRolesTrait] *)

Section SubjectRoles.

Import HasRolesTrait.

Arguments JS.or_string : simpl never.
Arguments JS.or_undefined : simpl never.

Lemma role_match_spec (n k : string) (r : Role.t) :
  role_match n k r = true <-> Role.name r = n /\ Role.guardName r = k.
Proof.
  unfold role_match. rewrite andb_true_iff, !String.eqb_eq. reflexivity.
Qed.

Lemma make_role_name (x : RoleArg) (k : string) (w : World) :
  Role.name (fst (make_role x k w)) = roleName x.
Proof.
  destruct x as [n|e]; unfold make_role, Role.new;
    rewrite !wbind_run; simpl; apply or_string_same.
Qed.

Lemma make_role_guard (x : RoleArg) (k : string) (w : World) :
  Role.guardName (fst (make_role x k w)) = role_built_guard x k.
Proof.
  destruct x as [n|e]; unfold make_role, Role.new;
    rewrite !wbind_run; reflexivity.
Qed.

Lemma assignRole_run (s : t) (x : RoleArg) (g : option string) (w : World) :
  assignRole s x g w
  = (if hasRole s x (Some (JS.default_param g "web"))
     then s
     else mk (roles s ++ [fst (make_role x (JS.default_param g "web") w)]),
     snd (make_role x (JS.default_param g "web") w)).
Proof.
  unfold assignRole. rewrite wbind_run. unfold wret. f_equal.
  unfold hasRole. cbn [roleName Role_as_interface IRole.name JS.default_param].
  rewrite make_role_name.
  now destruct (existsb _ (roles s)).
Qed.

Lemma hasRole_after_append (s : t) (x : RoleArg) (k : string) (r : Role.t) :
  Role.name r = roleName x ->
  hasRole (mk (roles s ++ [r])) x (Some k)
  = hasRole s x (Some k) || String.eqb (Role.guardName r) k.
Proof.
  intros Hn. unfold hasRole. cbn [roles JS.default_param].
  rewrite existsb_app. simpl. unfold role_match at 2.
  now rewrite Hn, String.eqb_refl, orb_false_r.
Qed.

Lemma hasRole_grows (s : t) (added : list Role.t) (x : RoleArg)
    (g : option string) :
  hasRole s x g = true -> hasRole (mk (roles s ++ added)) x g = true.
Proof.
  unfold hasRole. cbn [roles]. rewrite existsb_app. intros ->. reflexivity.
Qed.

(** X12: [hasRole] is true exactly when an assigned role carries the
    asked name and guard.  [assignRole] appends at most one role and
    removes none.  When the role it builds carries the guard of the
    call, the role is held afterwards and a second call changes
    nothing; when it carries another guard (an entity tagged with
    another guard, or a name given for the empty guard, which is stored
    under "web"), the role is not held for the guard of the call and
    every call appends one more role. *)
Theorem assignRole_spec (s : t) (x : RoleArg) (g : option string)
    (w w' : World) :
  let k := JS.default_param g "web" in
  let s' := fst (assignRole s x g w) in
  let s'' := fst (assignRole s' x g w') in
  (hasRole s x g = true <->
     exists r, In r (roles s) /\ Role.name r = roleName x
               /\ Role.guardName r = k)
  /\ (exists added, roles s' = roles s ++ added /\ length added <= 1)
  /\ (forall y g', hasRole s y g' = true -> hasRole s' y g' = true)
  /\ (hasRole s x g = true -> s' = s)
  /\ (role_built_guard x k = k -> hasRole s' x g = true /\ s'' = s')
  /\ (role_built_guard x k <> k -> hasRole s x g = false ->
      hasRole s' x g = false
      /\ length (roles s'') = S (S (length (roles s)))).
Proof.
  intros k s' s''.
  assert (E : s' = if hasRole s x (Some k) then s
                   else mk (roles s ++ [fst (make_role x k w)])).
  { unfold s'. now rewrite assignRole_run. }
  assert (E' : s'' = if hasRole s' x (Some k) then s'
                     else mk (roles s' ++ [fst (make_role x k w')])).
  { unfold s''. now rewrite assignRole_run. }
  change (hasRole s x g) with (hasRole s x (Some k)).
  change (hasRole s' x g) with (hasRole s' x (Some k)).
  split.
  { unfold hasRole. rewrite existsb_exists. cbn [JS.default_param].
    split; intros (r & Hin & H); exists r; split; try exact Hin;
      now apply role_match_spec. }
  split.
  { rewrite E. destruct (hasRole s x (Some k)).
    - exists []. rewrite app_nil_r. split; [reflexivity|simpl; lia].
    - eexists [_]. split; [reflexivity|simpl; lia]. }
  split.
  { intros y g' Hy. rewrite E. destruct (hasRole s x (Some k)); [exact Hy|].
    now apply hasRole_grows. }
  split; [intros H; now rewrite E, H|].
  split.
  { intros Hb.
    assert (Hh : hasRole s' x (Some k) = true).
    { rewrite E. destruct (hasRole s x (Some k)) eqn:Hs; [exact Hs|].
      rewrite hasRole_after_append by apply make_role_name.
      rewrite make_role_guard, Hb, String.eqb_refl. apply orb_true_r. }
    split; [exact Hh|]. now rewrite E', Hh. }
  intros Hb Hs.
  assert (Hh : hasRole s' x (Some k) = false).
  { rewrite E, Hs. rewrite hasRole_after_append by apply make_role_name.
    rewrite Hs, make_role_guard. simpl. now apply String.eqb_neq. }
  split; [exact Hh|].
  rewrite E', Hh, E, Hs. cbn [roles]. rewrite !length_app. simpl. lia.
Qed.

Lemma assign_all_grows (k : string) (xs : list RoleArg) (s : t) (w : World) :
  exists added,
    roles (fst (wfold (fun role cur => assignRole cur role (Some k)) xs s w))
    = roles s ++ added
    /\ Forall (role_built_from xs k) added.
Proof.
  revert s w. induction xs as [|x xs IH]; intros s w; simpl.
  - exists []. now rewrite app_nil_r.
  - rewrite wbind_run, assignRole_run. cbn [JS.default_param fst snd].
    assert (Hb' : forall added, Forall (role_built_from xs k) added ->
                                Forall (role_built_from (x :: xs) k) added).
    { intros added Hb. eapply List.Forall_impl; [|exact Hb].
      intros r (y & w0 & Hy & ->). exists y, w0.
      split; [now right|reflexivity]. }
    destruct (hasRole s x (Some k)).
    + destruct (IH s (snd (make_role x k w))) as (added & Hp & Hb).
      exists added. split; [exact Hp|now apply Hb'].
    + destruct (IH (mk (roles s ++ [fst (make_role x k w)]))
                   (snd (make_role x k w))) as (added & Hp & Hb).
      exists (fst (make_role x k w) :: added).
      split; [cbn [roles] in Hp; now rewrite Hp, <- app_assoc|].
      constructor; [|now apply Hb'].
      exists x, w. split; [now left|reflexivity].
Qed.

Lemma assign_all_holds (k : string) (xs : list RoleArg) (s : t) (w : World)
    (x : RoleArg) :
  In x xs -> role_built_guard x k = k ->
  hasRole (fst (wfold (fun role cur => assignRole cur role (Some k)) xs s w))
    x (Some k) = true.
Proof.
  revert s w. induction xs as [|y xs IH]; intros s w Hin Hb; [destruct Hin|].
  simpl. rewrite wbind_run.
  destruct Hin as [->|Hin]; [|now apply IH].
  destruct (assign_all_grows k xs (fst (assignRole s x (Some k) w))
              (snd (assignRole s x (Some k) w))) as (added & Hp & _).
  destruct (fst (wfold _ xs _ _)) as [rs]. cbn [roles] in Hp. subst rs.
  apply hasRole_grows.
  rewrite assignRole_run. cbn [JS.default_param fst].
  destruct (hasRole s x (Some k)) eqn:Hs; [exact Hs|].
  rewrite hasRole_after_append by apply make_role_name.
  rewrite make_role_guard, Hb, String.eqb_refl. apply orb_true_r.
Qed.

(** X13: [removeRole] drops exactly the roles with the given name and
    guard, after which [hasRole] answers no.  [syncRoles] for the guard
    [k] keeps, in place, every role of another guard, drops every role
    of [k] and appends only roles built from the supplied list; with an
    empty list nothing is appended.  When each supplied item yields a
    role of guard [k], every supplied role is held afterwards, the
    roles of every other guard are exactly what they were, and every
    role of guard [k] comes from the supplied list. *)
Theorem removeRole_syncRoles_spec (s : t) (x : RoleArg)
    (xs : list RoleArg) (g : option string) (w : World) :
  let k := JS.default_param g "web" in
  let kept :=
    List.filter (fun r => negb (String.eqb (Role.guardName r) k)) (roles s) in
  let s' := fst (syncRoles s xs g w) in
  (forall r, In r (roles (removeRole s x g)) <->
             In r (roles s)
             /\ ~ (Role.name r = roleName x /\ Role.guardName r = k))
  /\ hasRole (removeRole s x g) x g = false
  /\ (exists added, roles s' = kept ++ added
                    /\ Forall (role_built_from xs k) added)
  /\ (xs = [] -> roles s' = kept)
  /\ (forall y, In y xs -> role_built_guard y k = k ->
                hasRole s' y (Some k) = true)
  /\ (Forall (fun y => role_built_guard y k = k) xs ->
      (forall g1, g1 <> k -> getRoles s' (Some g1) = getRoles s (Some g1))
      /\ (forall r, In r (getRoles s' (Some k)) -> role_built_from xs k r)).
Proof.
  intros k kept s'.
  split.
  { intros r. unfold removeRole. cbn [roles]. fold k.
    rewrite filter_In, negb_true_iff, <- role_match_spec.
    destruct (role_match (roleName x) k r); split; intros [H1 H2]; split;
      try congruence; exact H1. }
  split.
  { unfold hasRole, removeRole. cbn [roles]. fold k.
    induction (roles s) as [|r l IH]; [reflexivity|]. simpl.
    destruct (role_match (roleName x) k r) eqn:E; simpl; [exact IH|].
    now rewrite E. }
  destruct (assign_all_grows k xs (mk kept) w) as (added & Hp & Hb).
  change (roles s' = kept ++ added) in Hp.
  split; [exists added; now split|].
  split; [intros ->; reflexivity|].
  split; [intros y Hy Hby; now apply (assign_all_holds k xs (mk kept) w)|].
  intros Hall.
  assert (Hg : Forall (fun r => Role.guardName r = k) added).
  { eapply List.Forall_impl; [|exact Hb].
    intros r (y & w0 & Hy & ->). rewrite make_role_guard.
    rewrite List.Forall_forall in Hall. now apply Hall. }
  split.
  - intros g1 Hne. unfold getRoles. cbn [JS.default_param].
    rewrite Hp, List.filter_app.
    assert (E : List.filter (fun r => String.eqb (Role.guardName r) g1) added
                = []).
    { clear Hp Hb. induction Hg as [|r added Hr _ IH]; [reflexivity|].
      simpl. rewrite Hr. apply not_eq_sym, String.eqb_neq in Hne.
      now rewrite Hne. }
    rewrite E, app_nil_r. subst kept.
    clear - Hne. induction (roles s) as [|r l IH]; [reflexivity|]. simpl.
    destruct (String.eqb (Role.guardName r) k) eqn:Ek; simpl.
    + apply String.eqb_eq in Ek.
      destruct (String.eqb (Role.guardName r) g1) eqn:E1; [|exact IH].
      apply String.eqb_eq in E1. congruence.
    + now rewrite IH.
  - intros r Hr. unfold getRoles in Hr. cbn [JS.default_param] in Hr.
    apply filter_In in Hr. destruct Hr as [Hin Hrk].
    rewrite Hp in Hin. apply in_app_iff in Hin. destruct Hin as [Hin|Hin].
    + subst kept. apply filter_In in Hin. destruct Hin as [_ Hn].
      rewrite Hrk in Hn. discriminate.
    + rewrite List.Forall_forall in Hb. now apply Hb.
Qed.

End SubjectRoles.

(** ** The manager: guards, created entities, custom checks *)

Section ManagerMore.

Import PermissionManager.

Ltac lookup_in_heap :=
  cbn [heap objs next world calls guards config customPermissionChecks
       customRoleChecks set_guards with_world with_object];
  repeat first
    [ rewrite lookup_insert_eq
    | rewrite lookup_insert_ne by (first [lia | congruence | assumption]) ];
  first [reflexivity | eassumption].

Ltac run_read :=
  first
    [ apply read_manager_run; lookup_in_heap
    | apply read_guard_map_run; lookup_in_heap
    | apply read_guard_run; lookup_in_heap
    | apply read_config_run; lookup_in_heap
    | apply read_permission_checks_run; lookup_in_heap
    | apply read_role_checks_run; lookup_in_heap
    | reflexivity ].

Ltac mrun :=
  eapply run_bind; [run_read|];
  cbn [heap objs next world calls guards config customPermissionChecks
       customRoleChecks set_guards].

Lemma lift_world_run {A} (m : W A) (st : State) :
  lift_world m st = (Return (fst (m (world st))),
                     with_world st (snd (m (world st)))).
Proof. unfold lift_world, with_world. now destruct (m (world st)). Qed.

(** Writing a guard object leaves a manager in place. *)
Lemma manager_at_guard_written (st : State) (this : nat) (f : ManagerFields)
    (gm : gmap string nat) (c : Config.t) (pc : gmap string PermissionCheck)
    (rc : gmap string RoleCheck) (l : nat) (gd gd' : Guard.t) (w : World) :
  manager_at st this f gm c pc rc ->
  objs (heap st) !! l = Some (GuardObj gd) ->
  manager_at (with_object (with_world st w) l (GuardObj gd')) this f gm c pc rc.
Proof.
  intros [H1 H2 H3 H4 H5 H6] Hl.
  assert (Hlt : l < next (heap st)) by (eapply allocated_below; eassumption).
  assert (D : l <> this /\ l <> guards f /\ l <> config f
              /\ l <> customPermissionChecks f /\ l <> customRoleChecks f).
  { repeat split; intros E; rewrite E in *; congruence. }
  destruct D as (D1 & D2 & D3 & D4 & D5).
  constructor; cbn [with_object with_world heap objs next];
    try (rewrite lookup_insert_ne by assumption; assumption).
  intros l' Hl'. cbn [next objs] in *.
  rewrite lookup_insert_ne by lia. now apply H6.
Qed.

Lemma createPermission_run (st : State) (this : nat) (f : ManagerFields)
    (gm : gmap string nat) (c : Config.t) (pc : gmap string PermissionCheck)
    (rc : gmap string RoleCheck) (n : string) (g : option string)
    (l : nat) (gd : Guard.t) :
  manager_at st this f gm c pc rc ->
  gm !! JS.or_string g (Config.defaultGuard c) = Some l ->
  objs (heap st) !! l = Some (GuardObj gd) ->
  let made := Permission.new (created_permission n (Guard.name gd)) (world st) in
  let gd' :=
    if existsb (fun q => Permission.equals q (fst made)) (Guard.permissions gd)
    then gd
    else Guard.mk (Guard.name gd) (Guard.permissions gd ++ [fst made])
           (Guard.roles gd) in
  createPermission this n g st
  = (Return (fst made),
     with_object (with_world st (snd made)) l (GuardObj gd')).
Proof.
  intros H Hg Hl made gd'. unfold createPermission.
  eapply run_bind; [eapply resolve_guard_run, H|].
  eapply run_bind;
    [rewrite (getGuard_run _ _ _ _ _ _ _ _ H), Hg; reflexivity|].
  eapply run_bind; [apply read_guard_run; exact Hl|].
  eapply run_bind; [apply lift_world_run|].
  eapply run_bind; [apply lift_world_run|].
  fold (created_permission n (Guard.name gd)). fold made.
  unfold Guard.addPermission. rewrite wbind_run.
  cbn [Role.as_instance wret fst snd with_world world heap calls].
  eapply run_bind; [reflexivity|]. reflexivity.
Qed.

Lemma createRole_run (st : State) (this : nat) (f : ManagerFields)
    (gm : gmap string nat) (c : Config.t) (pc : gmap string PermissionCheck)
    (rc : gmap string RoleCheck) (n : string) (g : option string)
    (l : nat) (gd : Guard.t) :
  manager_at st this f gm c pc rc ->
  gm !! JS.or_string g (Config.defaultGuard c) = Some l ->
  objs (heap st) !! l = Some (GuardObj gd) ->
  let made := Role.new (created_role n (Guard.name gd)) (world st) in
  let gd' :=
    if existsb (fun q => Role.equals q (fst made)) (Guard.roles gd)
    then gd
    else Guard.mk (Guard.name gd) (Guard.permissions gd)
           (Guard.roles gd ++ [fst made]) in
  createRole this n g st
  = (Return (fst made),
     with_object (with_world st (snd made)) l (GuardObj gd')).
Proof.
  intros H Hg Hl made gd'. unfold createRole.
  eapply run_bind; [eapply resolve_guard_run, H|].
  eapply run_bind;
    [rewrite (getGuard_run _ _ _ _ _ _ _ _ H), Hg; reflexivity|].
  eapply run_bind; [apply read_guard_run; exact Hl|].
  eapply run_bind; [apply lift_world_run|].
  eapply run_bind; [apply lift_world_run|].
  fold (created_role n (Guard.name gd)). fold made.
  unfold Guard.addRole. rewrite wbind_run.
  cbn [Guard.as_role wret fst snd with_world world heap calls].
  eapply run_bind; [reflexivity|]. reflexivity.
Qed.

Lemma added_permission_lookup (l : list Permission.t) (p : Permission.t) :
  let l' := if existsb (fun q => Permission.equals q p) l then l
            else l ++ [p] in
  (exists q, find (fun q => String.eqb (Permission.name q) (Permission.name p)) l'
             = Some q /\ Permission.name q = Permission.name p)
  /\ (find (fun q => String.eqb (Permission.name q) (Permission.name p)) l = None ->
      find (fun q => String.eqb (Permission.name q) (Permission.name p)) l'
      = Some p)
  /\ (forall n q, find (fun q => String.eqb (Permission.name q) n) l = Some q ->
                  find (fun q => String.eqb (Permission.name q) n) l' = Some q)
  /\ (exists q, In q l' /\ Permission.equals q p = true)
  /\ (forall q, In q l -> In q l').
Proof.
  intros l'. subst l'. destruct (existsb _ l) eqn:Hex.
  - destruct (existsb_find_name _ _ Hex) as [q Hq].
    split.
    { exists q. split; [exact Hq|]. apply find_some in Hq.
      now apply String.eqb_eq. }
    split; [congruence|]. split; [auto|].
    split; [|auto]. apply existsb_exists in Hex.
    destruct Hex as (q' & Hin & He). eauto.
  - split.
    { rewrite find_app_last, String.eqb_refl.
      destruct (find _ l) as [q|] eqn:Hq.
      - exists q. split; [reflexivity|]. apply find_some in Hq.
        now apply String.eqb_eq.
      - now exists p. }
    split; [intros H; now rewrite find_app_last, H, String.eqb_refl|].
    split; [intros n q H; now rewrite find_app_last, H|].
    split.
    + exists p. split; [apply in_app_iff; right; now left|].
      apply Permission_equals_refl.
    + intros q Hq. apply in_app_iff. now left.
Qed.

Lemma added_role_lookup (l : list Role.t) (r : Role.t) :
  let l' := if existsb (fun q => Role.equals q r) l then l else l ++ [r] in
  (exists q, find (fun q => String.eqb (Role.name q) (Role.name r)) l' = Some q
             /\ Role.name q = Role.name r)
  /\ (find (fun q => String.eqb (Role.name q) (Role.name r)) l = None ->
      find (fun q => String.eqb (Role.name q) (Role.name r)) l' = Some r)
  /\ (forall n q, find (fun q => String.eqb (Role.name q) n) l = Some q ->
                  find (fun q => String.eqb (Role.name q) n) l' = Some q)
  /\ (exists q, In q l' /\ Role.equals q r = true)
  /\ (forall q, In q l -> In q l').
Proof.
  intros l'. subst l'. destruct (existsb _ l) eqn:Hex.
  - destruct (existsb_find_role_name _ _ Hex) as [q Hq].
    split.
    { exists q. split; [exact Hq|]. apply find_some in Hq.
      now apply String.eqb_eq. }
    split; [congruence|]. split; [auto|].
    split; [|auto]. apply existsb_exists in Hex.
    destruct Hex as (q' & Hin & He). eauto.
  - split.
    { rewrite find_app_last, String.eqb_refl.
      destruct (find _ l) as [q|] eqn:Hq.
      - exists q. split; [reflexivity|]. apply find_some in Hq.
        now apply String.eqb_eq.
      - now exists r. }
    split; [intros H; now rewrite find_app_last, H, String.eqb_refl|].
    split; [intros n q H; now rewrite find_app_last, H|].
    split.
    + exists r. split; [apply in_app_iff; right; now left|].
      apply Role_equals_refl.
    + intros q Hq. apply in_app_iff. now left.
Qed.

Lemma created_permission_name (n k : string) (w : World) :
  Permission.name (fst (Permission.new (created_permission n k) w)) = n
  /\ Permission.guardName (fst (Permission.new (created_permission n k) w))
     = JS.or_string (Some k) "web".
Proof.
  unfold Permission.new. rewrite !wbind_run. simpl.
  split; [apply or_string_same|reflexivity].
Qed.

Lemma created_role_name (n k : string) (w : World) :
  Role.name (fst (Role.new (created_role n k) w)) = n
  /\ Role.guardName (fst (Role.new (created_role n k) w))
     = JS.or_string (Some k) "web"
  /\ Role.permissions (fst (Role.new (created_role n k) w)) = [].
Proof.
  unfold Role.new. rewrite !wbind_run. simpl.
  split; [apply or_string_same|split; reflexivity].
Qed.

Lemma getAllPermissions_run (st : State) (this : nat) (f : ManagerFields)
    (gm : gmap string nat) (c : Config.t) (pc : gmap string PermissionCheck)
    (rc : gmap string RoleCheck) (g : option string) (l : nat) (gd : Guard.t) :
  manager_at st this f gm c pc rc ->
  gm !! JS.or_string g (Config.defaultGuard c) = Some l ->
  objs (heap st) !! l = Some (GuardObj gd) ->
  PermissionManager.getAllPermissions this g st
  = (Return (Guard.permissions gd), st)
  /\ getAllRoles this g st = (Return (Guard.roles gd), st).
Proof.
  intros H Hg Hl. unfold PermissionManager.getAllPermissions, getAllRoles.
  now rewrite !(resolved_guard_found _ _ _ _ _ _ _ g l gd _ H Hg Hl).
Qed.

(** X14: [createPermission(n, g)] on a registered guard returns a
    permission named [n] and tagged with the guard's name (["web"] for
    a guard whose name is empty), leaves the manager and its other
    objects in place, and registers the permission in the guard unless
    the guard holds an [equals]-equal one.  Afterwards
    [getPermission(n, g)] never throws: it returns the first permission
    of that name, which is the new one when the guard held none;
    earlier lookups give what they gave, and [getAllPermissions(g)]
    lists the earlier permissions and one equal to the new one. *)
Theorem createPermission_then_getPermission (st : State) (this : nat)
    (f : ManagerFields) (gm : gmap string nat) (c : Config.t)
    (pc : gmap string PermissionCheck) (rc : gmap string RoleCheck)
    (n : string) (g : option string) (l : nat) (gd : Guard.t) :
  manager_at st this f gm c pc rc ->
  gm !! JS.or_string g (Config.defaultGuard c) = Some l ->
  objs (heap st) !! l = Some (GuardObj gd) ->
  exists p st',
    createPermission this n g st = (Return p, st')
    /\ Permission.name p = n
    /\ Permission.guardName p = JS.or_string (Some (Guard.name gd)) "web"
    /\ manager_at st' this f gm c pc rc
    /\ calls st' = calls st
    /\ (exists q, getPermission this n g st' = (Return q, st')
                  /\ Permission.name q = n)
    /\ (Guard.getPermission gd n = None ->
        getPermission this n g st' = (Return p, st'))
    /\ (forall n' q, Guard.getPermission gd n' = Some q ->
                     getPermission this n' g st' = (Return q, st'))
    /\ (exists ps, PermissionManager.getAllPermissions this g st'
                   = (Return ps, st')
                   /\ (exists q, In q ps /\ Permission.equals q p = true)
                   /\ (forall q, In q (Guard.permissions gd) -> In q ps)).
Proof.
  intros H Hg Hl.
  pose proof (createPermission_run _ _ _ _ _ _ _ n g l gd H Hg Hl) as Hrun.
  cbv zeta in Hrun.
  set (made := Permission.new (created_permission n (Guard.name gd)) (world st))
    in *.
  set (gd' := if existsb (fun q => Permission.equals q (fst made))
                   (Guard.permissions gd)
              then gd
              else Guard.mk (Guard.name gd) (Guard.permissions gd ++ [fst made])
                     (Guard.roles gd)) in *.
  set (st' := with_object (with_world st (snd made)) l (GuardObj gd')) in *.
  destruct (created_permission_name n (Guard.name gd) (world st)) as [Hn Hk].
  fold made in Hn, Hk.
  assert (Hat : manager_at st' this f gm c pc rc)
    by (eapply manager_at_guard_written; eassumption).
  assert (Hl' : objs (heap st') !! l = Some (GuardObj gd'))
    by apply lookup_insert_eq.
  assert (Hps : Guard.permissions gd'
                = if existsb (fun q => Permission.equals q (fst made))
                       (Guard.permissions gd)
                  then Guard.permissions gd
                  else Guard.permissions gd ++ [fst made]).
  { subst gd'. now destruct (existsb _ (Guard.permissions gd)). }
  destruct (added_permission_lookup (Guard.permissions gd) (fst made))
    as (F1 & F2 & F3 & F4 & F5).
  cbv zeta in F1, F2, F3, F4, F5. rewrite <- Hps, Hn in *.
  pose proof (getPermission_run _ _ _ _ _ _ _ n g l gd' Hat Hg Hl') as Hget.
  exists (fst made), st'.
  split; [exact Hrun|]. split; [exact Hn|]. split; [exact Hk|].
  split; [exact Hat|]. split; [reflexivity|].
  split.
  { destruct F1 as (q & Hq & Hqn). exists q. split; [|exact Hqn].
    rewrite Hget. unfold Guard.getPermission. now rewrite Hq. }
  split.
  { intros Hnone. rewrite Hget. unfold Guard.getPermission in *.
    now rewrite (F2 Hnone). }
  split.
  { intros n' q Hq.
    rewrite (getPermission_run _ _ _ _ _ _ _ n' g l gd' Hat Hg Hl').
    unfold Guard.getPermission in *. now rewrite (F3 n' q Hq). }
  exists (Guard.permissions gd').
  split; [apply (getAllPermissions_run _ _ _ _ _ _ _ g l gd' Hat Hg Hl')|].
  split; [exact F4|exact F5].
Qed.

(** X14, checked on a fresh manager: [createPermission("edit")] puts
    the permission into the default guard "web". *)
Lemma createPermission_then_getPermission_witness :
  exists p st',
    PermissionManager.createPermission ManagerExamples.manager "edit" None
      ManagerExamples.st1 = (Return p, st')
    /\ Permission.guardName p = "web"
    /\ PermissionManager.getPermission ManagerExamples.manager "edit" None st'
       = (Return p, st').
Proof.
  destruct (createPermission_then_getPermission _ _ _ _ _ _ _ "edit" None 5
              (Guard.new "web") fresh_manager_at)
    as (p & st' & Hc & _ & Hk & _ & _ & _ & Hg & _);
    [reflexivity|reflexivity|].
  exists p, st'. split; [exact Hc|]. split; [exact Hk|].
  apply Hg. reflexivity.
Defined.

(** X15: the same for roles: [createRole(n, g)] on a registered guard
    returns a role named [n], tagged with the guard's name and without
    permissions; afterwards [getRole(n, g)] never throws and returns
    the first role of that name, the new one when the guard held none;
    earlier lookups are unchanged and [getAllRoles(g)] lists the
    earlier roles and one equal to the new one. *)
Theorem createRole_then_getRole (st : State) (this : nat)
    (f : ManagerFields) (gm : gmap string nat) (c : Config.t)
    (pc : gmap string PermissionCheck) (rc : gmap string RoleCheck)
    (n : string) (g : option string) (l : nat) (gd : Guard.t) :
  manager_at st this f gm c pc rc ->
  gm !! JS.or_string g (Config.defaultGuard c) = Some l ->
  objs (heap st) !! l = Some (GuardObj gd) ->
  exists r st',
    createRole this n g st = (Return r, st')
    /\ Role.name r = n
    /\ Role.guardName r = JS.or_string (Some (Guard.name gd)) "web"
    /\ Role.permissions r = []
    /\ manager_at st' this f gm c pc rc
    /\ (exists q, getRole this n g st' = (Return q, st') /\ Role.name q = n)
    /\ (Guard.getRole gd n = None -> getRole this n g st' = (Return r, st'))
    /\ (forall n' q, Guard.getRole gd n' = Some q ->
                     getRole this n' g st' = (Return q, st'))
    /\ (exists rs, getAllRoles this g st' = (Return rs, st')
                   /\ (exists q, In q rs /\ Role.equals q r = true)
                   /\ (forall q, In q (Guard.roles gd) -> In q rs)).
Proof.
  intros H Hg Hl.
  pose proof (createRole_run _ _ _ _ _ _ _ n g l gd H Hg Hl) as Hrun.
  cbv zeta in Hrun.
  set (made := Role.new (created_role n (Guard.name gd)) (world st)) in *.
  set (gd' := if existsb (fun q => Role.equals q (fst made)) (Guard.roles gd)
              then gd
              else Guard.mk (Guard.name gd) (Guard.permissions gd)
                     (Guard.roles gd ++ [fst made])) in *.
  set (st' := with_object (with_world st (snd made)) l (GuardObj gd')) in *.
  destruct (created_role_name n (Guard.name gd) (world st)) as (Hn & Hk & Hp).
  fold made in Hn, Hk, Hp.
  assert (Hat : manager_at st' this f gm c pc rc)
    by (eapply manager_at_guard_written; eassumption).
  assert (Hl' : objs (heap st') !! l = Some (GuardObj gd'))
    by apply lookup_insert_eq.
  assert (Hrs : Guard.roles gd'
                = if existsb (fun q => Role.equals q (fst made)) (Guard.roles gd)
                  then Guard.roles gd
                  else Guard.roles gd ++ [fst made]).
  { subst gd'. now destruct (existsb _ (Guard.roles gd)). }
  destruct (added_role_lookup (Guard.roles gd) (fst made))
    as (F1 & F2 & F3 & F4 & F5).
  cbv zeta in F1, F2, F3, F4, F5. rewrite <- Hrs, Hn in *.
  pose proof (getRole_run _ _ _ _ _ _ _ n g l gd' Hat Hg Hl') as Hget.
  exists (fst made), st'.
  split; [exact Hrun|]. split; [exact Hn|]. split; [exact Hk|].
  split; [exact Hp|]. split; [exact Hat|].
  split.
  { destruct F1 as (q & Hq & Hqn). exists q. split; [|exact Hqn].
    rewrite Hget. unfold Guard.getRole. now rewrite Hq. }
  split.
  { intros Hnone. rewrite Hget. unfold Guard.getRole in *.
    now rewrite (F2 Hnone). }
  split.
  { intros n' q Hq.
    rewrite (getRole_run _ _ _ _ _ _ _ n' g l gd' Hat Hg Hl').
    unfold Guard.getRole in *. now rewrite (F3 n' q Hq). }
  exists (Guard.roles gd').
  split; [apply (getAllPermissions_run _ _ _ _ _ _ _ g l gd' Hat Hg Hl')|].
  split; [exact F4|exact F5].
Qed.

(** X15, checked on a fresh manager. *)
Lemma createRole_then_getRole_witness :
  exists r st',
    PermissionManager.createRole ManagerExamples.manager "admin" None
      ManagerExamples.st1 = (Return r, st')
    /\ Role.guardName r = "web"
    /\ PermissionManager.getRole ManagerExamples.manager "admin" None st'
       = (Return r, st').
Proof.
  destruct (createRole_then_getRole _ _ _ _ _ _ _ "admin" None 5
              (Guard.new "web") fresh_manager_at)
    as (r & st' & Hc & _ & Hk & _ & _ & _ & Hg & _);
    [reflexivity|reflexivity|].
  exists r, st'. split; [exact Hc|]. split; [exact Hk|].
  apply Hg. reflexivity.
Defined.

Lemma new_run_guard (cfg : PermissionManagerConfig.t) (st : State) :
  heap_ok (heap st) ->
  let n := next (heap st) in
  let d := Config.defaultGuard (Config.merge cfg) in
  exists st',
    new cfg st = (Return (4 + n), st')
    /\ manager_at st' (4 + n) (mkManager n (3 + n) (1 + n) (2 + n))
         (<[d := 5 + n]> ∅) (Config.merge cfg) ∅ ∅
    /\ objs (heap st') !! (5 + n) = Some (GuardObj (Guard.new d))
    /\ (forall l, l < n -> objs (heap st') !! l = objs (heap st) !! l).
Proof.
  intros Hok n d. eexists. split.
  - unfold new. do 5 mrun.
    eapply run_bind; [|reflexivity].
    unfold createGuard. do 4 mrun. reflexivity.
  - cbn [heap objs next world calls]. fold n d.
    split; [|split].
    + constructor; try lookup_in_heap.
      intros l Hl. cbn [heap objs next] in *.
      repeat rewrite lookup_insert_ne by lia. apply Hok. lia.
    + lookup_in_heap.
    + intros l Hl. now repeat rewrite lookup_insert_ne by lia.
Qed.

(** X16: [new PermissionManager(config)] registers one guard, named
    after the configured default guard (["web"] when the configuration
    names none), and nothing else: [getDefaultGuard] returns that
    guard, it holds no permission and no role, every other guard name
    is unknown, and no object that existed before is changed. *)
Theorem new_registers_default_guard (cfg : PermissionManagerConfig.t)
    (st : State) :
  heap_ok (heap st) ->
  let d := default "web" (PermissionManagerConfig.defaultGuard cfg) in
  exists this l st',
    new cfg st = (Return this, st')
    /\ getDefaultGuard this st' = (Return l, st')
    /\ getGuard this d st' = (Return l, st')
    /\ objs (heap st') !! l = Some (GuardObj (Guard.new d))
    /\ PermissionManager.getAllPermissions this None st' = (Return [], st')
    /\ getAllRoles this None st' = (Return [], st')
    /\ (forall n, n <> d ->
          getGuard this n st'
          = (Throw (PermissionException.GuardNotFoundException n), st'))
    /\ (forall l0 o, objs (heap st) !! l0 = Some o ->
                     objs (heap st') !! l0 = Some o).
Proof.
  intros Hok d.
  destruct (new_run_guard cfg st Hok) as (st' & Hnew & Hat & Hl & Hframe).
  cbv zeta in Hat, Hl. change (Config.defaultGuard (Config.merge cfg)) with d in *.
  set (n := next (heap st)) in *.
  assert (Hd : (<[d := 5 + n]> (∅ : gmap string nat)) !! d = Some (5 + n))
    by apply lookup_insert_eq.
  exists (4 + n), (5 + n), st'.
  split; [exact Hnew|].
  assert (Hget : getGuard (4 + n) d st' = (Return (5 + n), st')).
  { now rewrite (getGuard_run _ _ _ _ _ _ _ d Hat), Hd. }
  split.
  { unfold getDefaultGuard.
    eapply run_bind; [eapply this_config_run, Hat|]. exact Hget. }
  split; [exact Hget|]. split; [exact Hl|].
  destruct (getAllPermissions_run _ _ _ _ _ _ _ None (5 + n) (Guard.new d)
              Hat Hd Hl) as [Hp Hr].
  split; [exact Hp|]. split; [exact Hr|].
  split.
  - intros n' Hn'. rewrite (getGuard_run _ _ _ _ _ _ _ n' Hat).
    rewrite lookup_insert_ne by congruence. now rewrite lookup_empty.
  - intros l0 o Hl0. rewrite Hframe; [exact Hl0|].
    eapply allocated_below; eassumption.
Qed.

(** X16, checked on the empty heap. *)
Lemma new_registers_default_guard_witness :
  exists this l st',
    PermissionManager.new PermissionManagerConfig.empty Examples.st0
    = (Return this, st')
    /\ PermissionManager.getDefaultGuard this st' = (Return l, st')
    /\ objs (heap st') !! l = Some (GuardObj (Guard.new "web")).
Proof.
  destruct (new_registers_default_guard PermissionManagerConfig.empty
              Examples.st0 heap_ok_empty)
    as (this & l & st' & H1 & H2 & _ & H3 & _).
  exists this, l, st'. auto.
Defined.

(** X17: [createGuard(name)] always installs a new, empty guard under
    the name, also when the name is taken: [getGuard(name)] returns the
    new guard, and whatever the earlier guard of that name held is no
    longer found through the manager, [getPermission] and [getRole]
    for that guard throw their not-found exceptions for every name.
    Guards of other names and every object other than the guards map
    are as before. *)
Theorem createGuard_overwrites (st : State) (this : nat)
    (f : ManagerFields) (gm : gmap string nat) (c : Config.t)
    (pc : gmap string PermissionCheck) (rc : gmap string RoleCheck)
    (name : string) :
  manager_at st this f gm c pc rc ->
  exists l st',
    createGuard this name st = (Return l, st')
    /\ manager_at st' this f (<[name := l]> gm) c pc rc
    /\ getGuard this name st' = (Return l, st')
    /\ objs (heap st') !! l = Some (GuardObj (Guard.new name))
    /\ objs (heap st) !! l = None
    /\ (forall n', n' <> name ->
          getGuard this n' st' = (fst (getGuard this n' st), st'))
    /\ (forall l0 o, l0 <> guards f -> objs (heap st) !! l0 = Some o ->
                     objs (heap st') !! l0 = Some o)
    /\ (name <> "" ->
        PermissionManager.getAllPermissions this (Some name) st'
        = (Return [], st')
        /\ getAllRoles this (Some name) st' = (Return [], st')
        /\ (forall n,
              getPermission this n (Some name) st'
              = (Throw (PermissionException.PermissionNotFoundException n), st')
              /\ getRole this n (Some name) st'
                 = (Throw (PermissionException.RoleNotFoundException n), st'))).
Proof.
  intros H.
  destruct (createGuard_run _ _ _ _ _ _ _ name H)
    as (st' & Hrun & Hat & Hl & Hframe).
  set (l := next (heap st)) in *.
  assert (Hin : (<[name := l]> gm) !! name = Some l) by apply lookup_insert_eq.
  exists l, st'.
  split; [exact Hrun|]. split; [exact Hat|].
  split; [now rewrite (getGuard_run _ _ _ _ _ _ _ name Hat), Hin|].
  split; [exact Hl|].
  split; [apply H; unfold l; lia|].
  split.
  { intros n' Hn'. rewrite (getGuard_run _ _ _ _ _ _ _ n' Hat).
    rewrite (getGuard_run _ _ _ _ _ _ _ n' H). cbn [fst].
    now rewrite lookup_insert_ne by congruence. }
  split.
  { intros l0 o Hne Hl0. rewrite Hframe; [exact Hl0|exact Hne|].
    eapply allocated_below; [apply H|exact Hl0]. }
  intros Hname.
  assert (Hk : (<[name := l]> gm) !! JS.or_string (Some name) (Config.defaultGuard c)
               = Some l).
  { now rewrite or_string_truthy by exact Hname. }
  destruct (getAllPermissions_run _ _ _ _ _ _ _ (Some name) l (Guard.new name)
              Hat Hk Hl) as [Hp Hr].
  split; [exact Hp|]. split; [exact Hr|].
  intros n.
  rewrite (getPermission_run _ _ _ _ _ _ _ n (Some name) l _ Hat Hk Hl).
  rewrite (getRole_run _ _ _ _ _ _ _ n (Some name) l _ Hat Hk Hl).
  split; reflexivity.
Qed.

(** X17, checked on a fresh manager: a second guard "web" replaces the
    default one. *)
Lemma createGuard_overwrites_witness :
  exists l st',
    PermissionManager.createGuard ManagerExamples.manager "web"
      ManagerExamples.st1 = (Return l, st')
    /\ PermissionManager.getGuard ManagerExamples.manager "web" st'
       = (Return l, st')
    /\ objs (heap ManagerExamples.st1) !! l = None.
Proof.
  destruct (createGuard_overwrites _ _ _ _ _ _ _ "web" fresh_manager_at)
    as (l & st' & H1 & _ & H2 & _ & H3 & _).
  exists l, st'. auto.
Defined.

(** X18: the manager returned by [forGuard] shares its guard objects
    with the original manager: a permission created through it in a
    guard of the original manager is found through the original
    manager, although the original manager did not find it before. *)
Theorem forGuard_shares_guards (st : State) (this : nat)
    (f : ManagerFields) (gm : gmap string nat) (c : Config.t)
    (pc : gmap string PermissionCheck) (rc : gmap string RoleCheck)
    (g k n : string) (l : nat) (gd : Guard.t) :
  manager_at st this f gm c pc rc ->
  k <> "" -> gm !! k = Some l ->
  objs (heap st) !! l = Some (GuardObj gd) ->
  exists m' st1 p st2,
    forGuard this g st = (Return m', st1)
    /\ m' <> this
    /\ createPermission m' n (Some k) st1 = (Return p, st2)
    /\ Permission.name p = n
    /\ manager_at st2 this f gm c pc rc
    /\ (exists q, getPermission this n (Some k) st2 = (Return q, st2)
                  /\ Permission.name q = n)
    /\ (Guard.getPermission gd n = None ->
        getPermission this n (Some k) st
        = (Throw (PermissionException.PermissionNotFoundException n), st)
        /\ getPermission this n (Some k) st2 = (Return p, st2)).
Proof.
  intros H Hk Hg Hl.
  assert (Hlt : l < next (heap st))
    by (eapply allocated_below; [apply H|exact Hl]).
  destruct (manager_at_below _ _ _ _ _ _ _ H) as (B1 & _).
  destruct (forGuard_run _ _ _ _ _ _ _ g H)
    as (st1 & Hrun & Hnew & Hold & Hframe & _).
  cbv zeta in Hnew.
  assert (Hl1 : objs (heap st1) !! l = Some (GuardObj gd))
    by (rewrite Hframe by exact Hlt; exact Hl).
  assert (Hk' : forall d, gm !! JS.or_string (Some k) d = Some l).
  { intros d. now rewrite or_string_truthy by exact Hk. }
  pose proof (createPermission_run _ _ _ _ _ _ _ n (Some k) l gd Hnew
                (Hk' _) Hl1) as Hc.
  cbv zeta in Hc.
  set (made := Permission.new (created_permission n (Guard.name gd)) (world st1))
    in *.
  set (gd' := if existsb (fun q => Permission.equals q (fst made))
                   (Guard.permissions gd)
              then gd
              else Guard.mk (Guard.name gd) (Guard.permissions gd ++ [fst made])
                     (Guard.roles gd)) in *.
  set (st2 := with_object (with_world st1 (snd made)) l (GuardObj gd')) in *.
  destruct (created_permission_name n (Guard.name gd) (world st1)) as [Hn _].
  fold made in Hn.
  assert (Hat2 : manager_at st2 this f gm c pc rc)
    by (eapply manager_at_guard_written; eassumption).
  assert (Hl2 : objs (heap st2) !! l = Some (GuardObj gd'))
    by apply lookup_insert_eq.
  assert (Hps : Guard.permissions gd'
                = if existsb (fun q => Permission.equals q (fst made))
                       (Guard.permissions gd)
                  then Guard.permissions gd
                  else Guard.permissions gd ++ [fst made]).
  { subst gd'. now destruct (existsb _ (Guard.permissions gd)). }
  destruct (added_permission_lookup (Guard.permissions gd) (fst made))
    as (F1 & F2 & _).
  cbv zeta in F1, F2. rewrite <- Hps, Hn in *.
  pose proof (getPermission_run _ _ _ _ _ _ _ n (Some k) l gd' Hat2
                (Hk' _) Hl2) as Hget.
  exists (4 + next (heap st)), st1, (fst made), st2.
  split; [exact Hrun|]. split; [lia|]. split; [exact Hc|].
  split; [exact Hn|]. split; [exact Hat2|].
  split.
  { destruct F1 as (q & Hq & Hqn). exists q. split; [|exact Hqn].
    rewrite Hget. unfold Guard.getPermission. now rewrite Hq. }
  intros Hnone. split.
  - rewrite (getPermission_run _ _ _ _ _ _ _ n (Some k) l gd H (Hk' _) Hl).
    now rewrite Hnone.
  - rewrite Hget. unfold Guard.getPermission in *. now rewrite (F2 Hnone).
Qed.

(** X18, checked on a fresh manager and its guard "web". *)
Lemma forGuard_shares_guards_witness :
  exists m' st1 p st2,
    PermissionManager.forGuard ManagerExamples.manager "api"
      ManagerExamples.st1 = (Return m', st1)
    /\ PermissionManager.createPermission m' "edit" (Some "web") st1
       = (Return p, st2)
    /\ PermissionManager.getPermission ManagerExamples.manager "edit"
         (Some "web") st2 = (Return p, st2).
Proof.
  destruct (forGuard_shares_guards _ _ _ _ _ _ _ "api" "web" "edit" 5
              (Guard.new "web") fresh_manager_at)
    as (m' & st1 & p & st2 & H1 & _ & H2 & _ & _ & _ & H3);
    [discriminate|reflexivity|reflexivity|].
  exists m', st1, p, st2. split; [exact H1|]. split; [exact H2|].
  apply H3. reflexivity.
Defined.

(** X19: custom checks are kept per key and per kind: a second
    [registerPermissionCheck] under a key replaces the first, a
    registration under another key or a [registerRoleCheck] leaves the
    answer of [checkPermission] for the key as it was. *)
Theorem registerPermissionCheck_last_wins (st : State) (this : nat)
    (f : ManagerFields) (gm : gmap string nat) (c : Config.t)
    (pc : gmap string PermissionCheck) (rc : gmap string RoleCheck)
    (key : string) (fn1 fn2 : PermissionCheck) (rfn : RoleCheck)
    (u : PermissionUser) (x : PermissionArg) (g : option string) :
  manager_at st this f gm c pc rc ->
  let k := JS.or_string g (Config.defaultGuard c) in
  let n := HasPermissionsTrait.permissionName x in
  exists st1 st2 st3,
    registerPermissionCheck this key fn1 st = (Return tt, st1)
    /\ registerPermissionCheck this key fn2 st1 = (Return tt, st2)
    /\ registerRoleCheck this key rfn st = (Return tt, st3)
    /\ manager_at st2 this f gm c (<[key := fn2]> pc) rc
    /\ (k = key ->
        fst (checkPermission this u x g st1) = Return (fn1 u n k)
        /\ fst (checkPermission this u x g st2) = Return (fn2 u n k))
    /\ (k <> key ->
        fst (checkPermission this u x g st2)
        = fst (checkPermission this u x g st))
    /\ fst (checkPermission this u x g st3)
       = fst (checkPermission this u x g st).
Proof.
  intros H k n.
  destruct (registerPermissionCheck_run _ _ _ _ _ _ _ key fn1 H)
    as (st1 & Hr1 & Hat1 & _).
  destruct (registerPermissionCheck_run _ _ _ _ _ _ _ key fn2 Hat1)
    as (st2 & Hr2 & Hat2 & _).
  destruct (registerRoleCheck_run _ _ _ _ _ _ _ key rfn H)
    as (st3 & Hr3 & Hat3 & _).
  rewrite insert_insert_eq in Hat2.
  exists st1, st2, st3.
  split; [exact Hr1|]. split; [exact Hr2|]. split; [exact Hr3|].
  split; [exact Hat2|].
  rewrite (checkPermission_run _ _ _ _ _ _ _ u x g H).
  rewrite (checkPermission_run _ _ _ _ _ _ _ u x g Hat1).
  rewrite (checkPermission_run _ _ _ _ _ _ _ u x g Hat2).
  rewrite (checkPermission_run _ _ _ _ _ _ _ u x g Hat3).
  cbv zeta. fold k n.
  split; [|split].
  - intros <-. now rewrite !lookup_insert_eq.
  - intros Hne. rewrite lookup_insert_ne by congruence.
    now destruct (pc !! k).
  - now destruct (pc !! k).
Qed.

(** X19, checked on a fresh manager: two checks registered under
    "custom", the second of which answers yes. *)
Lemma registerPermissionCheck_last_wins_witness :
  exists st1 st2,
    PermissionManager.registerPermissionCheck ManagerExamples.manager "custom"
      (fun _ _ _ => false) ManagerExamples.st1 = (Return tt, st1)
    /\ PermissionManager.registerPermissionCheck ManagerExamples.manager
         "custom" Examples.always st1 = (Return tt, st2)
    /\ fst (PermissionManager.checkPermission ManagerExamples.manager
              Examples.denied (ByName "x") (Some "custom") st2)
       = Return true.
Proof.
  destruct (registerPermissionCheck_last_wins _ _ _ _ _ _ _ "custom"
              (fun _ _ _ => false) Examples.always (fun _ _ _ => false)
              Examples.denied (ByName "x") (Some "custom") fresh_manager_at)
    as (st1 & st2 & st3 & H1 & H2 & _ & _ & H3 & _).
  exists st1, st2. split; [exact H1|]. split; [exact H2|].
  apply H3. reflexivity.
Defined.

End ManagerMore.

(** ** The service container *)

Section ContainerFacts.

Context {V F P : Type}.
Variable call : F -> Container.t V F P -> Container.Result V F P.

Lemma Container_has_false (a : string) (c : Container.t V F P) :
  Container.has a c = false <->
  Container.services c !! a = None /\ Container.singletons c !! a = None.
Proof.
  unfold Container.has. rewrite orb_false_iff, !bool_decide_eq_false.
  rewrite <- !eq_None_not_Some. reflexivity.
Qed.

(** X20: [resolve] throws the "not found" error, leaving the container
    as it is, when the name is neither bound nor a singleton, that is
    when [has] answers no; it throws in no other case unless the
    registered function itself throws.  [bind] and [singleton] make
    [has] answer yes, and after [clear] every name is unknown. *)
Theorem Container_resolve_unknown (a : string) (c : Container.t V F P)
    (x : Container.Concrete V F) :
  (Container.has a c = false ->
   Container.resolve call a c = Container.Threw (Container.not_found a) c)
  /\ (forall m c', Container.resolve call a c = Container.Threw m c' ->
        (Container.has a c = false /\ m = Container.not_found a /\ c' = c)
        \/ (exists fn, (Container.singletons c !! a = Some (Container.Function fn)
                        \/ Container.services c !! a
                           = Some (Container.Function fn))
                       /\ call fn c = Container.Threw m c'))
  /\ Container.has a (Container.bind a x c) = true
  /\ Container.has a (Container.singleton a x c) = true
  /\ Container.has a (Container.clear c) = false
  /\ Container.resolve call a (Container.clear c)
     = Container.Threw (Container.not_found a) (Container.clear c).
Proof.
  split.
  { intros H. apply Container_has_false in H. destruct H as [Hs Hg].
    unfold Container.resolve. now rewrite Hg, Hs. }
  split.
  { intros m c' H. unfold Container.resolve in H.
    destruct (Container.singletons c !! a) as [[v|fn]|] eqn:Hg.
    - discriminate.
    - right. exists fn. split; [now left|].
      destruct (call fn c); [discriminate|exact H].
    - destruct (Container.services c !! a) as [[v|fn]|] eqn:Hs.
      + discriminate.
      + right. exists fn. split; [now right|exact H].
      + left. injection H as <- <-.
        split; [now apply Container_has_false|split; reflexivity]. }
  split.
  { unfold Container.has, Container.bind. cbn [Container.services].
    rewrite lookup_insert_eq. rewrite bool_decide_eq_true_2 by eauto.
    reflexivity. }
  split.
  { unfold Container.has, Container.singleton. cbn [Container.singletons].
    rewrite lookup_insert_eq.
    rewrite (bool_decide_eq_true_2 (is_Some (Some x))) by eauto.
    apply orb_true_r. }
  split; [apply Container_has_false; split; apply lookup_empty|].
  unfold Container.resolve, Container.clear. cbn.
  now rewrite !lookup_empty.
Qed.

(** X21: a singleton registered as a function is built once: the first
    [resolve] calls the function and stores what it returned under the
    name, so that, when this is not a function itself, every later
    [resolve] returns it and changes nothing.  When the function
    returns a function, that one is stored and called by the next
    [resolve].  A function registered with [bind] is called by every
    [resolve], which stores nothing. *)
Theorem Container_singleton_built_once (a : string)
    (c c1 : Container.t V F P) (fn fn' : F) (v : V) :
  Container.singletons c !! a = Some (Container.Function fn) ->
  (call fn c = Container.Returned (Container.Value v) c1 ->
   let c2 := Container.singleton a (Container.Value v) c1 in
   Container.resolve call a c = Container.Returned (Container.Value v) c2
   /\ Container.resolve call a c2 = Container.Returned (Container.Value v) c2)
  /\ (call fn c = Container.Returned (Container.Function fn') c1 ->
      let c2 := Container.singleton a (Container.Function fn') c1 in
      Container.resolve call a c
      = Container.Returned (Container.Function fn') c2
      /\ Container.resolve call a c2
         = match call fn' c2 with
           | Container.Returned instance c3 =>
               Container.Returned instance (Container.singleton a instance c3)
           | Container.Threw m c3 => Container.Threw m c3
           end)
  /\ (forall c0 : Container.t V F P,
        Container.singletons c0 !! a = None ->
        Container.services c0 !! a = Some (Container.Function fn) ->
        Container.resolve call a c0 = call fn c0).
Proof.
  intros Hs. split; [|split].
  - intros Hc c2. unfold Container.resolve at 1. rewrite Hs, Hc.
    split; [reflexivity|].
    unfold Container.resolve, c2, Container.singleton.
    cbn [Container.singletons]. now rewrite lookup_insert_eq.
  - intros Hc c2. unfold Container.resolve at 1. rewrite Hs, Hc.
    split; [reflexivity|].
    unfold Container.resolve, c2, Container.singleton.
    cbn [Container.singletons]. now rewrite lookup_insert_eq.
  - intros c0 Hn Hb. unfold Container.resolve. now rewrite Hn, Hb.
Qed.

End ContainerFacts.

(** X21, checked on the factory [7] registered as singleton "config". *)
Lemma Container_singleton_built_once_witness :
  Container.resolve ContainerExamples.constant "config"
    ContainerExamples.one_singleton
  = Container.Returned (Container.Value 7)
      (Container.singleton "config" (Container.Value 7)
         ContainerExamples.one_singleton).
Proof.
  destruct (Container_singleton_built_once ContainerExamples.constant "config"
              ContainerExamples.one_singleton ContainerExamples.one_singleton
              7 7 7) as (H & _).
  - apply lookup_insert_eq.
  - apply H. reflexivity.
Defined.

Section ContainerOrder.

Context {V F P : Type}.
Variable call : F -> Container.t V F P -> Container.Result V F P.

(** X22: a singleton hides a binding of the same name, whichever was
    registered first; among bindings, and among singletons, the last
    registration of a name wins; registrations under other names do
    not change what a name resolves to when it holds a value. *)
Theorem Container_registration_order (a b : string)
    (c : Container.t V F P) (v v' : V) (x : Container.Concrete V F) :
  Container.resolve call a
    (Container.bind a x (Container.singleton a (Container.Value v) c))
  = Container.Returned (Container.Value v)
      (Container.bind a x (Container.singleton a (Container.Value v) c))
  /\ Container.resolve call a
       (Container.singleton a (Container.Value v) (Container.bind a x c))
     = Container.Returned (Container.Value v)
         (Container.singleton a (Container.Value v) (Container.bind a x c))
  /\ (Container.singletons c !! a = None ->
      Container.resolve call a
        (Container.bind a (Container.Value v') (Container.bind a x c))
      = Container.Returned (Container.Value v')
          (Container.bind a (Container.Value v') (Container.bind a x c)))
  /\ Container.resolve call a
       (Container.singleton a (Container.Value v')
          (Container.singleton a x c))
     = Container.Returned (Container.Value v')
         (Container.singleton a (Container.Value v')
            (Container.singleton a x c))
  /\ (a <> b ->
      Container.resolve call a
        (Container.bind b x
           (Container.singleton b x
              (Container.singleton a (Container.Value v) c)))
      = Container.Returned (Container.Value v)
          (Container.bind b x
             (Container.singleton b x
                (Container.singleton a (Container.Value v) c)))).
Proof.
  unfold Container.resolve, Container.bind, Container.singleton.
  cbn [Container.services Container.singletons Container.providers].
  split; [now rewrite lookup_insert_eq|].
  split; [now rewrite lookup_insert_eq|].
  split; [intros Hn; now rewrite Hn, lookup_insert_eq|].
  split; [now rewrite lookup_insert_eq|].
  intros Hne. rewrite lookup_insert_ne by congruence.
  now rewrite lookup_insert_eq.
Qed.

End ContainerOrder.

(** ** The in-memory repositories *)

Section Repository.

Context {E : Type}.
Variable guardName_of : E -> option string.
Variable name_of : E -> string.

Local Abbreviation key_of e :=
  (InMemoryRepository.key (JS_template (guardName_of e)) (name_of e)).
Local Abbreviation save := (InMemoryRepository.save guardName_of name_of).
Local Abbreviation run := (InMemoryRepository.run guardName_of name_of).
Local Abbreviation stored_under_own_key :=
  (InMemoryRepository.stored_under_own_key guardName_of name_of).

Lemma JSMap_get_delete_same (k : string) (m : JSMap.t E) :
  JSMap.get k (JSMap_delete k m) = None.
Proof.
  unfold JSMap_delete. induction m as [|[k0 v0] m IH]; simpl; [reflexivity|].
  destruct (String.eqb k0 k) eqn:Ek; simpl; [exact IH|].
  now rewrite Ek.
Qed.

Lemma JSMap_get_delete_other (k k' : string) (m : JSMap.t E) :
  k <> k' -> JSMap.get k' (JSMap_delete k m) = JSMap.get k' m.
Proof.
  intros Hne. unfold JSMap_delete.
  induction m as [|[k0 v0] m IH]; simpl; [reflexivity|].
  destruct (String.eqb k0 k) eqn:Ek; simpl.
  - apply String.eqb_eq in Ek. subst k0.
    apply String.eqb_neq in Hne. now rewrite Hne.
  - now rewrite IH.
Qed.

Lemma JSMap_delete_incl (k : string) (m : JSMap.t E) (kv : string * E) :
  In kv (JSMap_delete k m) -> In kv m.
Proof. unfold JSMap_delete. rewrite List.filter_In. tauto. Qed.

Lemma JSMap_delete_NoDup (k : string) (m : JSMap.t E) :
  List.NoDup (JSMap.keys m) -> List.NoDup (JSMap.keys (JSMap_delete k m)).
Proof.
  unfold JSMap_delete, JSMap.keys.
  induction m as [|[k0 v0] m IH]; simpl; intros H; [constructor|].
  inversion H as [|? ? Hnot Hnd]; subst.
  destruct (String.eqb k0 k); simpl; [now apply IH|].
  constructor; [|now apply IH].
  intros Hin. apply Hnot. apply in_map_iff in Hin.
  destruct Hin as (kv & Hk & Hkv). apply List.filter_In in Hkv.
  apply in_map_iff. exists kv. tauto.
Qed.

Lemma JSMap_set_In (k : string) (v : E) (m : JSMap.t E) (kv : string * E) :
  In kv (JSMap.set k v m) -> kv = (k, v) \/ In kv m.
Proof.
  induction m as [|[k0 v0] m IH]; simpl.
  - intros [<-|[]]. now left.
  - destruct (String.eqb k0 k); simpl.
    + intros [<-|H]; [now left|right; now right].
    + intros [<-|H]; [right; now left|].
      destruct (IH H); [now left|right; now right].
Qed.

Lemma run_snoc (ops : list (InMemoryRepository.Op E))
    (op : InMemoryRepository.Op E) :
  run (ops ++ [op])
  = InMemoryRepository.apply guardName_of name_of (run ops) op.
Proof. unfold InMemoryRepository.run. now rewrite fold_left_app. Qed.

Lemma run_stored_under_own_key (ops : list (InMemoryRepository.Op E)) :
  stored_under_own_key (run ops).
Proof.
  induction ops as [|op ops IH] using rev_ind.
  - split; [constructor|intros k e []].
  - rewrite run_snoc. destruct IH as [Hnd Hk]. destruct op as [e|n g]; simpl.
    + split; [now apply JSMap_set_NoDup|].
      intros k e' Hin. apply JSMap_set_In in Hin.
      destruct Hin as [[= -> ->]|Hin]; [reflexivity|now apply Hk].
    + split; [now apply JSMap_delete_NoDup|].
      intros k e' Hin. apply JSMap_delete_incl in Hin. now apply Hk.
Qed.

Lemma key_inj_no_colon (g1 g2 n1 n2 : string) :
  has_colon g1 = false -> has_colon g2 = false ->
  InMemoryRepository.key g1 n1 = InMemoryRepository.key g2 n2 ->
  g1 = g2 /\ n1 = n2.
Proof.
  unfold InMemoryRepository.key, String.app.
  revert g2. induction g1 as [|c g1 IH]; intros [|c2 g2]; simpl.
  - intros _ _ [= ->]. split; reflexivity.
  - intros _ H [= <- _]. discriminate.
  - intros H _ [= -> _]. discriminate.
  - intros H1 H2 [= -> Heq].
    apply orb_false_iff in H1. apply orb_false_iff in H2.
    destruct (IH g2) as [-> ->]; [tauto|tauto|exact Heq|]. split; reflexivity.
Qed.

Lemma string_app_assoc (a b c : string) :
  (a +:+ b) +:+ c = a +:+ (b +:+ c).
Proof.
  induction a as [|x a IH]; [reflexivity|].
  change (String x ((a +:+ b) +:+ c) = String x (a +:+ (b +:+ c))).
  now f_equal.
Qed.

Lemma key_assoc (g a b : string) :
  InMemoryRepository.key (g +:+ ":" +:+ a) b
  = InMemoryRepository.key g (a +:+ ":" +:+ b).
Proof.
  unfold InMemoryRepository.key. now rewrite string_app_assoc.
Qed.

Lemma key_undefined_web (n n' : string) :
  InMemoryRepository.key "undefined" n <> InMemoryRepository.key "web" n'.
Proof. unfold InMemoryRepository.key. simpl. discriminate. Qed.

(** X23: what is saved is found again under its own name and guard, and
    only an entity saved or deleted under the same key changes what a
    lookup finds.  An entity saved without a guard name is stored under
    the guard "undefined": a lookup of its name without a guard, which
    reads the guard "web", does not see it.  After a deletion the name
    is not found. *)
Theorem repository_save_find_delete (m : InMemoryRepository.t E) (e : E)
    (n : string) (g : option string) :
  (forall g', guardName_of e = Some g' ->
     InMemoryRepository.find (name_of e) (Some g') (save e m) = Some e)
  /\ (guardName_of e = None ->
        InMemoryRepository.find (name_of e) None (save e m)
        = InMemoryRepository.find (name_of e) None m
        /\ InMemoryRepository.find (name_of e) (Some "undefined") (save e m)
           = Some e)
  /\ (key_of e <> InMemoryRepository.key (JS.default_param g "web") n ->
        InMemoryRepository.find n g (save e m) = InMemoryRepository.find n g m)
  /\ InMemoryRepository.find n g (InMemoryRepository.delete n g m) = None
  /\ (forall n' g',
        InMemoryRepository.key (JS.default_param g "web") n
        <> InMemoryRepository.key (JS.default_param g' "web") n' ->
        InMemoryRepository.find n' g' (InMemoryRepository.delete n g m)
        = InMemoryRepository.find n' g' m).
Proof.
  unfold InMemoryRepository.find, InMemoryRepository.save,
    InMemoryRepository.delete. cbv zeta.
  split; [intros g' Hg; rewrite Hg; apply JSMap_get_set_same|].
  split.
  { intros Hg. rewrite Hg. simpl JS_template. simpl JS.default_param.
    split; [|apply JSMap_get_set_same].
    apply JSMap_get_set_other, key_undefined_web. }
  split; [intros Hne; now apply JSMap_get_set_other|].
  split; [apply JSMap_get_delete_same|].
  intros n' g' Hne. now apply JSMap_get_delete_other.
Qed.

(** X24: in a repository filled by saves and deletions, a lookup
    returns an entity whose guard, [:] and name spell the key that was
    asked for.  When neither guard contains a [:], it is an entity of
    the requested name and guard.  Otherwise it need not be: an entity
    of guard [g:a] and name [b] is stored under the key of guard [g]
    and name [a:b], and is returned for them. *)
Theorem repository_find_sound (ops : list (InMemoryRepository.Op E))
    (n : string) (g : option string) (e : E) :
  (InMemoryRepository.find n g (run ops) = Some e ->
     key_of e = InMemoryRepository.key (JS.default_param g "web") n
     /\ (has_colon (JS.default_param g "web") = false ->
         has_colon (JS_template (guardName_of e)) = false ->
         name_of e = n
         /\ JS_template (guardName_of e) = JS.default_param g "web"))
  /\ (forall g0 a,
        guardName_of e = Some (g0 +:+ ":" +:+ a) ->
        InMemoryRepository.find (a +:+ ":" +:+ name_of e) (Some g0)
          (save e (run ops)) = Some e).
Proof.
  split.
  - intros Hf. unfold InMemoryRepository.find in Hf. cbv zeta in Hf.
    destruct (run_stored_under_own_key ops) as [Hnd Hk].
    apply (JSMap_get_In _ _ _ Hnd) in Hf. apply Hk in Hf.
    split; [now symmetry|].
    intros H1 H2. symmetry in Hf.
    destruct (key_inj_no_colon _ _ _ _ H2 H1 Hf) as [Hg Hn].
    split; assumption.
  - intros g0 a Hg.
    unfold InMemoryRepository.find, InMemoryRepository.save. cbv zeta.
    rewrite Hg. simpl JS_template. simpl JS.default_param.
    rewrite key_assoc. apply JSMap_get_set_same.
Qed.

Lemma values_In (m : JSMap.t E) (e : E) :
  In e (JSMap.values m) <-> exists k, In (k, e) m.
Proof.
  unfold JSMap.values. rewrite in_map_iff. split.
  - intros ([k e'] & He & Hin). simpl in He. subst e'. now exists k.
  - intros (k & Hin). now exists (k, e).
Qed.

Lemma opt_is_true (x : option string) (s : string) :
  opt_is x s = true <-> x = Some s.
Proof.
  destruct x as [y|]; simpl.
  - rewrite String.eqb_eq. split; [now intros ->|now intros [= ->]].
  - split; discriminate.
Qed.

Lemma findAll_names_NoDup (m : InMemoryRepository.t E) (g : string) :
  stored_under_own_key m ->
  List.NoDup
    (map name_of
       (List.filter (fun p => opt_is (guardName_of p) g) (JSMap.values m))).
Proof.
  intros [Hnd Hk]. induction m as [|[k e] m IH]; simpl; [constructor|].
  inversion Hnd as [|? ? Hnot Hnd']; subst.
  assert (IH' := IH Hnd' (fun k0 e0 H => Hk k0 e0 (or_intror H))).
  destruct (opt_is (guardName_of e) g) eqn:Eg; [|exact IH'].
  simpl. constructor; [|exact IH'].
  intros Hin. apply in_map_iff in Hin. destruct Hin as (e' & Hn & Hin').
  apply List.filter_In in Hin'. destruct Hin' as [Hv Hg'].
  apply values_In in Hv. destruct Hv as (k' & Hin).
  apply opt_is_true in Eg. apply opt_is_true in Hg'.
  apply Hnot. unfold JSMap.keys. apply in_map_iff. exists (k', e').
  split; [|exact Hin]. simpl.
  rewrite (Hk k e (or_introl eq_refl)), (Hk k' e' (or_intror Hin)).
  now rewrite Eg, Hg', Hn.
Qed.

(** X25: in a repository filled by saves and deletions, the listing of
    a guard holds exactly the entities of that guard that a lookup of
    their name under the guard returns, and no two of them have the
    same name.  Entities saved without a guard name are in no
    listing. *)
Theorem repository_findAll_spec (ops : list (InMemoryRepository.Op E))
    (g : option string) (e : E) :
  (In e (InMemoryRepository.findAll guardName_of g (run ops)) <->
     guardName_of e = Some (JS.default_param g "web")
     /\ InMemoryRepository.find (name_of e)
          (Some (JS.default_param g "web")) (run ops) = Some e)
  /\ List.NoDup
       (map name_of (InMemoryRepository.findAll guardName_of g (run ops)))
  /\ (guardName_of e = None ->
      ~ In e (InMemoryRepository.findAll guardName_of g (run ops))).
Proof.
  destruct (run_stored_under_own_key ops) as [Hnd Hk].
  unfold InMemoryRepository.findAll, InMemoryRepository.find. cbv zeta.
  split; [|split].
  - rewrite List.filter_In, opt_is_true, values_In.
    simpl JS.default_param. split.
    + intros [(k & Hin) Hg]. split; [exact Hg|].
      apply (JSMap_get_In _ _ _ Hnd).
      rewrite (Hk _ _ Hin) in Hin. now rewrite Hg in Hin.
    + intros [Hg Hf]. split; [|exact Hg].
      apply (JSMap_get_In _ _ _ Hnd) in Hf. eauto.
  - apply findAll_names_NoDup. now split.
  - intros Hg Hin. apply List.filter_In in Hin. destruct Hin as [_ Hin].
    apply opt_is_true in Hin. congruence.
Qed.

End Repository.

(** ** The in-memory cache *)

Section Cache.

Context {V : Type}.

Import PrimFloat.
Import InMemoryCacheService.

(** X26: [set] stores the value with the expiry time [t0 + ttl * 1000],
    computed in binary64 arithmetic from the time [t0] of the call and
    the lifetime in seconds (3600 when none is given).  A following
    [get] at time [t1] returns the value, and the cache keeps it,
    unless [t1] is greater than the expiry time; in that case it
    returns [null] and removes the entry, so that every later [get] of
    the key returns [null] without reading the clock, whatever the time
    is then.  A [get] of a key that is not stored returns [null] and
    reads no clock. *)
Theorem cache_get_after_set (c : InMemoryCacheService.t V) (k : string)
    (v : V) (ttl : option float) (w : World) :
  let t0 := Number_of_Z (clock w (clock_calls w)) in
  let t1 := Number_of_Z (clock w (S (clock_calls w))) in
  let life := match ttl with Some x => x | None => 3600%float end in
  let expiry := (t0 + life * 1000)%float in
  let stored := <[k := mkItem v expiry]> c in
  let w1 := mkWorld (random w) (random_calls w) (clock w) (S (clock_calls w)) in
  let w2 :=
    mkWorld (random w) (random_calls w) (clock w) (S (S (clock_calls w))) in
  set k v ttl c w = (stored, w1)
  /\ ((expiry <? t1)%float = false ->
      get k stored w1 = (Some v, stored, w2))
  /\ ((expiry <? t1)%float = true ->
      get k stored w1 = (None, base.delete k c, w2)
      /\ forall w', get k (base.delete k c) w' = (None, base.delete k c, w'))
  /\ (c !! k = None -> get k c w = (None, c, w)).
Proof.
  intros t0 t1 life expiry stored w1 w2.
  split; [reflexivity|].
  assert (Hget : get k stored w1
                 = if (expiry <? t1)%float
                   then (None, base.delete k c, w2) else (Some v, stored, w2)).
  { unfold get, stored, InMemoryCacheService.t in *.
    rewrite lookup_insert_eq.
    unfold Date_now. rewrite !wbind_run. unfold new_Date, wret, w1.
    cbn [InMemoryCacheService.ttl InMemoryCacheService.value clock
         clock_calls random random_calls fst snd].
    fold t1 w2. destruct (expiry <? t1)%float; [|reflexivity].
    now rewrite delete_insert_eq. }
  split; [|split].
  - intros Hle. now rewrite Hget, Hle.
  - intros Hgt. rewrite Hget, Hgt.
    split; [reflexivity|].
    intros w'. unfold get, InMemoryCacheService.t in *.
    now rewrite lookup_delete_eq.
  - intros Hn. unfold get. now rewrite Hn.
Qed.

End Cache.

(** X26, checked where the rounding of binary64 shows: stored at time
    995 for 9007199254740 seconds, the value expires at 2^53 + 4, the
    number nearest to 2^53 + 3, and is still returned at the time
    2^53 + 4. *)
Lemma cache_get_after_set_witness :
  fst (fst (InMemoryCacheService.get "k"
              (fst (InMemoryCacheService.set "k" 7
                      (Some CacheExamples.long_life) ∅ CacheExamples.w))
              (snd (InMemoryCacheService.set "k" 7
                      (Some CacheExamples.long_life) ∅ CacheExamples.w))))
  = Some 7.
Proof.
  destruct (cache_get_after_set (∅ : InMemoryCacheService.t nat) "k" 7
              (Some CacheExamples.long_life) CacheExamples.w)
    as (Hset & Hget & _).
  cbv zeta in Hset, Hget. rewrite Hset. cbn [fst snd].
  rewrite Hget; [reflexivity|]. vm_compute. reflexivity.
Defined.
